(** * SimpleMind mind maps: document model, codec and editing tools

    A shallow embedding of [simplemind_parser.py] (the node and map
    classes, the reader and the writer of .smmx archives) and of the
    editing branches of [handle_call_tool] in [simplemind_mcp_server.py],
    followed by the properties of the specification that concern them.

    Modelling conventions.
    - Python objects live in a store ([heap]); a reference is an index into
      it.  [SimpleMindMap.nodes] and every [children] list hold references,
      so that aliasing and in-place mutation behave as in the source.
    - A Python [dict] is an association list in insertion order.
    - A value that may be [None] ([topic.get('id')], [parent_id]) is an
      [option string].
    - Strings are sequences of 8-bit characters; [lower], [int] and [str]
      are modelled on ASCII.
    - Coordinates are IEEE binary64 numbers ([PrimFloat]), as Python floats.
    - Python exceptions are values of [exn]; recursion and loops over the
      object graph take a fuel argument and return [None] when it runs out.
    - The XML payload is modelled as an element tree ([Element]), with the
      part of the ElementTree API the source calls; serialising the tree,
      zipping and parsing it back are not modelled. *)

From Stdlib Require Import String Ascii List ZArith Lia Bool PeanoNat.
From Stdlib Require Import Permutation.
From Stdlib Require Import Floats.
Import ListNotations.

Local Open Scope string_scope.
Local Open Scope list_scope.

Set Implicit Arguments.
Set Warnings "-register-all".

(** ** Python values and exceptions *)

Inductive exn : Type :=
| ValueError
| TypeError
| KeyError.

Inductive result (A : Type) : Type :=
| Ok (a : A)
| Raise (e : exn).

Arguments Ok {A} a.
Arguments Raise {A} e.

Definition bind {A B : Type} (r : result A) (k : A -> result B) : result B :=
  match r with
  | Ok a => k a
  | Raise e => Raise e
  end.

Declare Scope py_scope.
Notation "'let*' x ':=' r 'in' k" := (bind r (fun x => k))
  (at level 10, x pattern, r at level 100, k at level 200) : py_scope.
Local Open Scope py_scope.

(** [str | None] *)
Definition pystr : Type := option string.

Definition pystr_eqb (a b : pystr) : bool :=
  match a, b with
  | Some s, Some t => String.eqb s t
  | None, None => true
  | _, _ => false
  end.

Lemma pystr_eqb_spec (a b : pystr) : reflect (a = b) (pystr_eqb a b).
Proof.
  destruct a as [s|], b as [t|]; simpl; try (constructor; congruence).
  destruct (String.eqb_spec s t); constructor; congruence.
Qed.

Lemma pystr_eqb_refl (a : pystr) : pystr_eqb a a = true.
Proof. destruct (pystr_eqb_spec a a); congruence. Qed.

Lemma pystr_eqb_eq (a b : pystr) : pystr_eqb a b = true <-> a = b.
Proof. destruct (pystr_eqb_spec a b); split; congruence. Qed.

Lemma pystr_eqb_neq (a b : pystr) : pystr_eqb a b = false <-> a <> b.
Proof. destruct (pystr_eqb_spec a b); split; congruence. Qed.

Lemma pystr_eqb_sym (a b : pystr) : pystr_eqb a b = pystr_eqb b a.
Proof.
  destruct (pystr_eqb_spec a b), (pystr_eqb_spec b a); congruence.
Qed.

(** The reserved parent id of a root: the string "-1". *)
Definition ROOT_PARENT : pystr := Some "-1".

(** ** str.lower and the [in] operator on strings *)

Definition lower_ascii (c : ascii) : ascii :=
  let n := nat_of_ascii c in
  if Nat.leb 65 n && Nat.leb n 90 then ascii_of_nat (n + 32) else c.

Fixpoint lower (s : string) : string :=
  match s with
  | EmptyString => EmptyString
  | String c r => String (lower_ascii c) (lower r)
  end.

(** [sub in s] *)
Fixpoint str_in (sub s : string) : bool :=
  if String.prefix sub s then true
  else match s with
       | EmptyString => false
       | String _ r => str_in sub r
       end.

(** ** Insertion-ordered dictionaries *)

Section Dict.
Variable V : Type.

Definition dict : Type := list (pystr * V).

Fixpoint dict_get (k : pystr) (d : dict) : option V :=
  match d with
  | [] => None
  | (k', v) :: r => if pystr_eqb k k' then Some v else dict_get k r
  end.

(** [k in d] *)
Definition dict_mem (k : pystr) (d : dict) : bool :=
  match dict_get k d with Some _ => true | None => false end.

(** [d[k] = v]: an existing key keeps its place. *)
Fixpoint dict_set (k : pystr) (v : V) (d : dict) : dict :=
  match d with
  | [] => [(k, v)]
  | (k', v') :: r =>
      if pystr_eqb k k' then (k', v) :: r else (k', v') :: dict_set k v r
  end.

(** [del d[k]] for a key that is present. *)
Fixpoint dict_del (k : pystr) (d : dict) : dict :=
  match d with
  | [] => []
  | (k', v') :: r =>
      if pystr_eqb k k' then r else (k', v') :: dict_del k r
  end.

Definition keys (d : dict) : list pystr := map fst d.
Definition values (d : dict) : list V := map snd d.
End Dict.

(** ** The object store *)

Definition loc : Type := nat.

Module Node.
(** class SimpleMindNode *)
Record t : Type := mk {
  id : pystr;
  text : string;
  parent_id : pystr;
  x : float;
  y : float;
  notes : string;
  guid : string;
  palette : string;
  colorinfo : string;
  icon : string;
  url_link : string;
  layout_mode : string;
  layout_direction : string;
  layout_flow : string;
  children : list loc;
  parent_relation_guid : string
}.

Definition set_children (c : list loc) (n : t) : t :=
  mk (id n) (text n) (parent_id n) (x n) (y n) (notes n) (guid n)
     (palette n) (colorinfo n) (icon n) (url_link n) (layout_mode n)
     (layout_direction n) (layout_flow n) c (parent_relation_guid n).

Definition set_text (s : string) (n : t) : t :=
  mk (id n) s (parent_id n) (x n) (y n) (notes n) (guid n)
     (palette n) (colorinfo n) (icon n) (url_link n) (layout_mode n)
     (layout_direction n) (layout_flow n) (children n)
     (parent_relation_guid n).

Definition set_notes (s : string) (n : t) : t :=
  mk (id n) (text n) (parent_id n) (x n) (y n) s (guid n)
     (palette n) (colorinfo n) (icon n) (url_link n) (layout_mode n)
     (layout_direction n) (layout_flow n) (children n)
     (parent_relation_guid n).

Definition set_parent_relation_guid (s : string) (n : t) : t :=
  mk (id n) (text n) (parent_id n) (x n) (y n) (notes n) (guid n)
     (palette n) (colorinfo n) (icon n) (url_link n) (layout_mode n)
     (layout_direction n) (layout_flow n) (children n) s.

(** [SimpleMindNode(id, text, parent_id, x, y, notes, guid)], the other
    keyword arguments at their defaults. *)
Definition init (i : pystr) (txt : string) (p : pystr) (vx vy : float)
    (nts g : string) : t :=
  mk i txt p vx vy nts g "" "" "" "" "" "" "" [] "".
End Node.

Abbreviation SimpleMindNode := Node.t.

Definition heap : Type := list SimpleMindNode.

Definition deref (h : heap) (l : loc) : option SimpleMindNode := nth_error h l.

(** Creating an object: it gets the next free reference. *)
Definition alloc (h : heap) (n : SimpleMindNode) : heap * loc :=
  (h ++ [n], length h).

(** In-place mutation of the object at [l]. *)
Fixpoint mutate (l : loc) (f : SimpleMindNode -> SimpleMindNode) (h : heap) : heap :=
  match h, l with
  | [], _ => []
  | n :: r, O => f n :: r
  | n :: r, S l' => n :: mutate l' f r
  end.

(** ** class SimpleMindMap *)

Record Relation : Type := mkRelation {
  rel_guid : string;
  rel_source : string;
  rel_target : string
}.

Module Map.
Record t : Type := mk {
  title : string;
  nodes : dict loc;
  root_node : option loc;
  guid : string;
  style : string;
  zoom : Z;
  scroll_x : float;
  scroll_y : float;
  contains_images : bool;
  relations : list Relation;
  images : list (string * string)
}.

Definition set_nodes (d : dict loc) (m : t) : t :=
  mk (title m) d (root_node m) (guid m) (style m) (zoom m) (scroll_x m)
     (scroll_y m) (contains_images m) (relations m) (images m).

Definition set_root_node (r : option loc) (m : t) : t :=
  mk (title m) (nodes m) r (guid m) (style m) (zoom m) (scroll_x m)
     (scroll_y m) (contains_images m) (relations m) (images m).

Definition set_title (v : string) (m : t) : t :=
  mk v (nodes m) (root_node m) (guid m) (style m) (zoom m) (scroll_x m)
     (scroll_y m) (contains_images m) (relations m) (images m).

Definition set_guid (v : string) (m : t) : t :=
  mk (title m) (nodes m) (root_node m) v (style m) (zoom m) (scroll_x m)
     (scroll_y m) (contains_images m) (relations m) (images m).

Definition set_style (v : string) (m : t) : t :=
  mk (title m) (nodes m) (root_node m) (guid m) v (zoom m) (scroll_x m)
     (scroll_y m) (contains_images m) (relations m) (images m).

Definition set_scroll (z : Z) (sx sy : float) (m : t) : t :=
  mk (title m) (nodes m) (root_node m) (guid m) (style m) z sx sy
     (contains_images m) (relations m) (images m).

Definition set_contains_images (b : bool) (m : t) : t :=
  mk (title m) (nodes m) (root_node m) (guid m) (style m) (zoom m)
     (scroll_x m) (scroll_y m) b (relations m) (images m).

Definition set_relations (r : list Relation) (m : t) : t :=
  mk (title m) (nodes m) (root_node m) (guid m) (style m) (zoom m)
     (scroll_x m) (scroll_y m) (contains_images m) r (images m).

Definition set_images (i : list (string * string)) (m : t) : t :=
  mk (title m) (nodes m) (root_node m) (guid m) (style m) (zoom m)
     (scroll_x m) (scroll_y m) (contains_images m) (relations m) i.

(** [SimpleMindMap(title)] *)
Definition init (ttl : string) : t :=
  mk ttl [] None "" "system.bright-palette" 100 0%float 0%float false [] [].
End Map.

Abbreviation SimpleMindMap := Map.t.

(** [SimpleMindMap.add_node]: the argument is a reference to the node. *)
Definition add_node (h : heap) (m : SimpleMindMap) (l : loc)
    : heap * SimpleMindMap :=
  match deref h l with
  | None => (h, m)
  | Some node =>
      let m1 := Map.set_nodes (dict_set (Node.id node) l (Map.nodes m)) m in
      if pystr_eqb (Node.parent_id node) ROOT_PARENT then
        (h, Map.set_root_node (Some l) m1)
      else
        match dict_get (Node.parent_id node) (Map.nodes m1) with
        | Some lp =>
            (mutate lp (fun p => Node.set_children (Node.children p ++ [l]) p) h,
             m1)
        | None => (h, m1)
        end
  end.

(** [SimpleMindMap.get_node] *)
Definition get_node (m : SimpleMindMap) (node_id : pystr) : option loc :=
  dict_get node_id (Map.nodes m).

(** [SimpleMindMap.search_nodes] *)
Definition search_hit (query_lower : string) (search_notes : bool)
    (node : SimpleMindNode) : bool :=
  if str_in query_lower (lower (Node.text node)) then true
  else if search_notes && str_in query_lower (lower (Node.notes node)) then true
  else false.

Fixpoint search_loop (h : heap) (query_lower : string) (search_notes : bool)
    (vals : list loc) (results : list loc) : list loc :=
  match vals with
  | [] => results
  | l :: r =>
      match deref h l with
      | None => search_loop h query_lower search_notes r results
      | Some node =>
          if search_hit query_lower search_notes node
          then search_loop h query_lower search_notes r (results ++ [l])
          else search_loop h query_lower search_notes r results
      end
  end.

Definition search_nodes (h : heap) (m : SimpleMindMap) (query : string)
    (search_notes : bool) : list loc :=
  let query_lower := lower query in
  search_loop h query_lower search_notes (values (Map.nodes m)) [].

(** ** int(), str() on integers *)

Definition is_space (c : ascii) : bool :=
  let n := nat_of_ascii c in
  (Nat.leb 9 n && Nat.leb n 13) || (Nat.leb 28 n && Nat.leb n 32).

Fixpoint lstrip (s : string) : string :=
  match s with
  | EmptyString => EmptyString
  | String c r => if is_space c then lstrip r else s
  end.

Fixpoint rstrip (s : string) : string :=
  match s with
  | EmptyString => EmptyString
  | String c r =>
      match rstrip r with
      | EmptyString => if is_space c then EmptyString else String c EmptyString
      | r' => String c r'
      end
  end.

Definition strip (s : string) : string := rstrip (lstrip s).

Definition digit_val (c : ascii) : option Z :=
  let n := nat_of_ascii c in
  if Nat.leb 48 n && Nat.leb n 57 then Some (Z.of_nat (n - 48)) else None.

(** Decimal digits, a single underscore allowed between two digits. *)
Fixpoint int_digits (s : string) (acc : Z) (after_digit : bool) : option Z :=
  match s with
  | EmptyString => if after_digit then Some acc else None
  | String c r =>
      match digit_val c with
      | Some d => int_digits r (10 * acc + d) true
      | None =>
          if Ascii.eqb c "_" && after_digit then int_digits r acc false
          else None
      end
  end.

(** [int(v)] for [v] a string or [None]. *)
Definition py_int (v : pystr) : result Z :=
  match v with
  | None => Raise TypeError
  | Some s =>
      let body (t : string) :=
        match int_digits t 0 false with
        | Some z => Ok z
        | None => Raise ValueError
        end in
      match strip s with
      | String "-" r => let* z := body r in Ok (- z)%Z
      | String "+" r => body r
      | t => body t
      end
  end.

Definition digit_char (d : Z) : ascii := ascii_of_nat (48 + Z.to_nat d).

Fixpoint str_digits (fuel : nat) (n : Z) (acc : string) : string :=
  match fuel with
  | O => acc
  | S f =>
      let acc' := String (digit_char (n mod 10)) acc in
      if (n <? 10)%Z then acc' else str_digits f (n / 10) acc'
  end.

Definition str_nat (n : Z) : string :=
  str_digits (S (Z.to_nat (Z.log2 n))) n EmptyString.

(** [str(z)] for an integer [z]. *)
Definition py_str (z : Z) : string :=
  if (z <? 0)%Z then String "-" (str_nat (- z)) else str_nat z.

(** ** xml.etree.ElementTree, as far as the source uses it *)

Inductive Element : Type :=
| Elem (tag : string) (attrib : list (string * string))
       (text : option string) (children : list Element).

Definition el_tag (e : Element) : string :=
  match e with Elem t _ _ _ => t end.
Definition el_attrib (e : Element) : list (string * string) :=
  match e with Elem _ a _ _ => a end.
Definition el_text (e : Element) : option string :=
  match e with Elem _ _ t _ => t end.
Definition el_children (e : Element) : list Element :=
  match e with Elem _ _ _ c => c end.

Fixpoint assoc_get (k : string) (a : list (string * string)) : option string :=
  match a with
  | [] => None
  | (k', v) :: r => if String.eqb k k' then Some v else assoc_get k r
  end.

Fixpoint assoc_set (k v : string) (a : list (string * string))
    : list (string * string) :=
  match a with
  | [] => [(k, v)]
  | (k', v') :: r =>
      if String.eqb k k' then (k', v) :: r else (k', v') :: assoc_set k v r
  end.

(** [e.get(key)] *)
Definition el_get (e : Element) (key : string) : option string :=
  assoc_get key (el_attrib e).

(** [e.get(key, default)] *)
Definition el_get_default (e : Element) (key default : string) : string :=
  match el_get e key with Some v => v | None => default end.

(** [e.findall(tag)]: the direct children with that tag. *)
Definition findall (e : Element) (tag : string) : list Element :=
  filter (fun c => String.eqb (el_tag c) tag) (el_children e).

(** [e.find(tag)] *)
Definition find (e : Element) (tag : string) : option Element :=
  hd_error (findall e tag).

(** All proper descendants in document order. *)
Fixpoint descendants (e : Element) : list Element :=
  match e with
  | Elem _ _ _ cs =>
      (fix go (l : list Element) : list Element :=
         match l with
         | [] => []
         | c :: r => c :: descendants c ++ go r
         end) cs
  end.

(** [e.findall('.//tag')] *)
Definition findall_desc (e : Element) (tag : string) : list Element :=
  filter (fun c => String.eqb (el_tag c) tag) (descendants e).

(** [e.find('.//tag')] *)
Definition find_desc (e : Element) (tag : string) : option Element :=
  hd_error (findall_desc e tag).

(** [ET.SubElement] with its attributes set, in the order of the calls. *)
Fixpoint with_attrs (kvs : list (string * string)) (a : list (string * string))
    : list (string * string) :=
  match kvs with
  | [] => a
  | (k, v) :: r => with_attrs r (assoc_set k v a)
  end.

Definition element (tag : string) (kvs : list (string * string))
    (txt : option string) (cs : list Element) : Element :=
  Elem tag (with_attrs kvs []) txt cs.

(** ** The archive *)

(** A .smmx file: the parsed entry [document/mindmap.xml], when there is
    one, and the other entries by name. *)
Record Archive : Type := mkArchive {
  payload : option Element;
  entries : list (string * string)
}.

(** [name.endswith(suffix)] *)
Definition endswith (name suffix : string) : bool :=
  let n := String.length name in
  let k := String.length suffix in
  Nat.leb k n && String.eqb (String.substring (n - k) k name) suffix.

(** [x or default] for a string [x]. *)
Definition str_or (v default : string) : string :=
  match v with
  | EmptyString => default
  | _ => v
  end.

(** Truth value of a string. *)
Definition truthy (v : string) : bool :=
  match v with
  | EmptyString => false
  | _ => true
  end.

Fixpoint sequence {A : Type} (l : list (result A)) : result (list A) :=
  match l with
  | [] => Ok []
  | r :: t => let* a := r in let* rest := sequence t in Ok (a :: rest)
  end.

Fixpoint flat_map_opt {A B : Type} (f : A -> option (list B)) (l : list A)
    : option (list B) :=
  match l with
  | [] => Some []
  | a :: r =>
      match f a with
      | None => None
      | Some bs =>
          match flat_map_opt f r with
          | None => None
          | Some rest => Some (bs ++ rest)
          end
      end
  end.

(** ** The exports: to_dict and to_markdown *)

(** The values of the dictionaries the exports build (and [json.dumps]
    prints). *)
Inductive pyval : Type :=
| VNone
| VBool (b : bool)
| VInt (z : Z)
| VFloat (f : float)
| VStr (s : string)
| VList (l : list pyval)
| VDict (d : list (string * pyval)).

Definition of_pystr (v : pystr) : pyval :=
  match v with
  | Some s => VStr s
  | None => VNone
  end.

(** [SimpleMindNode.to_dict], for the object at [l]: its dictionary (none
    when [l] is not an object); [None] when the recursion does not end
    within [fuel] levels. *)
Fixpoint node_to_dict (fuel : nat) (h : heap) (l : loc) : option (list pyval) :=
  match fuel with
  | O => None
  | S f =>
      match deref h l with
      | None => Some []
      | Some node =>
          match flat_map_opt (node_to_dict f h) (Node.children node) with
          | None => None
          | Some children =>
              Some
                [VDict
                   ([("id", of_pystr (Node.id node));
                     ("text", VStr (Node.text node));
                     ("parent_id", of_pystr (Node.parent_id node));
                     ("x", VFloat (Node.x node));
                     ("y", VFloat (Node.y node));
                     ("notes", VStr (Node.notes node));
                     ("guid", VStr (Node.guid node));
                     ("palette", VStr (Node.palette node));
                     ("colorinfo", VStr (Node.colorinfo node));
                     ("children", VList children)]
                    ++ (if truthy (Node.icon node)
                        then [("icon", VStr (Node.icon node))] else [])
                    ++ (if truthy (Node.url_link node)
                        then [("url_link", VStr (Node.url_link node))] else [])
                    ++ (if truthy (Node.layout_mode node)
                        then [("layout",
                               VDict
                                 [("mode", VStr (Node.layout_mode node));
                                  ("direction", VStr (Node.layout_direction node));
                                  ("flow", VStr (Node.layout_flow node))])]
                        else []))]
          end
      end
  end.

(** [SimpleMindMap.to_dict] *)
Definition to_dict (fuel : nat) (h : heap) (mindmap : SimpleMindMap)
    : option pyval :=
  let root :=
    match Map.root_node mindmap with
    | None => Some VNone
    | Some r =>
        match node_to_dict fuel h r with
        | None => None
        | Some [d] => Some d
        | Some _ => Some VNone
        end
    end in
  match root with
  | None => None
  | Some v =>
      Some (VDict [("title", VStr (Map.title mindmap));
                   ("root", v);
                   ("total_nodes", VInt (Z.of_nat (length (Map.nodes mindmap))))])
  end.

Definition newline : string := String (ascii_of_nat 10) EmptyString.

(** [s * n] *)
Fixpoint str_repeat (n : nat) (s : string) : string :=
  match n with
  | O => EmptyString
  | S k => String.append s (str_repeat k s)
  end.

(** The line [f"{'#' * (depth + 1)} {text}\n"]. *)
Definition header_line (depth : Z) (text : string) : string :=
  String.append (str_repeat (Z.to_nat (depth + 1)) "#")
    (String.append " " (String.append text newline)).

(** The line [f"{notes}\n"]. *)
Definition notes_line (notes : string) : string := String.append notes newline.

(** [process_children(node, depth)] of [to_markdown], on the list [lines]
    it appends to. *)
Fixpoint process_children (fuel : nat) (h : heap) (max_depth : Z) (l : loc)
    (depth : Z) (lines : list string) : option (list string) :=
  match fuel with
  | O => None
  | S f =>
      if (max_depth <? depth)%Z then Some lines
      else
        match deref h l with
        | None => Some lines
        | Some node =>
            fold_left
              (fun acc child =>
                 match acc with
                 | None => None
                 | Some ls =>
                     match deref h child with
                     | None => Some ls
                     | Some c =>
                         let ls1 := ls ++ [header_line depth (Node.text c)] in
                         let ls2 :=
                           if truthy (Node.notes c)
                           then ls1 ++ [notes_line (Node.notes c)] else ls1 in
                         process_children f h max_depth child (depth + 1) ls2
                     end
                 end)
              (Node.children node) (Some lines)
        end
  end.

(** The list [lines] of [to_markdown] when it is joined. *)
Definition markdown_lines (fuel : nat) (h : heap) (mindmap : SimpleMindMap)
    (max_depth : Z) : option (list string) :=
  match Map.root_node mindmap with
  | None => Some []
  | Some r =>
      match deref h r with
      | None => Some []
      | Some root =>
          let lines := [String.append "# " (String.append (Node.text root) newline)] in
          let lines :=
            if truthy (Node.notes root)
            then lines ++ [notes_line (Node.notes root)] else lines in
          process_children fuel h max_depth r 1 lines
      end
  end.

(** [SimpleMindMap.to_markdown] *)
Definition to_markdown (fuel : nat) (h : heap) (mindmap : SimpleMindMap)
    (max_depth : Z) : option string :=
  match markdown_lines fuel h mindmap max_depth with
  | None => None
  | Some lines => Some (String.concat newline lines)
  end.

(** ** class SimpleMindParser *)

Section Codec.

(** Library functions the codec calls: [float(s)], [f"{v:.2f}"] and
    [Path(name).stem]. *)
Variable py_float : string -> result float.
Variable format_2f : float -> string.
Variable path_stem : string -> string.

(** *** SimpleMindParser.read *)

Definition read_images (a : Archive) (mindmap : SimpleMindMap) : SimpleMindMap :=
  fold_left
    (fun m (entry : string * string) =>
       let (filename, data) := entry in
       if String.prefix "images/" filename
          && (endswith filename ".png" || endswith filename ".jpg"
              || endswith filename ".jpeg")
       then Map.set_images (assoc_set (path_stem filename) data (Map.images m)) m
       else m)
    (entries a) mindmap.

Definition read_meta (tree : Element) (mindmap : SimpleMindMap)
    : result SimpleMindMap :=
  match find_desc tree "meta" with
  | None => Ok mindmap
  | Some meta =>
      let m1 :=
        match find meta "title" with
        | Some e => Map.set_title (el_get_default e "text" "Untitled") mindmap
        | None => mindmap
        end in
      let m2 :=
        match find meta "guid" with
        | Some e => Map.set_guid (el_get_default e "guid" "") m1
        | None => m1
        end in
      let m3 :=
        match find meta "style" with
        | Some e => Map.set_style (el_get_default e "key" "system.bright-palette") m2
        | None => m2
        end in
      let* m4 :=
        match find meta "scrollstate" with
        | Some e =>
            let* z := py_int (Some (el_get_default e "zoom" "100")) in
            let* sx := py_float (el_get_default e "x" "0") in
            let* sy := py_float (el_get_default e "y" "0") in
            Ok (Map.set_scroll z sx sy m3)
        | None => Ok m3
        end in
      match find meta "images" with
      | Some e =>
          Ok (Map.set_contains_images
                (String.eqb (lower (el_get_default e "containsImages" "false")) "true")
                m4)
      | None => Ok m4
      end
  end.

(** The body of the loop over the topics, up to the call of [add_node]. *)
Definition read_topic (topic : Element) : result SimpleMindNode :=
  let node_id := el_get topic "id" in
  let parent_id := el_get topic "parent" in
  let text := el_get_default topic "text" "" in
  let* x := py_float (el_get_default topic "x" "0") in
  let* y := py_float (el_get_default topic "y" "0") in
  let guid := el_get_default topic "guid" "" in
  let palette := el_get_default topic "palette" "" in
  let colorinfo := el_get_default topic "colorinfo" "" in
  let icon := el_get_default topic "icon" "" in
  let notes :=
    match find topic "note" with
    | Some note_elem =>
        match el_text note_elem with Some t => str_or t "" | None => "" end
    | None => ""
    end in
  let url_link :=
    match find topic "link" with
    | Some link_elem => el_get_default link_elem "urllink" ""
    | None => ""
    end in
  let layout :=
    match find topic "layout" with
    | Some layout_elem =>
        (el_get_default layout_elem "mode" "",
         el_get_default layout_elem "direction" "",
         el_get_default layout_elem "flow" "")
    | None => ("", "", "")
    end in
  let '(layout_mode, layout_direction, layout_flow) := layout in
  let node :=
    Node.mk node_id text parent_id x y notes guid palette colorinfo icon
            url_link layout_mode layout_direction layout_flow [] "" in
  match find topic "parent-relation" with
  | Some parent_rel_elem =>
      Ok (Node.set_parent_relation_guid
            (el_get_default parent_rel_elem "guid" "") node)
  | None => Ok node
  end.

Fixpoint read_topics (topics : list Element) (h : heap) (mindmap : SimpleMindMap)
    : result (heap * SimpleMindMap) :=
  match topics with
  | [] => Ok (h, mindmap)
  | topic :: rest =>
      let* node := read_topic topic in
      let (h1, l) := alloc h node in
      let (h2, m2) := add_node h1 mindmap l in
      read_topics rest h2 m2
  end.

Definition read_relations (tree : Element) (mindmap : SimpleMindMap)
    : SimpleMindMap :=
  match find_desc tree "relations" with
  | None => mindmap
  | Some relations =>
      Map.set_relations
        (Map.relations mindmap ++
         map (fun relation =>
                mkRelation (el_get_default relation "guid" "")
                           (el_get_default relation "source" "")
                           (el_get_default relation "target" ""))
             (findall relations "relation"))
        mindmap
  end.

(** The result is a fresh store holding the nodes, and the map. *)
Definition read (a : Archive) : result (heap * SimpleMindMap) :=
  match payload a with
  | None => Raise KeyError
  | Some tree =>
      let mindmap := Map.init "New Mind Map" in
      let mindmap := read_images a mindmap in
      let* mindmap := read_meta tree mindmap in
      let topics := findall_desc tree "topic" in
      let* (h, mindmap) := read_topics topics [] mindmap in
      Ok (h, read_relations tree mindmap)
  end.

(** *** SimpleMindParser.write *)

(** Serialising an attribute whose value is [None] raises TypeError. *)
Definition attr_value (v : pystr) : result string :=
  match v with
  | Some s => Ok s
  | None => Raise TypeError
  end.

Definition opt_attr (k v : string) : list (string * string) :=
  if truthy v then [(k, v)] else [].

Definition opt_child (v : string) (e : Element) : list Element :=
  if truthy v then [e] else [].

(** The [topic] element [add_topic_element] creates for one node, its
    [id] and [parent] attributes given. *)
Definition topic_xml (vid vparent : string) (node : SimpleMindNode) : Element :=
  element "topic"
    ([("id", vid); ("parent", vparent); ("guid", Node.guid node);
      ("x", format_2f (Node.x node)); ("y", format_2f (Node.y node))]
     ++ opt_attr "palette" (Node.palette node)
     ++ opt_attr "colorinfo" (Node.colorinfo node)
     ++ opt_attr "icon" (Node.icon node)
     ++ [("text", Node.text node); ("textfmt", "plain")])
    None
    (opt_child (Node.parent_relation_guid node)
       (element "parent-relation"
          [("guid", Node.parent_relation_guid node)] None [])
     ++ opt_child (Node.url_link node)
          (element "link" [("urllink", Node.url_link node)] None [])
     ++ opt_child (Node.notes node)
          (element "note" [] (Some (Node.notes node)) [])
     ++ opt_child (Node.layout_mode node)
          (element "layout"
             ([("mode", Node.layout_mode node)]
              ++ opt_attr "direction" (Node.layout_direction node)
              ++ opt_attr "flow" (Node.layout_flow node))
             None [])).

Definition topic_element (node : SimpleMindNode) : result Element :=
  let* vid := attr_value (Node.id node) in
  let* vparent := attr_value (Node.parent_id node) in
  Ok (topic_xml vid vparent node).

(** The topics appended by [add_topic_element(node)], in order; [None]
    when the recursion does not end within [fuel] levels. *)
Fixpoint add_topic_element (fuel : nat) (h : heap) (l : loc)
    : option (list (result Element)) :=
  match fuel with
  | O => None
  | S f =>
      match deref h l with
      | None => Some []
      | Some node =>
          match flat_map_opt (add_topic_element f h) (Node.children node) with
          | None => None
          | Some below => Some (topic_element node :: below)
          end
      end
  end.

Definition root_nodes (h : heap) (mindmap : SimpleMindMap) : list loc :=
  filter
    (fun l =>
       match deref h l with
       | Some node => pystr_eqb (Node.parent_id node) ROOT_PARENT
       | None => false
       end)
    (values (Map.nodes mindmap)).

(** The [meta] element, the [selection] and [main-centraltheme] entries
    given. *)
Definition meta_xml (mindmap : SimpleMindMap) (selection : list Element)
    : Element :=
  element "meta" [] None
    ([element "guid" [("guid", str_or (Map.guid mindmap) "GENERATED_GUID")]
        None [];
      element "title" [("text", Map.title mindmap)] None []]
     ++ (if Map.contains_images mindmap
            || negb (Nat.eqb (length (Map.images mindmap)) 0)
         then [element "images" [("containsImages", "true")] None []]
         else [])
     ++ [element "style" [("key", Map.style mindmap)] None [];
         element "auto-numbering" [("style", "disabled")] None [];
         element "scrollstate"
           [("zoom", py_str (Map.zoom mindmap));
            ("x", format_2f (Map.scroll_x mindmap));
            ("y", format_2f (Map.scroll_y mindmap))] None []]
     ++ selection).

Definition selection_elements (root : SimpleMindNode) (rid : string)
    : list Element :=
  [element "selection"
     [("guid", Node.guid root); ("type", "node"); ("id", rid)] None [];
   element "main-centraltheme" [("id", rid)] None []].

Definition meta_element (h : heap) (mindmap : SimpleMindMap) : result Element :=
  let* selection :=
    match Map.root_node mindmap with
    | None => Ok []
    | Some r =>
        match deref h r with
        | None => Ok []
        | Some root =>
            let* rid := attr_value (Node.id root) in
            Ok (selection_elements root rid)
        end
    end in
  Ok (meta_xml mindmap selection).

Definition relations_elements (mindmap : SimpleMindMap) : list Element :=
  match Map.relations mindmap with
  | [] => []
  | rels =>
      [element "relations" [] None
         (map (fun rel =>
                 element "relation"
                   [("guid", rel_guid rel); ("source", rel_source rel);
                    ("target", rel_target rel)] None [])
              rels)]
  end.

(** [None]: the traversal did not end within [fuel] levels.
    [Some (Raise e)]: the call raised [e] and wrote nothing.
    [Some (Ok a)]: the archive written. *)
Definition write (fuel : nat) (h : heap) (mindmap : SimpleMindMap)
    : option (result Archive) :=
  match flat_map_opt (add_topic_element fuel h) (root_nodes h mindmap) with
  | None => None
  | Some topics =>
      Some
        (let* meta := meta_element h mindmap in
         let* topic_elems := sequence topics in
         let mindmap_elem :=
           element "mindmap" [] None
             ([meta; element "topics" [] None topic_elems]
              ++ relations_elements mindmap
              ++ [element "node-groups" [] None []]) in
         let root :=
           element "simplemind-mindmaps"
             [("doc-version", "3"); ("generator", "SimpleMindMCP");
              ("gen-version", "1.0.0")] None [mindmap_elem] in
         Ok (mkArchive (Some root)
               (map (fun img : string * string =>
                       (String.append "images/" (String.append (fst img) ".png"),
                        snd img))
                    (Map.images mindmap))))
  end.

End Codec.

(** ** The editing tools of the server

    Each branch of [handle_call_tool] is modelled from the point where
    [read_mindmap] has returned the map up to the call of [write_mindmap]
    or the early return. *)

Inductive Change : Type :=
| TextChange (new_text : string)
| NotesChange (characters : nat).

(** The replies of the handler, one constructor per message. *)
Inductive Response : Type :=
| ParentNotFound (parent_id : string)
| NodeNotFound (node_id : string)
| MustProvideTextOrNotes
| CannotDeleteRoot
| Added (text new_id parent_id : string)
| Updated (node_id : string) (changes : list Change)
| Deleted (text : string) (descendants : Z)
| NodePath (node_id : string) (path : list (pystr * string))
| Error (e : exn).

Inductive outcome : Type :=
| Written (h : heap) (mindmap : SimpleMindMap) (r : Response)
| Reply (r : Response).

Definition float_of_int (z : Z) : float :=
  if (z <? 0)%Z then PrimFloat.opp (PrimFloat.of_uint63 (Uint63.of_Z (- z)))
  else PrimFloat.of_uint63 (Uint63.of_Z z).

Fixpoint mapM {A B : Type} (f : A -> result B) (l : list A) : result (list B) :=
  match l with
  | [] => Ok []
  | a :: r => let* b := f a in let* bs := mapM f r in Ok (b :: bs)
  end.

(** [max(l)] for a list of integers. *)
Definition py_max (l : list Z) : result Z :=
  match l with
  | [] => Raise ValueError
  | z :: r => Ok (fold_left Z.max r z)
  end.

(** [str(max([int(nid) for nid in mindmap.nodes.keys()]) + 1)] *)
Definition generate_id (mindmap : SimpleMindMap) : result string :=
  let* ints := mapM py_int (keys (Map.nodes mindmap)) in
  let* top := py_max ints in
  Ok (py_str (top + 1)).

(** The position given to the new node. *)
Definition new_position (grandparent : option SimpleMindNode)
    (parent : SimpleMindNode) : float * float :=
  let child_count := Z.of_nat (length (Node.children parent)) in
  match grandparent with
  | Some gp =>
      let dx := (Node.x parent - Node.x gp)%float in
      let dy := (Node.y parent - Node.y gp)%float in
      let base_x := (Node.x parent + dx)%float in
      let base_y := (Node.y parent + dy)%float in
      if (0 <? child_count)%Z then
        let perp_dx := (- dy)%float in
        let perp_dy := dx in
        let perp_length :=
          PrimFloat.sqrt (perp_dx * perp_dx + perp_dy * perp_dy)%float in
        let perp :=
          if (0 <? perp_length)%float
          then ((perp_dx / perp_length) * 80, (perp_dy / perp_length) * 80)%float
          else (perp_dx, perp_dy) in
        let child_index := child_count in
        let offset_mult :=
          if (child_index mod 2 =? 0)%Z then (child_index / 2)%Z
          else (- ((child_index + 1) / 2))%Z in
        ((base_x + fst perp * float_of_int offset_mult)%float,
         (base_y + snd perp * float_of_int offset_mult)%float)
      else (base_x, base_y)
  | None =>
      ((Node.x parent + 200)%float,
       (Node.y parent + float_of_int (child_count * 100))%float)
  end.

Definition grandparent_of (h : heap) (mindmap : SimpleMindMap)
    (parent : SimpleMindNode) : option SimpleMindNode :=
  if pystr_eqb (Node.parent_id parent) ROOT_PARENT then None
  else match get_node mindmap (Node.parent_id parent) with
       | Some lg => deref h lg
       | None => None
       end.

(** Tool [add_node] *)
Definition tool_add_node (h : heap) (mindmap : SimpleMindMap)
    (parent_id text : string) (notes : option string) : outcome :=
  let notes := match notes with Some s => s | None => "" end in
  match get_node mindmap (Some parent_id) with
  | None => Reply (ParentNotFound parent_id)
  | Some lp =>
      match deref h lp with
      | None => Reply (ParentNotFound parent_id)
      | Some parent =>
          match generate_id mindmap with
          | Raise e => Reply (Error e)
          | Ok new_id =>
              let grandparent := grandparent_of h mindmap parent in
              let (new_x, new_y) := new_position grandparent parent in
              let new_node :=
                Node.init (Some new_id) text (Some parent_id) new_x new_y notes
                          (String.append "GENERATED_" new_id) in
              let (h1, l) := alloc h new_node in
              let (h2, m2) := add_node h1 mindmap l in
              Written h2 m2 (Added text new_id parent_id)
          end
      end
  end.

Definition truthy_arg (v : option string) : bool :=
  match v with
  | Some s => truthy s
  | None => false
  end.

(** Tool [update_node]; an absent argument is [None]. *)
Definition tool_update_node (h : heap) (mindmap : SimpleMindMap)
    (node_id : string) (new_text new_notes : option string) : outcome :=
  if negb (truthy_arg new_text) && negb (truthy_arg new_notes) then
    Reply MustProvideTextOrNotes
  else
    match get_node mindmap (Some node_id) with
    | None => Reply (NodeNotFound node_id)
    | Some l =>
        let '(h1, changes1) :=
          match new_text with
          | Some t =>
              if truthy t
              then (mutate l (Node.set_text t) h, [TextChange t])
              else (h, [])
          | None => (h, [])
          end in
        let '(h2, changes2) :=
          match new_notes with
          | Some s =>
              (mutate l (Node.set_notes s) h1,
               changes1 ++ [NotesChange (String.length s)])
          | None => (h1, changes1)
          end in
        Written h2 mindmap (Updated node_id changes2)
    end.

(** [count_descendants(n)] *)
Fixpoint count_descendants (fuel : nat) (h : heap) (l : loc) : option Z :=
  match fuel with
  | O => None
  | S f =>
      match deref h l with
      | None => Some 0%Z
      | Some n =>
          fold_left
            (fun count child =>
               match count, count_descendants f h child with
               | Some c, Some d => Some (c + d)%Z
               | _, _ => None
               end)
            (Node.children n) (Some 1%Z)
      end
  end.

(** [remove_node_and_children(n)], on the dictionary [mindmap.nodes]. *)
Fixpoint remove_node_and_children (fuel : nat) (h : heap) (l : loc)
    (nodes : dict loc) : option (dict loc) :=
  match fuel with
  | O => None
  | S f =>
      match deref h l with
      | None => Some nodes
      | Some n =>
          match
            fold_left
              (fun acc child =>
                 match acc with
                 | Some d => remove_node_and_children f h child d
                 | None => None
                 end)
              (Node.children n) (Some nodes)
          with
          | None => None
          | Some d =>
              if dict_mem (Node.id n) d then Some (dict_del (Node.id n) d)
              else Some d
          end
      end
  end.

Definition has_id (h : heap) (node_id : pystr) (l : loc) : bool :=
  match deref h l with
  | Some c => pystr_eqb (Node.id c) node_id
  | None => false
  end.

(** Tool [delete_node]; [None] when a recursion does not end within
    [fuel] levels. *)
Definition tool_delete_node (fuel : nat) (h : heap) (mindmap : SimpleMindMap)
    (node_id : string) : option outcome :=
  match get_node mindmap (Some node_id) with
  | None => Some (Reply (NodeNotFound node_id))
  | Some l =>
      match deref h l with
      | None => Some (Reply (NodeNotFound node_id))
      | Some node =>
          if pystr_eqb (Node.parent_id node) ROOT_PARENT then
            Some (Reply CannotDeleteRoot)
          else
            match count_descendants fuel h l with
            | None => None
            | Some deleted_count =>
                let h1 :=
                  match get_node mindmap (Node.parent_id node) with
                  | Some lp =>
                      mutate lp
                        (fun p =>
                           Node.set_children
                             (filter (fun c => negb (has_id h (Some node_id) c))
                                     (Node.children p)) p) h
                  | None => h
                  end in
                match remove_node_and_children fuel h1 l (Map.nodes mindmap) with
                | None => None
                | Some nodes' =>
                    Some (Written h1 (Map.set_nodes nodes' mindmap)
                            (Deleted (Node.text node) (deleted_count - 1)))
                end
            end
      end
  end.

(** The [while current:] loop of tool [get_node_path]. *)
Fixpoint path_loop (fuel : nat) (h : heap) (mindmap : SimpleMindMap)
    (current : option loc) (path : list (pystr * string))
    : option (list (pystr * string)) :=
  match current with
  | None => Some path
  | Some l =>
      match fuel with
      | O => None
      | S f =>
          match deref h l with
          | None => Some path
          | Some node =>
              let path' := (Node.id node, Node.text node) :: path in
              if pystr_eqb (Node.parent_id node) ROOT_PARENT then Some path'
              else path_loop f h mindmap
                     (get_node mindmap (Node.parent_id node)) path'
          end
      end
  end.

(** Tool [get_node_path]; [None] when the loop has not ended after [fuel]
    iterations. *)
Definition tool_get_node_path (fuel : nat) (h : heap) (mindmap : SimpleMindMap)
    (node_id : string) : option Response :=
  match get_node mindmap (Some node_id) with
  | None => Some (NodeNotFound node_id)
  | Some l =>
      match path_loop fuel h mindmap (Some l) [] with
      | None => None
      | Some path => Some (NodePath node_id path)
      end
  end.

(** ** The editing tools on files

    A call of [handle_call_tool] for one of the tools above: the file at
    [filepath] is the archive [a]; the result is the reply and, when
    [write_mindmap] was reached and returned, the archive written at
    [output_path].  An exception raised on the way is answered by the
    [except Exception] clause, and nothing is written. *)

Inductive Call : Type :=
| AddNodeCall (parent_id text : string) (notes : option string)
| UpdateNodeCall (node_id : string) (text notes : option string)
| DeleteNodeCall (node_id : string)
| GetNodePathCall (node_id : string).

Section Handler.
Variable py_float : string -> result float.
Variable format_2f : float -> string.
Variable path_stem : string -> string.

(** From the outcome of a tool to the end of its branch. *)
Definition save (fuel : nat) (o : outcome) : option (Response * option Archive) :=
  match o with
  | Reply r => Some (r, None)
  | Written h mindmap r =>
      match write format_2f fuel h mindmap with
      | None => None
      | Some (Raise e) => Some (Error e, None)
      | Some (Ok a') => Some (r, Some a')
      end
  end.

Definition handle_call_tool (fuel : nat) (a : Archive) (c : Call)
    : option (Response * option Archive) :=
  match c with
  | AddNodeCall parent_id text notes =>
      match read py_float path_stem a with
      | Raise e => Some (Error e, None)
      | Ok (h, mindmap) => save fuel (tool_add_node h mindmap parent_id text notes)
      end
  | UpdateNodeCall node_id new_text new_notes =>
      if negb (truthy_arg new_text) && negb (truthy_arg new_notes) then
        Some (MustProvideTextOrNotes, None)
      else
        match read py_float path_stem a with
        | Raise e => Some (Error e, None)
        | Ok (h, mindmap) =>
            save fuel (tool_update_node h mindmap node_id new_text new_notes)
        end
  | DeleteNodeCall node_id =>
      match read py_float path_stem a with
      | Raise e => Some (Error e, None)
      | Ok (h, mindmap) =>
          match tool_delete_node fuel h mindmap node_id with
          | None => None
          | Some o => save fuel o
          end
      end
  | GetNodePathCall node_id =>
      match read py_float path_stem a with
      | Raise e => Some (Error e, None)
      | Ok (h, mindmap) =>
          match tool_get_node_path fuel h mindmap node_id with
          | None => None
          | Some r => Some (r, None)
          end
      end
  end.

(** A session: each call reads the file the previous one left (the
    [output_path] of a call defaults to its [filepath]). *)
Fixpoint handle_calls (fuel : nat) (a : Archive) (cs : list Call)
    : option Archive :=
  match cs with
  | [] => Some a
  | c :: rest =>
      match handle_call_tool fuel a c with
      | None => None
      | Some (_, Some a') => handle_calls fuel a' rest
      | Some (_, None) => handle_calls fuel a rest
      end
  end.
End Handler.

(** * Properties *)

Unset Implicit Arguments.

(** ** The store and the dictionaries *)

Lemma deref_mutate (l l' : loc) (f : SimpleMindNode -> SimpleMindNode) (h : heap) :
  deref (mutate l f h) l' =
  match deref h l' with
  | Some n => Some (if Nat.eqb l l' then f n else n)
  | None => None
  end.
Proof.
  unfold deref. revert l l'.
  induction h as [|n h IH]; intros l l'.
  - destruct l, l'; reflexivity.
  - destruct l, l'; simpl; try reflexivity.
    + destruct (nth_error h l'); reflexivity.
    + apply IH.
Qed.

Lemma deref_mutate_eq (l : loc) f (h : heap) n :
  deref h l = Some n -> deref (mutate l f h) l = Some (f n).
Proof. intros H. rewrite deref_mutate, H, Nat.eqb_refl. reflexivity. Qed.

Lemma deref_mutate_ne (l l' : loc) f (h : heap) :
  l <> l' -> deref (mutate l f h) l' = deref h l'.
Proof.
  intros H. rewrite deref_mutate.
  destruct (deref h l'); [|reflexivity].
  apply Nat.eqb_neq in H. rewrite H. reflexivity.
Qed.

Lemma length_mutate (l : loc) f (h : heap) : length (mutate l f h) = length h.
Proof.
  revert l. induction h as [|n h IH]; intros [|l]; simpl; auto.
Qed.

Lemma deref_alloc_old (h : heap) (n : SimpleMindNode) (l : loc) :
  l < length h -> deref (fst (alloc h n)) l = deref h l.
Proof. intros H. unfold deref, alloc; simpl. apply nth_error_app1, H. Qed.

Lemma deref_alloc_new (h : heap) (n : SimpleMindNode) :
  deref (fst (alloc h n)) (snd (alloc h n)) = Some n.
Proof.
  unfold deref, alloc; simpl.
  rewrite nth_error_app2, Nat.sub_diag by lia. reflexivity.
Qed.

Lemma deref_lt (h : heap) (l : loc) n : deref h l = Some n -> l < length h.
Proof. intros H. apply nth_error_Some. unfold deref in H. congruence. Qed.

Lemma deref_ge (h : heap) (l : loc) : length h <= l -> deref h l = None.
Proof. apply nth_error_None. Qed.

Section DictFacts.
Variable V : Type.
Implicit Types (d : dict V) (k : pystr) (v : V).

Lemma dict_get_set_eq k v d : dict_get k (dict_set k v d) = Some v.
Proof.
  induction d as [|[k' v'] d IH]; simpl.
  - rewrite pystr_eqb_refl. reflexivity.
  - destruct (pystr_eqb k k') eqn:E; simpl; rewrite E; auto.
Qed.

Lemma dict_get_set_ne k k' v d :
  k <> k' -> dict_get k' (dict_set k v d) = dict_get k' d.
Proof.
  intros Hne. induction d as [|[k2 v2] d IH]; simpl.
  - apply not_eq_sym, pystr_eqb_neq in Hne. rewrite Hne. reflexivity.
  - destruct (pystr_eqb k k2) eqn:E; simpl.
    + apply pystr_eqb_eq in E. subst k2.
      apply not_eq_sym, pystr_eqb_neq in Hne. rewrite Hne. reflexivity.
    + rewrite IH. reflexivity.
Qed.

Lemma dict_get_In k v d : dict_get k d = Some v -> In (k, v) d.
Proof.
  induction d as [|[k' v'] d IH]; simpl; [discriminate|].
  destruct (pystr_eqb_spec k k').
  - intros [= ->]. subst. auto.
  - auto.
Qed.

Lemma dict_get_None k d : dict_get k d = None <-> ~ In k (keys d).
Proof.
  induction d as [|[k' v'] d IH]; simpl.
  - tauto.
  - destruct (pystr_eqb_spec k k').
    + split; [discriminate|]. intros H. exfalso. apply H. auto.
    + rewrite IH. intuition congruence.
Qed.

Lemma dict_get_Some_key k v d : dict_get k d = Some v -> In k (keys d).
Proof.
  intros H. apply dict_get_In in H.
  apply (in_map fst) in H. exact H.
Qed.

Lemma In_keys_get k d : In k (keys d) -> exists v, dict_get k d = Some v.
Proof.
  intros H. destruct (dict_get k d) eqn:E; eauto.
  apply dict_get_None in E. tauto.
Qed.

Lemma dict_set_fresh k v d :
  ~ In k (keys d) -> dict_set k v d = d ++ [(k, v)].
Proof.
  induction d as [|[k' v'] d IH]; simpl; intros H; [reflexivity|].
  destruct (pystr_eqb_spec k k'); [exfalso; apply H; left; congruence|].
  rewrite IH by tauto. reflexivity.
Qed.

Lemma keys_dict_set_mem k v d : In k (keys d) -> keys (dict_set k v d) = keys d.
Proof.
  induction d as [|[k' v'] d IH]; simpl; intros H; [tauto|].
  destruct (pystr_eqb_spec k k'); simpl; [reflexivity|].
  f_equal. apply IH. destruct H; congruence.
Qed.
End DictFacts.

(** ** C10: add_node does not reject a duplicate id *)

Lemma add_node_keeps_children (h : heap) (m : SimpleMindMap) (l lp c : loc) p :
  deref h lp = Some p -> In c (Node.children p) ->
  exists p', deref (fst (add_node h m l)) lp = Some p'
             /\ In c (Node.children p')
             /\ Node.id p' = Node.id p.
Proof.
  intros Hp Hc. unfold add_node.
  destruct (deref h l) as [node|]; simpl; [|eauto].
  destruct (pystr_eqb (Node.parent_id node) ROOT_PARENT); simpl; [eauto|].
  destruct (dict_get _ _) as [lq|]; simpl; [|eauto].
  rewrite deref_mutate, Hp.
  destruct (Nat.eqb lq lp); eexists; split; try reflexivity; simpl; auto.
  split; [apply in_or_app; auto | reflexivity].
Qed.

Lemma add_node_get_new (h : heap) (m : SimpleMindMap) (l : loc) node :
  deref h l = Some node ->
  get_node (snd (add_node h m l)) (Node.id node) = Some l.
Proof.
  intros Hn. unfold add_node, get_node. rewrite Hn.
  destruct (pystr_eqb (Node.parent_id node) ROOT_PARENT); simpl.
  - apply dict_get_set_eq.
  - destruct (dict_get (Node.parent_id node) _); simpl; apply dict_get_set_eq.
Qed.

(** C10.  When the mapping sends id [X] to an object [l_old] that is in the
    children of [P], adding another object [l_new] with the same id
    returns normally, makes the mapping send [X] to [l_new], and leaves
    [l_old] in the children of [P]: afterwards [P] has a child with id [X]
    that is not the object the mapping holds for [X]. *)
Theorem add_node_duplicate_id_inconsistent
    (h : heap) (m : SimpleMindMap) (X : pystr) (l_old l_new lp : loc)
    (old new p : SimpleMindNode) :
  get_node m X = Some l_old ->
  deref h l_old = Some old -> Node.id old = X ->
  deref h lp = Some p -> In l_old (Node.children p) ->
  deref h l_new = Some new -> Node.id new = X ->
  l_new <> l_old ->
  let h' := fst (add_node h m l_new) in
  let m' := snd (add_node h m l_new) in
  get_node m' X = Some l_new
  /\ (exists p', deref h' lp = Some p' /\ In l_old (Node.children p'))
  /\ (exists old', deref h' l_old = Some old' /\ Node.id old' = X)
  /\ get_node m' X <> Some l_old.
Proof.
  intros Hget Hold Hidold Hp Hin Hnew Hidnew Hne h' m'.
  assert (Hm : get_node m' X = Some l_new).
  { subst m' X. rewrite <- Hidnew. apply add_node_get_new, Hnew. }
  split; [exact Hm|]. split; [|split].
  - destruct (@add_node_keeps_children h m l_new lp l_old p Hp Hin) as (p' & H1 & H2 & _).
    eauto.
  - subst h'. unfold add_node. rewrite Hnew.
    destruct (pystr_eqb (Node.parent_id new) ROOT_PARENT); simpl; [eauto|].
    destruct (dict_get _ _) as [lq|]; simpl; [|eauto].
    rewrite deref_mutate, Hold.
    destruct (Nat.eqb lq l_old); eexists; split; try reflexivity; auto.
  - rewrite Hm. congruence.
Qed.

(** ** C7: search_nodes *)

Lemma prefix_spec (a s : string) :
  String.prefix a s = true <-> exists b, s = String.append a b.
Proof.
  revert s. induction a as [|c a IH]; intros s; simpl.
  - split; [intros _; exists s; reflexivity | destruct s; reflexivity].
  - destruct s as [|c' s]; simpl.
    + split; [discriminate | intros [b Hb]; discriminate].
    + destruct (ascii_dec c c') as [->|Hne].
      * rewrite IH. split; intros [b Hb]; exists b; congruence.
      * split; [discriminate | intros [b Hb]; congruence].
Qed.

Lemma str_in_unfold (sub s : string) :
  str_in sub s =
  if String.prefix sub s then true
  else match s with
       | EmptyString => false
       | String _ r => str_in sub r
       end.
Proof. destruct s; reflexivity. Qed.

Lemma str_in_spec (sub s : string) :
  str_in sub s = true <->
  exists a b, s = String.append a (String.append sub b).
Proof.
  induction s as [|c s IH]; rewrite str_in_unfold.
  - destruct (String.prefix sub "") eqn:E.
    + split; [intros _|reflexivity].
      apply prefix_spec in E. destruct E as [b Hb]. exists "", b. exact Hb.
    + split; [discriminate|]. intros (a & b & H).
      destruct a; simpl in H; [|discriminate].
      assert (String.prefix sub "" = true) by (apply prefix_spec; eauto).
      congruence.
  - destruct (String.prefix sub (String c s)) eqn:E.
    + split; [intros _|reflexivity].
      apply prefix_spec in E. destruct E as [b Hb]. exists "", b. exact Hb.
    + rewrite IH. split.
      * intros (a & b & H). exists (String c a), b. simpl. congruence.
      * intros (a & b & H). destruct a as [|c' a]; simpl in H.
        -- assert (String.prefix sub (String c s) = true)
             by (apply prefix_spec; eauto).
           congruence.
        -- exists a, b. congruence.
Qed.

(** The words of the specification: [q] occurs in [s], case ignored. *)
Definition occurs_ci (q s : string) : Prop :=
  exists a b, lower s = String.append a (String.append (lower q) b).

Definition matches (q : string) (search_notes : bool) (n : SimpleMindNode) : Prop :=
  occurs_ci q (Node.text n) \/ (search_notes = true /\ occurs_ci q (Node.notes n)).

Lemma search_hit_spec (q : string) (sn : bool) (n : SimpleMindNode) :
  search_hit (lower q) sn n = true <-> matches q sn n.
Proof.
  unfold search_hit, matches, occurs_ci.
  rewrite <- !str_in_spec.
  destruct (str_in (lower q) (lower (Node.text n))); [tauto|].
  destruct sn; simpl.
  - destruct (str_in (lower q) (lower (Node.notes n))); intuition congruence.
  - intuition congruence.
Qed.

Definition hit_at (h : heap) (q : string) (sn : bool) (l : loc) : bool :=
  match deref h l with
  | Some node => search_hit (lower q) sn node
  | None => false
  end.

Lemma search_loop_filter (h : heap) (q : string) (sn : bool) (vals acc : list loc) :
  search_loop h (lower q) sn vals acc = acc ++ filter (hit_at h q sn) vals.
Proof.
  revert acc. induction vals as [|l vals IH]; intros acc; simpl.
  - rewrite app_nil_r. reflexivity.
  - unfold hit_at at 1. destruct (deref h l) as [node|].
    + destruct (search_hit (lower q) sn node).
      * rewrite IH, <- app_assoc. reflexivity.
      * apply IH.
    + apply IH.
Qed.

Lemma str_in_empty (s : string) : str_in "" s = true.
Proof. destruct s; reflexivity. Qed.

Lemma count_occ_filter_true (f : loc -> bool) (l : list loc) (a : loc) :
  f a = true -> count_occ Nat.eq_dec (filter f l) a = count_occ Nat.eq_dec l a.
Proof.
  intros Ha. induction l as [|b l IH]; simpl; [reflexivity|].
  destruct (Nat.eq_dec b a) as [->|Hne].
  - rewrite Ha. simpl. destruct (Nat.eq_dec a a); [|tauto]. rewrite IH. reflexivity.
  - destruct (f b); simpl; [|exact IH].
    destruct (Nat.eq_dec b a); [tauto|exact IH].
Qed.


(** [add_node] changes no field of any object but [children]. *)
Lemma add_node_deref (h : heap) (m : SimpleMindMap) (l l' : loc) n :
  deref h l' = Some n ->
  exists cs, deref (fst (add_node h m l)) l' = Some (Node.set_children cs n).
Proof.
  intros Hn. unfold add_node.
  assert (Hsame : exists cs, deref h l' = Some (Node.set_children cs n)).
  { exists (Node.children n). rewrite Hn. destruct n; reflexivity. }
  destruct (deref h l) as [node|]; simpl; [|exact Hsame].
  destruct (pystr_eqb (Node.parent_id node) ROOT_PARENT); simpl; [exact Hsame|].
  destruct (dict_get _ _) as [lq|]; simpl; [|exact Hsame].
  rewrite deref_mutate, Hn.
  destruct (Nat.eqb lq l'); [|exists (Node.children n); destruct n; reflexivity].
  eexists. reflexivity.
Qed.

(** ** C8: placement of a new node *)

Definition position (n : SimpleMindNode) : float * float := (Node.x n, Node.y n).

Lemma new_position_pure (gp gp' : option SimpleMindNode)
    (parent parent' : SimpleMindNode) :
  option_map position gp = option_map position gp' ->
  position parent = position parent' ->
  length (Node.children parent) = length (Node.children parent') ->
  new_position gp parent = new_position gp' parent'.
Proof.
  unfold position. intros Hg Hp Hc.
  injection Hp as Hx Hy.
  destruct gp as [g|], gp' as [g'|]; simpl in Hg; try discriminate.
  - injection Hg as Hgx Hgy. unfold new_position.
    rewrite Hx, Hy, Hgx, Hgy, Hc. reflexivity.
  - unfold new_position. rewrite Hx, Hy, Hc. reflexivity.
Qed.

Lemma tool_add_node_written (h : heap) (m : SimpleMindMap)
    (parent_id text : string) (notes : option string) (lp : loc)
    (parent : SimpleMindNode) (new_id : string) :
  get_node m (Some parent_id) = Some lp ->
  deref h lp = Some parent ->
  generate_id m = Ok new_id ->
  let pos := new_position (grandparent_of h m parent) parent in
  let new_node :=
    Node.init (Some new_id) text (Some parent_id) (fst pos) (snd pos)
      (match notes with Some s => s | None => "" end)
      (String.append "GENERATED_" new_id) in
  tool_add_node h m parent_id text notes =
  Written (fst (add_node (h ++ [new_node]) m (length h)))
          (snd (add_node (h ++ [new_node]) m (length h)))
          (Added text new_id parent_id).
Proof.
  intros Hg Hd Hid pos new_node. unfold tool_add_node.
  rewrite Hg, Hd, Hid. fold pos. destruct pos as [px py] eqn:E. simpl.
  subst new_node. simpl.
  destruct (add_node _ m (length h)). reflexivity.
Qed.


(** ** The error classes of the specification *)

(** Section 7 of the specification names classes of failures; the handler
    reports a failure it checks for by a message of its own, and any
    exception through its [except Exception] clause. *)
Inductive ErrorClass : Type :=
| NotFoundError
| InvalidOperationError
| CorruptTreeError
| Untyped (e : exn).

Definition error_class (r : Response) : option ErrorClass :=
  match r with
  | ParentNotFound _ | NodeNotFound _ => Some NotFoundError
  | MustProvideTextOrNotes | CannotDeleteRoot => Some InvalidOperationError
  | Error e => Some (Untyped e)
  | Added _ _ _ | Updated _ _ | Deleted _ _ | NodePath _ _ => None
  end.

(** ** Sample documents *)

Definition sample_root : SimpleMindNode :=
  Node.init (Some "0") "Root" ROOT_PARENT 0 0 "" "ROOT".

Definition sample_child (i p txt nts : string) (vx vy : float) : SimpleMindNode :=
  Node.init (Some i) txt (Some p) vx vy nts "".

(** [mindmap.add_node(SimpleMindNode(...))] for each node of the list. *)
Fixpoint build (ns : list SimpleMindNode) (h : heap) (m : SimpleMindMap)
    : heap * SimpleMindMap :=
  match ns with
  | [] => (h, m)
  | n :: r =>
      let (h1, l) := alloc h n in
      let (h2, m2) := add_node h1 m l in
      build r h2 m2
  end.

Definition build_map (ns : list SimpleMindNode) : heap * SimpleMindMap :=
  build ns [] (Map.init "Test Map").

(** The map of [test_search_nodes]. *)
Definition search_sample : heap * SimpleMindMap :=
  build_map
    [sample_root;
     sample_child "1" "0" "Python Code" "Python programming" 0 0;
     sample_child "2" "0" "JavaScript" "JS code" 0 0].

Example test_add_child_node :
  let (h, m) := build_map [sample_root; sample_child "1" "0" "Child" "" 100 0] in
  length (Map.nodes m) = 2
  /\ Map.root_node m = Some 0
  /\ option_map Node.children (deref h 0) = Some [1].
Proof. vm_compute. auto. Qed.

Example test_search_nodes :
  search_nodes (fst search_sample) (snd search_sample) "python" true = [1]
  /\ search_nodes (fst search_sample) (snd search_sample) "code" true = [1; 2].
Proof. vm_compute. auto. Qed.

(** ** C6: update_node *)

Lemma tool_update_node_no_field (h : heap) (m : SimpleMindMap) (node_id : string) :
  tool_update_node h m node_id None None = Reply MustProvideTextOrNotes.
Proof. reflexivity. Qed.

Lemma tool_update_node_absent (h : heap) (m : SimpleMindMap) (node_id : string)
    (new_text new_notes : option string) :
  truthy_arg new_text || truthy_arg new_notes = true ->
  get_node m (Some node_id) = None ->
  tool_update_node h m node_id new_text new_notes = Reply (NodeNotFound node_id).
Proof.
  intros Ht Hg. unfold tool_update_node. rewrite Hg.
  destruct (truthy_arg new_text), (truthy_arg new_notes);
    simpl in *; congruence.
Qed.

(** With a text given, an empty [notes] clears the notes (and the text is set). *)
Lemma tool_update_node_clears_notes_with_text (h : heap) (m : SimpleMindMap)
    (node_id t : string) (l : loc) :
  truthy t = true ->
  get_node m (Some node_id) = Some l ->
  tool_update_node h m node_id (Some t) (Some "") =
  Written (mutate l (Node.set_notes "") (mutate l (Node.set_text t) h)) m
          (Updated node_id [TextChange t; NotesChange 0]).
Proof.
  intros Ht Hg. unfold tool_update_node. simpl. rewrite Ht, Hg. reflexivity.
Qed.

Definition notes_sample : heap * SimpleMindMap :=
  build_map [sample_root; sample_child "1" "0" "Child" "old notes" 100 0].

(** C6 (the code departs from the claim).  A call that supplies only
    [notes], as the empty string, is answered "Must provide either text or
    notes to update" and writes nothing, for every document; in the sample
    document node "1" exists and keeps its notes "old notes". *)
Theorem update_node_empty_notes_alone_rejected :
  (forall h m node_id,
      tool_update_node h m node_id None (Some "") = Reply MustProvideTextOrNotes)
  /\ get_node (snd notes_sample) (Some "1") = Some 1
  /\ option_map Node.notes (deref (fst notes_sample) 1) = Some "old notes"
  /\ tool_update_node (fst notes_sample) (snd notes_sample) "1" None (Some "")
     = Reply MustProvideTextOrNotes.
Proof. repeat split. Qed.

(** ** C9: allocation of the new id *)

Lemma py_int_raises (k : pystr) (e : exn) :
  py_int k = Raise e -> e = ValueError \/ e = TypeError.
Proof.
  unfold py_int. destruct k as [s|]; [|intros [= <-]; auto].
  assert (B : forall t e', match int_digits t 0 false with
                           | Some z => Ok z
                           | None => Raise ValueError
                           end = Raise e' -> e' = ValueError).
  { intros t e'. destruct (int_digits t 0 false); congruence. }
  destruct (strip s) as [|c r]; [intros H; left; eapply B, H|].
  destruct (Ascii.eqb_spec c "-") as [->|].
  - unfold bind. destruct (int_digits r 0 false); [discriminate|].
    intros [= <-]. auto.
  - destruct (Ascii.eqb_spec c "+") as [->|].
    + intros H. left. eapply B, H.
    + intros H. left. apply (B (String c r)).
      destruct c as [[] [] [] [] [] [] [] []]; try exact H; congruence.
Qed.

Lemma mapM_Ok {A B : Type} (f : A -> result B) (l : list A) (bs : list B) :
  mapM f l = Ok bs -> Forall2 (fun a b => f a = Ok b) l bs.
Proof.
  revert bs. induction l as [|a l IH]; simpl; intros bs.
  - intros [= <-]. constructor.
  - destruct (f a) eqn:Ea; simpl; [|discriminate].
    destruct (mapM f l); simpl; [|discriminate].
    intros [= <-]. constructor; auto.
Qed.

Lemma mapM_Raise {A B : Type} (f : A -> result B) (l : list A) :
  (exists a e, In a l /\ f a = Raise e) ->
  exists a e, In a l /\ f a = Raise e /\ mapM f l = Raise e.
Proof.
  induction l as [|a l IH]; simpl.
  - intros (? & ? & [] & _).
  - intros (a' & e & Hin & Hf).
    destruct (f a) eqn:Ea; simpl.
    + destruct IH as (a2 & e2 & H1 & H2 & H3).
      { destruct Hin as [->|Hin]; [congruence|eauto]. }
      exists a2, e2. rewrite H3. auto.
    + exists a, e0. auto.
Qed.

Lemma Forall2_In_l {A B : Type} (R : A -> B -> Prop) (l : list A) (l' : list B) :
  Forall2 R l l' -> forall a, In a l -> exists b, In b l' /\ R a b.
Proof.
  induction 1 as [|a0 b0 l l' HR HF IH]; intros a; simpl; [tauto|].
  intros [->|Hin]; [eauto|]. destruct (IH a Hin) as (b & ? & ?). eauto.
Qed.

Lemma Forall2_In_r {A B : Type} (R : A -> B -> Prop) (l : list A) (l' : list B) :
  Forall2 R l l' -> forall b, In b l' -> exists a, In a l /\ R a b.
Proof.
  induction 1 as [|a0 b0 l l' HR HF IH]; intros b; simpl; [tauto|].
  intros [->|Hin]; [eauto|]. destruct (IH b Hin) as (a & ? & ?). eauto.
Qed.

Lemma fold_max_spec (r : list Z) (z : Z) :
  In (fold_left Z.max r z) (z :: r)
  /\ (forall a, In a (z :: r) -> (a <= fold_left Z.max r z)%Z).
Proof.
  revert z. induction r as [|b r IH]; intros z; simpl.
  - split; [auto | intros a [->|[]]; lia].
  - destruct (IH (Z.max z b)) as [Hin Hle]. split.
    + destruct Hin as [Hin|Hin]; [|auto].
      rewrite <- Hin. destruct (Z.max_spec z b) as [[_ ->]|[_ ->]]; auto.
    + intros a Ha. assert (Z.max z b <= fold_left Z.max r (Z.max z b))%Z
        by (apply Hle; simpl; auto).
      destruct Ha as [->|[->|Ha]]; [lia|lia|]. apply Hle. simpl. auto.
Qed.

(** [top] is the largest of the ids of the mapping, read as integers. *)
Definition max_int_id (m : SimpleMindMap) (top : Z) : Prop :=
  (exists k, In k (keys (Map.nodes m)) /\ py_int k = Ok top)
  /\ (forall k, In k (keys (Map.nodes m)) ->
        exists z, py_int k = Ok z /\ (z <= top)%Z).

Lemma generate_id_Ok (m : SimpleMindMap) (new_id : string) :
  generate_id m = Ok new_id ->
  exists top, max_int_id m top /\ new_id = py_str (top + 1).
Proof.
  unfold generate_id.
  destruct (mapM py_int (keys (Map.nodes m))) as [zs|] eqn:E; simpl;
    [|discriminate].
  apply mapM_Ok in E.
  destruct zs as [|z r]; simpl; [discriminate|].
  intros [= <-]. exists (fold_left Z.max r z). split; [|reflexivity].
  destruct (fold_max_spec r z) as [Hin Hle]. split.
  - destruct (Forall2_In_r _ _ _ E _ Hin) as (k & Hk & Hf); eauto.
  - intros k Hk.
    destruct (Forall2_In_l _ _ _ E _ Hk) as (z' & Hz & Hf); eauto.
Qed.

Lemma mapM_total {A B : Type} (f : A -> result B) (l : list A) :
  (forall a, In a l -> exists b, f a = Ok b) -> exists bs, mapM f l = Ok bs.
Proof.
  induction l as [|a l IH]; simpl; intros H; [eauto|].
  destruct (H a) as [b Hb]; [auto|]. destruct IH as [bs Hbs]; [auto|].
  rewrite Hb, Hbs. simpl. eauto.
Qed.

Lemma max_int_id_unique (m : SimpleMindMap) (t1 t2 : Z) :
  max_int_id m t1 -> max_int_id m t2 -> t1 = t2.
Proof.
  intros [(k1 & Hk1 & E1) H1] [(k2 & Hk2 & E2) H2].
  destruct (H1 k2 Hk2) as (z2 & Ez2 & Hz2).
  destruct (H2 k1 Hk1) as (z1 & Ez1 & Hz1).
  assert (z1 = t1) by congruence. assert (z2 = t2) by congruence. lia.
Qed.

Lemma generate_id_max (m : SimpleMindMap) (top : Z) :
  max_int_id m top -> generate_id m = Ok (py_str (top + 1)).
Proof.
  intros Hmax. pose proof Hmax as [(k & Hk & Ek) Hall].
  destruct (mapM_total py_int (keys (Map.nodes m))) as [zs Hzs].
  { intros a Ha. destruct (Hall a Ha) as (z & Hz & _). eauto. }
  destruct (generate_id m) as [new_id|e] eqn:E.
  - destruct (generate_id_Ok m _ E) as (top' & Hmax' & ->).
    rewrite (max_int_id_unique m _ _ Hmax Hmax'). reflexivity.
  - exfalso. unfold generate_id in E. rewrite Hzs in E. simpl in E.
    destruct zs as [|z r]; [|discriminate].
    destruct (keys (Map.nodes m)) as [|k0 ks]; [destruct Hk|].
    simpl in Hzs. destruct (py_int k0); simpl in Hzs; [|discriminate].
    destruct (mapM py_int ks); discriminate.
Qed.

Lemma generate_id_Raise (m : SimpleMindMap) :
  (exists k, In k (keys (Map.nodes m)) /\ forall z, py_int k <> Ok z) ->
  exists e, generate_id m = Raise e /\ (e = ValueError \/ e = TypeError).
Proof.
  intros (k & Hk & Hbad).
  destruct (mapM_Raise py_int (keys (Map.nodes m))) as (a & e & Ha & He & HM).
  { destruct (py_int k) as [z|e] eqn:E; [destruct (Hbad z); reflexivity|].
    eauto. }
  exists e. split; [|eapply py_int_raises, He].
  unfold generate_id. rewrite HM. reflexivity.
Qed.

Definition opaque_id_sample : heap * SimpleMindMap :=
  build_map [sample_root; sample_child "abc" "0" "Opaque" "" 100 0].




(** ** C2: reading a child record that precedes its parent *)

Definition plain_topic (i p txt : string) : Element :=
  element "topic" [("id", i); ("parent", p); ("text", txt)] None [].

Definition payload_of_topics (topics : list Element) : Element :=
  element "simplemind-mindmaps" [("doc-version", "3")] None
    [element "mindmap" [] None
       [element "meta" [] None [element "title" [("text", "Forward")] None []];
        element "topics" [] None topics;
        element "node-groups" [] None []]].

(** The record of the child "1" comes before the record of its parent "0". *)
Definition forward_reference_archive : Archive :=
  mkArchive
    (Some (payload_of_topics
             [plain_topic "1" "0" "Child"; plain_topic "0" "-1" "Root"]))
    [].

(** C2 (the code departs from the claim).  [read] makes one pass over the
    topic records, calling [add_node] on each: a child whose record comes
    before its parent's is entered in the mapping but is not appended to
    the children of its parent, which stay empty. *)
Theorem read_forward_reference_not_linked
    (py_float : string -> result float) (path_stem : string -> string) :
  py_float "0" = Ok 0%float ->
  exists h m root child,
    read py_float path_stem forward_reference_archive = Ok (h, m)
    /\ get_node m (Some "1") = Some 0
    /\ get_node m (Some "0") = Some 1
    /\ deref h 0 = Some child /\ Node.parent_id child = Some "0"
    /\ deref h 1 = Some root /\ Node.id root = Some "0"
    /\ Node.children root = [].
Proof.
  intros H0.
  unfold read, forward_reference_archive. simpl payload.
  unfold read_images. simpl fold_left.
  assert (Hm : read_meta py_float
                 (payload_of_topics
                    [plain_topic "1" "0" "Child"; plain_topic "0" "-1" "Root"])
                 (Map.init "New Mind Map")
               = Ok (Map.set_title "Forward" (Map.init "New Mind Map")))
    by reflexivity.
  rewrite Hm. simpl bind.
  change (findall_desc _ "topic")
    with [plain_topic "1" "0" "Child"; plain_topic "0" "-1" "Root"].
  unfold read_topics, read_topic.
  change (el_get_default (plain_topic "1" "0" "Child") "x" "0") with "0".
  change (el_get_default (plain_topic "1" "0" "Child") "y" "0") with "0".
  change (el_get_default (plain_topic "0" "-1" "Root") "x" "0") with "0".
  change (el_get_default (plain_topic "0" "-1" "Root") "y" "0") with "0".
  rewrite H0. simpl.
  do 4 eexists. split; [reflexivity|]. repeat split.
Qed.

Lemma read_forward_reference_not_linked_witness :
  exists h m,
    read (fun _ => Ok 0%float) (fun s => s) forward_reference_archive = Ok (h, m)
    /\ option_map Node.children (deref h 1) = Some [].
Proof.
  destruct (@read_forward_reference_not_linked (fun _ => Ok 0%float) (fun s => s)
              eq_refl)
    as (h & m & root & child & E & _ & _ & _ & _ & Hr & _ & Hc).
  exists h, m. split; [exact E|]. rewrite Hr. simpl. rewrite Hc. reflexivity.
Defined.

Lemma add_node_duplicate_id_inconsistent_witness :
  let h := fst notes_sample ++ [sample_child "1" "0" "Twin" "" 0 0] in
  let m := snd notes_sample in
  get_node (snd (add_node h m 2)) (Some "1") = Some 2
  /\ exists p', deref (fst (add_node h m 2)) 0 = Some p'
                /\ In 1 (Node.children p').
Proof.
  intros h m.
  destruct (@add_node_duplicate_id_inconsistent h m (Some "1") 1 2 0
              (sample_child "1" "0" "Child" "old notes" 100 0)
              (sample_child "1" "0" "Twin" "" 0 0)
              (Node.set_children [1] sample_root)
              eq_refl eq_refl eq_refl eq_refl (or_introl eq_refl)
              eq_refl eq_refl ltac:(discriminate))
    as (H1 & H2 & _).
  split; [exact H1 | exact H2].
Defined.

(** ** C3: get_node_path *)

(** [walk h m l ls]: from the object [l], following [parent_id] through the
    mapping visits the objects [ls] and stops, at a node whose parent is the
    root marker or is not in the mapping. *)
Inductive walk (h : heap) (m : SimpleMindMap) : loc -> list loc -> Prop :=
| walk_root l n :
    deref h l = Some n ->
    Node.parent_id n = ROOT_PARENT ->
    walk h m l [l]
| walk_dangling l n :
    deref h l = Some n ->
    Node.parent_id n <> ROOT_PARENT ->
    get_node m (Node.parent_id n) = None ->
    walk h m l [l]
| walk_step l n lp ls :
    deref h l = Some n ->
    Node.parent_id n <> ROOT_PARENT ->
    get_node m (Node.parent_id n) = Some lp ->
    walk h m lp ls ->
    walk h m l (l :: ls).

Definition path_entry (h : heap) (l : loc) : pystr * string :=
  match deref h l with
  | Some n => (Node.id n, Node.text n)
  | None => (None, "")
  end.

Lemma walk_det h m l ls ls' : walk h m l ls -> walk h m l ls' -> ls = ls'.
Proof.
  intros W. revert ls'.
  induction W as [l n Hd Hp | l n Hd Hp Hg | l n lp ls Hd Hp Hg W IH];
    intros ls' W'; inversion W'; subst; try congruence.
  f_equal. apply IH. congruence.
Qed.

Lemma walk_head h m l ls : walk h m l ls -> exists t, ls = l :: t.
Proof. destruct 1; eauto. Qed.

Lemma walk_tail_walk h m l ls l' :
  walk h m l ls -> In l' ls ->
  exists ls', walk h m l' ls' /\ length ls' <= length ls
              /\ (l' <> l -> length ls' < length ls).
Proof.
  induction 1 as [l n Hd Hp | l n Hd Hp Hg | l n lp ls Hd Hp Hg W IH];
    simpl; intros Hin.
  - destruct Hin as [<-|[]]. exists [l]. repeat split; simpl; try lia; try tauto.
    eapply walk_root; eauto.
  - destruct Hin as [<-|[]]. exists [l]. repeat split; simpl; try lia; try tauto.
    eapply walk_dangling; eauto.
  - destruct (Nat.eq_dec l l') as [<-|Hne].
    + exists (l :: ls). split; [eapply walk_step; eauto|]. simpl. split; [lia|tauto].
    + destruct Hin as [E|Hin]; [tauto|].
      destruct (IH Hin) as (ls' & W' & Hle & _).
      exists ls'. split; [exact W'|]. simpl. split; intros; lia.
Qed.

Lemma walk_NoDup h m l ls : walk h m l ls -> NoDup ls.
Proof.
  induction 1 as [l n Hd Hp | l n Hd Hp Hg | l n lp ls Hd Hp Hg W IH].
  - repeat constructor. simpl. tauto.
  - repeat constructor. simpl. tauto.
  - constructor; [|exact IH]. intros Hin.
    destruct (@walk_tail_walk h m lp ls l W Hin) as (ls' & W' & Hle & _).
    assert (Hs : walk h m l (l :: ls)) by (eapply walk_step; eauto).
    rewrite (@walk_det h m l ls' (l :: ls) W' Hs) in Hle. simpl in Hle. lia.
Qed.

Lemma get_node_In_values (m : SimpleMindMap) k l :
  get_node m k = Some l -> In l (values (Map.nodes m)).
Proof.
  intros H. apply dict_get_In in H. apply (in_map snd) in H. exact H.
Qed.

Lemma walk_incl h m l ls :
  In l (values (Map.nodes m)) -> walk h m l ls -> incl ls (values (Map.nodes m)).
Proof.
  intros Hl W. revert Hl.
  induction W as [l n Hd Hp | l n Hd Hp Hg | l n lp ls Hd Hp Hg W IH];
    intros Hl x; simpl.
  - intros [<-|[]]. exact Hl.
  - intros [<-|[]]. exact Hl.
  - intros [<-|Hx]; [exact Hl|].
    apply IH; [eapply get_node_In_values; eauto | exact Hx].
Qed.

Lemma walk_length h m l ls :
  In l (values (Map.nodes m)) -> walk h m l ls ->
  length ls <= length (Map.nodes m).
Proof.
  intros Hl W.
  replace (length (Map.nodes m)) with (length (values (Map.nodes m)))
    by apply length_map.
  apply NoDup_incl_length; [eapply walk_NoDup, W | eapply walk_incl; eauto].
Qed.

Lemma path_loop_walk h m l ls :
  walk h m l ls ->
  forall fuel acc, length ls <= fuel ->
    path_loop fuel h m (Some l) acc = Some (map (path_entry h) (rev ls) ++ acc).
Proof.
  induction 1 as [l n Hd Hp | l n Hd Hp Hg | l n lp ls Hd Hp Hg W IH];
    intros fuel acc Hf; simpl in Hf;
    (destruct fuel as [|f]; [lia|]); simpl; rewrite Hd.
  - rewrite Hp. simpl. unfold path_entry. rewrite Hd. reflexivity.
  - apply pystr_eqb_neq in Hp. rewrite Hp, Hg.
    destruct f; simpl; unfold path_entry; rewrite Hd; reflexivity.
  - pose proof Hp as Hp'. apply pystr_eqb_neq in Hp'. rewrite Hp', Hg.
    rewrite IH by lia. rewrite map_app, <- app_assoc. simpl.
    unfold path_entry at 3. rewrite Hd. reflexivity.
Qed.

Definition cyclic_sample : heap * SimpleMindMap :=
  build_map [sample_child "1" "2" "A" "" 0 0; sample_child "2" "1" "B" "" 0 0].

Definition dangling_sample : heap * SimpleMindMap :=
  build_map [sample_root; sample_child "1" "9" "Orphan" "" 0 0].

Lemma cyclic_path_loop_never_ends (fuel : nat) :
  forall acc,
    path_loop fuel (fst cyclic_sample) (snd cyclic_sample) (Some 0) acc = None
    /\ path_loop fuel (fst cyclic_sample) (snd cyclic_sample) (Some 1) acc = None.
Proof.
  induction fuel as [|f IH]; intros acc; [split; reflexivity|].
  split.
  - change (path_loop (S f) (fst cyclic_sample) (snd cyclic_sample) (Some 0) acc)
      with (path_loop f (fst cyclic_sample) (snd cyclic_sample) (Some 1)
              ((Some "1", "A") :: acc)).
    apply IH.
  - change (path_loop (S f) (fst cyclic_sample) (snd cyclic_sample) (Some 1) acc)
      with (path_loop f (fst cyclic_sample) (snd cyclic_sample) (Some 0)
              ((Some "2", "B") :: acc)).
    apply IH.
Qed.

Lemma tool_get_node_path_found (fuel : nat) (h : heap) (m : SimpleMindMap)
    (node_id : string) (l : loc) :
  get_node m (Some node_id) = Some l ->
  tool_get_node_path fuel h m node_id =
  match path_loop fuel h m (Some l) [] with
  | None => None
  | Some path => Some (NodePath node_id path)
  end.
Proof. intros Hg. unfold tool_get_node_path. rewrite Hg. reflexivity. Qed.

Lemma path_loop_None (fuel : nat) (h : heap) (m : SimpleMindMap)
    (acc : list (pystr * string)) :
  path_loop fuel h m None acc = Some acc.
Proof. destruct fuel; reflexivity. Qed.

(** C3, as stated, does not hold.  On a parent chain with a cycle the loop
    of [get_node_path] has not ended after any number of iterations, and no
    CorruptTreeError is produced; on a chain that reaches a parent id that
    is not in the mapping the tool replies with the path collected so far,
    which is no failure. *)
Lemma get_node_path_cycle_and_dangling :
  (forall fuel,
      tool_get_node_path fuel (fst cyclic_sample) (snd cyclic_sample) "1" = None)
  /\ (forall fuel,
        tool_get_node_path (S fuel) (fst dangling_sample) (snd dangling_sample) "1"
        = Some (NodePath "1" [(Some "1", "Orphan")]))
  /\ error_class (NodePath "1" [(Some "1", "Orphan")]) = None.
Proof.
  split; [|split; [|reflexivity]].
  - intros fuel.
    rewrite (@tool_get_node_path_found fuel (fst cyclic_sample)
               (snd cyclic_sample) "1" 0 eq_refl).
    pose proof (proj1 (cyclic_path_loop_never_ends fuel [])) as H.
    unfold loc in *. rewrite H. reflexivity.
  - intros fuel.
    rewrite (@tool_get_node_path_found (S fuel) (fst dangling_sample)
               (snd dangling_sample) "1" 1 eq_refl).
    change (path_loop (S fuel) (fst dangling_sample) (snd dangling_sample)
              (Some 1) [])
      with (path_loop fuel (fst dangling_sample) (snd dangling_sample)
              None [(Some "1", "Orphan")]).
    rewrite path_loop_None. reflexivity.
Qed.

(** C3, amended.  An id that is not in the mapping gets the reply "not
    found".  When the parent chain from the queried node ends, at a node
    whose parent is the root marker or at one whose parent id is not in
    the mapping, the chain has at most as many nodes as the mapping has
    entries, the loop ends within that many iterations, and the reply is
    the path of the visited nodes, topmost first: the full path from the
    root in the first case, the path from the last node that could be
    resolved in the second, without any failure. *)
Theorem get_node_path_bounded (h : heap) (m : SimpleMindMap) (node_id : string) :
  (get_node m (Some node_id) = None ->
   forall fuel, tool_get_node_path fuel h m node_id = Some (NodeNotFound node_id))
  /\ (forall l ls,
        get_node m (Some node_id) = Some l ->
        walk h m l ls ->
        length ls <= length (Map.nodes m)
        /\ forall fuel, length (Map.nodes m) <= fuel ->
             tool_get_node_path fuel h m node_id
             = Some (NodePath node_id (map (path_entry h) (rev ls)))).
Proof.
  split.
  - intros Hg fuel. unfold tool_get_node_path. rewrite Hg. reflexivity.
  - intros l ls Hg W.
    assert (Hlen : length ls <= length (Map.nodes m)).
    { eapply walk_length; [eapply get_node_In_values, Hg | exact W]. }
    split; [exact Hlen|].
    intros fuel Hf. rewrite (@tool_get_node_path_found fuel h m node_id l Hg).
    rewrite (@path_loop_walk h m l ls W fuel []) by lia.
    rewrite app_nil_r. reflexivity.
Qed.

Definition chain_sample : heap * SimpleMindMap :=
  build_map [sample_root; sample_child "1" "0" "A" "" 100 0;
             sample_child "2" "1" "B" "" 200 0].

Lemma get_node_path_bounded_witness :
  tool_get_node_path 3 (fst chain_sample) (snd chain_sample) "2"
  = Some (NodePath "2" [(Some "0", "Root"); (Some "1", "A"); (Some "2", "B")])
  /\ tool_get_node_path 2 (fst dangling_sample) (snd dangling_sample) "1"
     = Some (NodePath "1" [(Some "1", "Orphan")]).
Proof.
  split.
  - destruct (get_node_path_bounded (fst chain_sample) (snd chain_sample) "2")
      as [_ H].
    destruct (H 2 [2; 1; 0] eq_refl) as [_ H2].
    + eapply walk_step; [reflexivity | discriminate | reflexivity |].
      eapply walk_step; [reflexivity | discriminate | reflexivity |].
      eapply walk_root; reflexivity.
    + apply (H2 3). simpl. lia.
  - destruct (get_node_path_bounded (fst dangling_sample) (snd dangling_sample) "1")
      as [_ H].
    destruct (H 1 [1] eq_refl) as [_ H2].
    + eapply walk_dangling; [reflexivity | discriminate | reflexivity].
    + apply (H2 2). simpl. lia.
Defined.

(** ** Trees of objects

    The shape of a document is described by a tree of references: the
    object at the root of each subtree has, as its [children] list, the
    roots of the subtrees below it. *)

Inductive tree : Type :=
| T (l : loc) (kids : list tree).

Definition root_of (t : tree) : loc := match t with T l _ => l end.
Definition kids_of (t : tree) : list tree := match t with T _ kids => kids end.

Fixpoint flatten (t : tree) : list loc :=
  match t with
  | T l kids => l :: flat_map flatten kids
  end.

Fixpoint subtrees (t : tree) : list tree :=
  match t with
  | T l kids => T l kids :: flat_map subtrees kids
  end.

Fixpoint height (t : tree) : nat :=
  match t with
  | T l kids => S (list_max (map height kids))
  end.

(** Appending the leaf [l] under the node [lp]. *)
Fixpoint tinsert (lp l : loc) (t : tree) : tree :=
  match t with
  | T a kids =>
      T a (map (tinsert lp l) kids ++ (if Nat.eqb a lp then [T l []] else []))
  end.

(** Cutting off the subtree rooted at [l]. *)
Fixpoint tremove (l : loc) (t : tree) : tree :=
  match t with
  | T a kids =>
      T a (flat_map
             (fun k => if Nat.eqb (root_of k) l then [] else [tremove l k])
             kids)
  end.

Definition fremove (l : loc) (F : list tree) : list tree :=
  flat_map (fun k => if Nat.eqb (root_of k) l then [] else [tremove l k]) F.

Lemma tree_ind' (P : tree -> Prop) :
  (forall l kids, Forall P kids -> P (T l kids)) -> forall t, P t.
Proof.
  intros H. fix IH 1. intros [l kids]. apply H.
  induction kids as [|k kids IHk]; constructor; [apply IH | exact IHk].
Qed.

Lemma flatten_subtrees (t : tree) : flatten t = map root_of (subtrees t).
Proof.
  induction t as [l kids IH] using tree_ind'. simpl. f_equal.
  induction IH as [|k kids Hk _ IHk]; simpl; [reflexivity|].
  rewrite map_app, Hk, IHk. reflexivity.
Qed.

Lemma subtrees_self (t : tree) : In t (subtrees t).
Proof. destruct t; simpl; auto. Qed.

Lemma flatten_root (t : tree) : In (root_of t) (flatten t).
Proof. destruct t; simpl; auto. Qed.

Lemma subtrees_trans (t s u : tree) :
  In s (subtrees t) -> In u (subtrees s) -> In u (subtrees t).
Proof.
  induction t as [l kids IH] using tree_ind'. simpl.
  intros [<-|Hs] Hu; [exact Hu|]. right.
  apply in_flat_map in Hs. destruct Hs as (k & Hk & Hs).
  apply in_flat_map. exists k. split; [exact Hk|].
  rewrite Forall_forall in IH. apply IH; assumption.
Qed.

Lemma subtrees_kid (t k : tree) : In k (kids_of t) -> In k (subtrees t).
Proof.
  destruct t as [l kids]. simpl. intros Hk. right.
  apply in_flat_map. exists k. split; [exact Hk | apply subtrees_self].
Qed.

Lemma subtrees_flatten_incl (t s : tree) :
  In s (subtrees t) -> incl (flatten s) (flatten t).
Proof.
  intros Hs x Hx. rewrite flatten_subtrees in *.
  apply in_map_iff in Hx. destruct Hx as (u & <- & Hu).
  apply in_map. eapply subtrees_trans; eauto.
Qed.

Lemma In_flatten_subtree (t : tree) (x : loc) :
  In x (flatten t) -> exists s, In s (subtrees t) /\ root_of s = x.
Proof.
  rewrite flatten_subtrees. intros H. apply in_map_iff in H.
  destruct H as (s & E & Hs). eauto.
Qed.

Lemma NoDup_flat_map_elem {A B : Type} (f : A -> list B) (l : list A) (a : A) :
  NoDup (flat_map f l) -> In a l -> NoDup (f a).
Proof.
  induction l as [|b l IH]; simpl; [tauto|].
  intros Hnd [->|Hin].
  - eapply NoDup_app_remove_r, Hnd.
  - apply IH; [eapply NoDup_app_remove_l, Hnd | exact Hin].
Qed.

Lemma subtree_NoDup (t s : tree) :
  NoDup (flatten t) -> In s (subtrees t) -> NoDup (flatten s).
Proof.
  induction t as [l kids IH] using tree_ind'. simpl.
  intros Hnd [<-|Hs]; [exact Hnd|].
  apply in_flat_map in Hs. destruct Hs as (k & Hk & Hs).
  rewrite Forall_forall in IH. apply (IH k Hk); [|exact Hs].
  inversion Hnd; subst. eapply NoDup_flat_map_elem; eauto.
Qed.

Lemma NoDup_map_inj {A B : Type} (f : A -> B) (l : list A) (a b : A) :
  NoDup (map f l) -> In a l -> In b l -> f a = f b -> a = b.
Proof.
  induction l as [|c l IH]; simpl; [tauto|].
  intros Hnd Ha Hb E. inversion Hnd as [|? ? Hnotin Hnd']; subst.
  destruct Ha as [->|Ha], Hb as [->|Hb]; auto.
  - exfalso. apply Hnotin. rewrite E. apply in_map, Hb.
  - exfalso. apply Hnotin. rewrite <- E. apply in_map, Ha.
Qed.

(** In a tree without repeated references a subtree is determined by its
    root. *)
Lemma subtree_unique (t s s' : tree) :
  NoDup (flatten t) -> In s (subtrees t) -> In s' (subtrees t) ->
  root_of s = root_of s' -> s = s'.
Proof.
  rewrite flatten_subtrees. intros Hnd Hs Hs' E.
  eapply NoDup_map_inj; eauto.
Qed.

Lemma height_le_length (t : tree) : height t <= length (flatten t).
Proof.
  induction t as [l kids IH] using tree_ind'. simpl.
  apply le_n_S.
  induction IH as [|k kids Hk _ IHk]; simpl; [lia|].
  rewrite length_app. lia.
Qed.

Lemma height_kid (t k : tree) : In k (kids_of t) -> height k < height t.
Proof.
  destruct t as [l kids]. simpl. intros Hk.
  assert (height k <= list_max (map height kids)); [|lia].
  assert (H : Forall (fun n => n <= list_max (map height kids)) (map height kids))
    by (apply list_max_le; lia).
  rewrite Forall_forall in H. apply H, in_map, Hk.
Qed.

(** ** Well-formed documents *)

Definition id_at (h : heap) (l : loc) : pystr :=
  match deref h l with
  | Some n => Node.id n
  | None => None
  end.

Definition parent_at (h : heap) (l : loc) : pystr :=
  match deref h l with
  | Some n => Node.parent_id n
  | None => None
  end.

(** The object at the root of [s] exists and its children are the roots
    of the subtrees of [s]. *)
Definition obj_ok (h : heap) (s : tree) : Prop :=
  exists n, deref h (root_of s) = Some n
            /\ Node.children n = map root_of (kids_of s).

(** The nodes directly below the root of [s] name it as their parent. *)
Definition link_ok (h : heap) (s : tree) : Prop :=
  forall k, In k (kids_of s) ->
    parent_at h (root_of k) = id_at h (root_of s)
    /\ parent_at h (root_of k) <> ROOT_PARENT.

(** The document [(h, m)] has the shape of the forest [F]. *)
Record doc_shape (h : heap) (m : SimpleMindMap) (F : list tree) : Prop := {
  ds_objs : Forall (obj_ok h) (flat_map subtrees F);
  ds_links : Forall (link_ok h) (flat_map subtrees F);
  ds_tops : Forall (fun t => parent_at h (root_of t) = ROOT_PARENT) F;
  ds_root_nodes : root_nodes h m = map root_of F;
  ds_nodup : NoDup (flat_map flatten F);
  ds_values : Permutation (values (Map.nodes m)) (flat_map flatten F);
  ds_keys : NoDup (keys (Map.nodes m));
  ds_entries :
    forall k l, In (k, l) (Map.nodes m) ->
      exists n, deref h l = Some n /\ Node.id n = k
}.

(** A conformant document (section 3 of the specification): one tree,
    whose root is [root_node]; the mapping holds exactly the nodes of the
    tree, each under its id; the root marker is nobody's id. *)
Record well_formed (h : heap) (m : SimpleMindMap) (t : tree) : Prop := {
  wf_shape : doc_shape h m [t];
  wf_root : Map.root_node m = Some (root_of t);
  wf_marker : ~ In ROOT_PARENT (keys (Map.nodes m))
}.

(** [d] can be reached from [l] through [children] lists. *)
Inductive reach (h : heap) : loc -> loc -> Prop :=
| reach_refl l : reach h l l
| reach_step l n c d :
    deref h l = Some n -> In c (Node.children n) -> reach h c d -> reach h l d.

(** *** Traversals of a well-shaped subtree *)

Lemma shape_kids (l : loc) (kids : list tree) (P : tree -> Prop) :
  Forall P (subtrees (T l kids)) ->
  P (T l kids) /\ Forall (fun k => Forall P (subtrees k)) kids.
Proof.
  simpl. intros H. inversion H as [|? ? H1 H2]; subst. split; [exact H1|].
  apply Forall_flat_map in H2. exact H2.
Qed.

Lemma count_fold (f : nat) (h : heap) (kids : list tree) (c : Z) :
  Forall (fun k => count_descendants f h (root_of k)
                   = Some (Z.of_nat (length (flatten k)))) kids ->
  fold_left
    (fun count child =>
       match count, count_descendants f h child with
       | Some c, Some d => Some (c + d)%Z
       | _, _ => None
       end)
    (map root_of kids) (Some c)
  = Some (c + Z.of_nat (length (flat_map flatten kids)))%Z.
Proof.
  intros H. revert c. induction H as [|k kids Hk _ IH]; intros c; simpl.
  - f_equal. lia.
  - rewrite Hk, IH, length_app. f_equal. lia.
Qed.

Lemma count_descendants_shape (h : heap) (t : tree) :
  Forall (obj_ok h) (subtrees t) ->
  forall fuel, height t <= fuel ->
    count_descendants fuel h (root_of t) = Some (Z.of_nat (length (flatten t))).
Proof.
  induction t as [l kids IH] using tree_ind'. intros Hs fuel Hf.
  apply shape_kids in Hs. destruct Hs as [(n & Hn & Hc) Hk].
  simpl in Hn, Hc, Hf. destruct fuel as [|f]; [lia|].
  simpl. rewrite Hn, Hc. rewrite count_fold.
  - f_equal. lia.
  - rewrite Forall_forall in *. intros k Hin.
    pose proof (@height_kid (T l kids) k Hin) as Hh. simpl in Hh.
    apply IH; [exact Hin | apply Hk, Hin | lia].
Qed.

(** The dictionary without the keys [ks]. *)
Definition dict_drop (ks : list pystr) (d : dict loc) : dict loc :=
  filter (fun e => negb (existsb (pystr_eqb (fst e)) ks)) d.

Lemma filter_twice {A : Type} (f g : A -> bool) (l : list A) :
  filter f (filter g l) = filter (fun a => g a && f a) l.
Proof.
  induction l as [|a l IH]; simpl; [reflexivity|].
  destruct (g a); simpl; [destruct (f a)|]; rewrite IH; reflexivity.
Qed.

Lemma NoDup_keys_filter (f : pystr * loc -> bool) (d : dict loc) :
  NoDup (keys d) -> NoDup (keys (filter f d)).
Proof.
  unfold keys. induction d as [|e d IH]; simpl; intros H; [constructor|].
  inversion H as [|? ? Hn Hd]; subst.
  destruct (f e); simpl; [|auto].
  constructor; [|auto]. intros Hin. apply Hn.
  apply in_map_iff in Hin. destruct Hin as (e' & E & He').
  apply filter_In in He'. rewrite <- E. apply in_map. tauto.
Qed.

Lemma dict_del_filter (k : pystr) (d : dict loc) :
  NoDup (keys d) ->
  (if dict_mem k d then dict_del k d else d)
  = filter (fun e => negb (pystr_eqb (fst e) k)) d.
Proof.
  unfold dict_mem, keys.
  induction d as [|[k' v] d IH]; simpl; intros H; [reflexivity|].
  inversion H as [|? ? Hn Hd]; subst.
  rewrite (pystr_eqb_sym k' k).
  destruct (pystr_eqb_spec k k') as [<-|Hne]; simpl.
  - symmetry. apply forallb_filter_id. apply forallb_forall.
    intros [k2 v2] Hin. simpl.
    destruct (pystr_eqb_spec k2 k) as [->|]; [|reflexivity].
    exfalso. apply Hn. change k with (fst (k, v2)). apply in_map, Hin.
  - specialize (IH Hd). destruct (dict_get k d); rewrite <- IH; reflexivity.
Qed.

Lemma dict_drop_app (ks1 ks2 : list pystr) (d : dict loc) :
  dict_drop ks2 (dict_drop ks1 d) = dict_drop (ks1 ++ ks2) d.
Proof.
  unfold dict_drop. rewrite filter_twice. apply filter_ext. intros e.
  rewrite existsb_app, negb_orb. reflexivity.
Qed.

Lemma dict_drop_one (k : pystr) (d : dict loc) :
  filter (fun e => negb (pystr_eqb (fst e) k)) d = dict_drop [k] d.
Proof.
  unfold dict_drop. apply filter_ext. intros e. simpl.
  rewrite orb_false_r. reflexivity.
Qed.

Lemma dict_drop_perm (ks1 ks2 : list pystr) (d : dict loc) :
  (forall k, In k ks1 <-> In k ks2) -> dict_drop ks1 d = dict_drop ks2 d.
Proof.
  intros H. unfold dict_drop. apply filter_ext. intros e. f_equal.
  apply eq_true_iff_eq. rewrite !existsb_exists.
  split; intros (k & Hk & E); exists k; split; auto; apply H; auto.
Qed.

Lemma remove_fold (f : nat) (h : heap) (kids : list tree) (d : dict loc) :
  NoDup (keys d) ->
  Forall (fun k => forall d', NoDup (keys d') ->
            remove_node_and_children f h (root_of k) d'
            = Some (dict_drop (map (id_at h) (flatten k)) d')) kids ->
  fold_left
    (fun acc child =>
       match acc with
       | Some d' => remove_node_and_children f h child d'
       | None => None
       end)
    (map root_of kids) (Some d)
  = Some (dict_drop (map (id_at h) (flat_map flatten kids)) d).
Proof.
  intros Hd H. revert d Hd.
  induction H as [|k kids Hk _ IH]; intros d Hd; simpl.
  - f_equal. unfold dict_drop. symmetry. apply forallb_filter_id.
    apply forallb_forall. reflexivity.
  - rewrite Hk by exact Hd. rewrite IH by (apply NoDup_keys_filter, Hd).
    rewrite dict_drop_app, map_app. reflexivity.
Qed.

Lemma remove_node_and_children_S (f : nat) (h : heap) (l : loc) (d : dict loc) :
  remove_node_and_children (S f) h l d =
  match deref h l with
  | None => Some d
  | Some n =>
      match
        fold_left
          (fun acc child =>
             match acc with
             | Some d' => remove_node_and_children f h child d'
             | None => None
             end)
          (Node.children n) (Some d)
      with
      | None => None
      | Some d' =>
          if dict_mem (Node.id n) d' then Some (dict_del (Node.id n) d')
          else Some d'
      end
  end.
Proof. reflexivity. Qed.

Lemma remove_node_and_children_shape (h : heap) (t : tree) :
  Forall (obj_ok h) (subtrees t) ->
  forall fuel d, height t <= fuel -> NoDup (keys d) ->
    remove_node_and_children fuel h (root_of t) d
    = Some (dict_drop (map (id_at h) (flatten t)) d).
Proof.
  induction t as [l kids IH] using tree_ind'. intros Hs fuel d Hf Hd.
  apply shape_kids in Hs. destruct Hs as [(n & Hn & Hc) Hk].
  simpl in Hn, Hc, Hf. destruct fuel as [|f]; [lia|].
  rewrite remove_node_and_children_S. simpl root_of.
  rewrite Hn, Hc. rewrite remove_fold; [|exact Hd|].
  - match goal with
    | |- (if dict_mem ?k ?d' then Some (dict_del ?k ?d') else Some ?d') = _ =>
        change (Some (if dict_mem k d' then dict_del k d' else d') = 
                Some (dict_drop (map (id_at h) (flatten (T l kids))) d))
        || (transitivity (Some (if dict_mem k d' then dict_del k d' else d'));
            [destruct (dict_mem k d'); reflexivity|])
    end.
    rewrite dict_del_filter by (apply NoDup_keys_filter, Hd).
    rewrite dict_drop_one, dict_drop_app. f_equal.
    apply dict_drop_perm. intros k.
    assert (E : id_at h l = Node.id n) by (unfold id_at; rewrite Hn; reflexivity).
    rewrite in_app_iff. simpl. rewrite E. tauto.
  - rewrite Forall_forall in *. intros k Hin d' Hd'.
    pose proof (@height_kid (T l kids) k Hin) as Hh. simpl in Hh.
    apply IH; [exact Hin | apply Hk, Hin | lia | exact Hd'].
Qed.

(** *** Consequences of [doc_shape] *)

Lemma fflatten_subtrees (F : list tree) :
  flat_map flatten F = map root_of (flat_map subtrees F).
Proof.
  induction F as [|t F IH]; simpl; [reflexivity|].
  rewrite map_app, flatten_subtrees, IH. reflexivity.
Qed.

Lemma In_fflatten_subtree (F : list tree) (x : loc) :
  In x (flat_map flatten F) ->
  exists s, In s (flat_map subtrees F) /\ root_of s = x.
Proof.
  rewrite fflatten_subtrees. intros H. apply in_map_iff in H.
  destruct H as (s & E & Hs). eauto.
Qed.

Lemma fsubtree_unique (F : list tree) (s s' : tree) :
  NoDup (flat_map flatten F) ->
  In s (flat_map subtrees F) -> In s' (flat_map subtrees F) ->
  root_of s = root_of s' -> s = s'.
Proof.
  rewrite fflatten_subtrees. intros Hnd Hs Hs' E.
  eapply NoDup_map_inj; eauto.
Qed.

Lemma fsubtree_root_in (F : list tree) (s : tree) :
  In s (flat_map subtrees F) -> In (root_of s) (flat_map flatten F).
Proof. rewrite fflatten_subtrees. apply in_map. Qed.

Lemma fsubtree_trans (F : list tree) (s u : tree) :
  In s (flat_map subtrees F) -> In u (subtrees s) -> In u (flat_map subtrees F).
Proof.
  intros Hs Hu. apply in_flat_map in Hs. destruct Hs as (t & Ht & Hs).
  apply in_flat_map. exists t. split; [exact Ht|].
  eapply subtrees_trans; eauto.
Qed.

Lemma fsubtree_NoDup (F : list tree) (s : tree) :
  NoDup (flat_map flatten F) -> In s (flat_map subtrees F) -> NoDup (flatten s).
Proof.
  intros Hnd Hs. apply in_flat_map in Hs. destruct Hs as (t & Ht & Hs).
  eapply subtree_NoDup; [|exact Hs]. eapply NoDup_flat_map_elem; eauto.
Qed.

Lemma fsubtree_flatten_incl (F : list tree) (s : tree) :
  In s (flat_map subtrees F) -> incl (flatten s) (flat_map flatten F).
Proof.
  intros Hs x Hx. apply in_flat_map in Hs. destruct Hs as (t & Ht & Hs).
  apply in_flat_map. exists t. split; [exact Ht|].
  eapply subtrees_flatten_incl; eauto.
Qed.

Lemma dict_In_get (V : Type) (d : dict V) (k : pystr) (v : V) :
  NoDup (keys d) -> In (k, v) d -> dict_get k d = Some v.
Proof.
  unfold keys. induction d as [|[k' v'] d IH]; simpl; [tauto|].
  intros Hnd Hin. inversion Hnd as [|? ? Hn Hd]; subst.
  destruct Hin as [[= -> ->]|Hin].
  - rewrite pystr_eqb_refl. reflexivity.
  - destruct (pystr_eqb_spec k k') as [->|]; [|auto].
    exfalso. apply Hn. change k' with (fst (k', v)). apply in_map, Hin.
Qed.

Section ShapeFacts.
Variables (h : heap) (m : SimpleMindMap) (F : list tree).
Hypothesis Hs : doc_shape h m F.

Lemma shape_value_iff (l : loc) :
  In l (values (Map.nodes m)) <-> In l (flat_map flatten F).
Proof.
  split; apply Permutation_in;
    [apply (ds_values _ _ _ Hs) | apply Permutation_sym, (ds_values _ _ _ Hs)].
Qed.

Lemma shape_value_entry (l : loc) :
  In l (values (Map.nodes m)) ->
  exists n, deref h l = Some n /\ In (Node.id n, l) (Map.nodes m).
Proof.
  intros H. apply in_map_iff in H. destruct H as ([k v] & E & Hin).
  simpl in E. subst v.
  destruct (ds_entries _ _ _ Hs _ _ Hin) as (n & Hn & Hid).
  exists n. subst k. auto.
Qed.

Lemma shape_get_value (l : loc) (n : SimpleMindNode) :
  In l (values (Map.nodes m)) -> deref h l = Some n ->
  get_node m (Node.id n) = Some l.
Proof.
  intros Hin Hn. destruct (shape_value_entry l Hin) as (n' & Hn' & He).
  assert (n' = n) by congruence. subst n'.
  apply dict_In_get; [apply (ds_keys _ _ _ Hs) | exact He].
Qed.

Lemma shape_get_node (k : pystr) (l : loc) :
  get_node m k = Some l ->
  In l (values (Map.nodes m))
  /\ exists n, deref h l = Some n /\ Node.id n = k.
Proof.
  intros Hg. split; [eapply get_node_In_values, Hg|].
  apply dict_get_In in Hg. apply (ds_entries _ _ _ Hs _ _ Hg).
Qed.

Lemma shape_id_inj (l l' : loc) :
  In l (values (Map.nodes m)) -> In l' (values (Map.nodes m)) ->
  id_at h l = id_at h l' -> l = l'.
Proof.
  intros Hl Hl' E.
  destruct (shape_value_entry l Hl) as (n & Hn & _).
  destruct (shape_value_entry l' Hl') as (n' & Hn' & _).
  pose proof (shape_get_value l n Hl Hn) as G.
  pose proof (shape_get_value l' n' Hl' Hn') as G'.
  unfold id_at in E. rewrite Hn, Hn' in E. rewrite E in G. congruence.
Qed.

Lemma shape_subtree_obj (s : tree) :
  In s (flat_map subtrees F) -> obj_ok h s.
Proof. pose proof (ds_objs _ _ _ Hs) as H. rewrite Forall_forall in H. apply H. Qed.

Lemma shape_subtree_link (s : tree) :
  In s (flat_map subtrees F) -> link_ok h s.
Proof. pose proof (ds_links _ _ _ Hs) as H. rewrite Forall_forall in H. apply H. Qed.

Lemma shape_subtree_objs (s : tree) :
  In s (flat_map subtrees F) -> Forall (obj_ok h) (subtrees s).
Proof.
  intros H. apply Forall_forall. intros u Hu.
  apply shape_subtree_obj. eapply fsubtree_trans; eauto.
Qed.

Lemma shape_valid (l : loc) : In l (flat_map flatten F) -> l < length h.
Proof.
  intros H. apply shape_value_iff in H.
  destruct (shape_value_entry l H) as (n & Hn & _).
  eapply deref_lt, Hn.
Qed.

(** A node that is not at the top of the forest is a kid of a subtree. *)
Lemma shape_parent_subtree (l : loc) :
  In l (flat_map flatten F) -> parent_at h l <> ROOT_PARENT ->
  exists s k, In s (flat_map subtrees F) /\ In k (kids_of s)
              /\ root_of k = l.
Proof.
  intros Hin Hp.
  assert (G : forall t, In l (flatten t) ->
                l = root_of t \/
                exists s k, In s (subtrees t) /\ In k (kids_of s)
                            /\ root_of k = l).
  { induction t as [a kids IH] using tree_ind'. simpl.
    intros [E|Hl]; [auto|]. right.
    apply in_flat_map in Hl. destruct Hl as (k & Hk & Hl).
    rewrite Forall_forall in IH. destruct (IH k Hk Hl) as [E|(s & k' & H1 & H2 & H3)].
    - exists (T a kids), k. simpl. auto.
    - exists s, k'. split; [|auto]. right. apply in_flat_map. eauto. }
  apply in_flat_map in Hin. destruct Hin as (t & Ht & Hl).
  destruct (G t Hl) as [E|(s & k & H1 & H2 & H3)].
  - exfalso. apply Hp. pose proof (ds_tops _ _ _ Hs) as Htop.
    rewrite Forall_forall in Htop. rewrite E. apply Htop, Ht.
  - exists s, k. split; [|auto]. apply in_flat_map. eauto.
Qed.
End ShapeFacts.

(** *** Cutting a subtree off *)

Lemma tremove_unfold (l a : loc) (kids : list tree) :
  tremove l (T a kids) = T a (fremove l kids).
Proof. reflexivity. Qed.

Lemma root_of_tremove (l : loc) (t : tree) : root_of (tremove l t) = root_of t.
Proof. destruct t; reflexivity. Qed.

Lemma fremove_cons (l : loc) (t : tree) (F : list tree) :
  fremove l (t :: F) =
  (if Nat.eqb (root_of t) l then [] else [tremove l t]) ++ fremove l F.
Proof. reflexivity. Qed.

Lemma roots_fremove (l : loc) (F : list tree) :
  map root_of (fremove l F) = filter (fun r => negb (Nat.eqb r l)) (map root_of F).
Proof.
  induction F as [|t F IH]; [reflexivity|].
  rewrite fremove_cons. simpl map. simpl filter.
  destruct (Nat.eqb (root_of t) l); simpl; rewrite IH; [reflexivity|].
  rewrite root_of_tremove. reflexivity.
Qed.

Lemma fremove_id_aux (l : loc) (F : list tree) :
  Forall (fun t => ~ In l (flatten t) -> tremove l t = t) F ->
  ~ In l (flat_map flatten F) -> fremove l F = F.
Proof.
  induction 1 as [|t F Ht _ IH]; [reflexivity|].
  rewrite fremove_cons. simpl. rewrite in_app_iff. intros Hn.
  destruct (Nat.eqb_spec (root_of t) l) as [E|_].
  - exfalso. apply Hn. left. rewrite <- E. apply flatten_root.
  - simpl. f_equal; [apply Ht; tauto | apply IH; tauto].
Qed.

Lemma tremove_id (l : loc) (t : tree) : ~ In l (flatten t) -> tremove l t = t.
Proof.
  induction t as [a kids IH] using tree_ind'. simpl flatten. intros Hn.
  rewrite tremove_unfold. f_equal.
  apply fremove_id_aux; [exact IH | simpl in Hn; tauto].
Qed.

Lemma fremove_id (l : loc) (F : list tree) :
  ~ In l (flat_map flatten F) -> fremove l F = F.
Proof.
  apply fremove_id_aux. apply Forall_forall. intros t _. apply tremove_id.
Qed.

Lemma NoDup_app_disjoint {A : Type} (l1 l2 : list A) (a : A) :
  NoDup (l1 ++ l2) -> In a l1 -> In a l2 -> False.
Proof.
  induction l1 as [|b l1 IH]; simpl; [tauto|].
  intros Hnd [->|H1] H2; inversion Hnd; subst.
  - match goal with H : ~ In _ _ |- _ => apply H end.
    apply in_or_app. auto.
  - eauto.
Qed.

(** Cutting [k] off a forest that holds it leaves the other nodes. *)
Lemma fremove_perm_aux (F : list tree) (k : tree) :
  Forall (fun t => NoDup (flatten t) -> In k (subtrees t) ->
                   root_of k <> root_of t ->
                   Permutation (flatten t)
                     (flatten (tremove (root_of k) t) ++ flatten k)) F ->
  NoDup (flat_map flatten F) -> In k (flat_map subtrees F) ->
  Permutation (flat_map flatten F)
    (flat_map flatten (fremove (root_of k) F) ++ flatten k).
Proof.
  induction 1 as [|t F Ht _ IH]; [simpl; tauto|].
  rewrite fremove_cons. simpl. intros Hnd Hin.
  pose proof (NoDup_app_remove_r _ _ Hnd) as Hnt.
  pose proof (NoDup_app_remove_l _ _ Hnd) as HnF.
  apply in_app_or in Hin. destruct Hin as [Hin|Hin].
  - assert (HkF : ~ In (root_of k) (flat_map flatten F)).
    { intros Hx. eapply (NoDup_app_disjoint _ _ _ Hnd); [|exact Hx].
      eapply subtrees_flatten_incl; [exact Hin | apply flatten_root]. }
    rewrite (fremove_id _ _ HkF).
    destruct (Nat.eqb_spec (root_of t) (root_of k)) as [E|Hne].
    + assert (k = t).
      { eapply (subtree_unique t); eauto using subtrees_self. }
      subst k. simpl. apply Permutation_app_comm.
    + simpl.
      specialize (Ht Hnt Hin (not_eq_sym Hne)).
      rewrite Ht, <- !app_assoc.
      apply Permutation_app_head, Permutation_app_comm.
  - assert (Hkt : ~ In (root_of k) (flatten t)).
    { intros Hx. eapply (NoDup_app_disjoint _ _ _ Hnd); [exact Hx|].
      apply fsubtree_root_in, Hin. }
    destruct (Nat.eqb_spec (root_of t) (root_of k)) as [E|Hne].
    + exfalso. apply Hkt. rewrite <- E. apply flatten_root.
    + simpl. rewrite (tremove_id _ _ Hkt), <- app_assoc.
      apply Permutation_app_head, IH; assumption.
Qed.

Lemma tremove_perm (t k : tree) :
  NoDup (flatten t) -> In k (subtrees t) -> root_of k <> root_of t ->
  Permutation (flatten t) (flatten (tremove (root_of k) t) ++ flatten k).
Proof.
  induction t as [a kids IH] using tree_ind'.
  intros Hnd Hin Hne. simpl in Hin. destruct Hin as [<-|Hin]; [tauto|].
  rewrite tremove_unfold. simpl. constructor.
  apply fremove_perm_aux; [exact IH | | exact Hin].
  simpl in Hnd. inversion Hnd; assumption.
Qed.

Lemma fremove_perm (F : list tree) (k : tree) :
  NoDup (flat_map flatten F) -> In k (flat_map subtrees F) ->
  Permutation (flat_map flatten F)
    (flat_map flatten (fremove (root_of k) F) ++ flatten k).
Proof.
  apply fremove_perm_aux. apply Forall_forall. intros t _. apply tremove_perm.
Qed.

Lemma subtrees_tremove (l : loc) (t s' : tree) :
  In s' (subtrees (tremove l t)) ->
  exists s, In s (subtrees t) /\ s' = tremove l s.
Proof.
  induction t as [a kids IH] using tree_ind'.
  rewrite tremove_unfold. simpl. intros [<-|Hin].
  - exists (T a kids). split; [auto | reflexivity].
  - apply in_flat_map in Hin. destruct Hin as (k' & Hk' & Hs').
    unfold fremove in Hk'. apply in_flat_map in Hk'.
    destruct Hk' as (k & Hk & Hk').
    destruct (Nat.eqb (root_of k) l); [destruct Hk'|].
    destruct Hk' as [<-|[]].
    rewrite Forall_forall in IH. destruct (IH k Hk Hs') as (s & Hs & ->).
    exists s. split; [|reflexivity]. right. apply in_flat_map. eauto.
Qed.

Lemma fsubtrees_fremove (l : loc) (F : list tree) (s' : tree) :
  In s' (flat_map subtrees (fremove l F)) ->
  exists s, In s (flat_map subtrees F) /\ s' = tremove l s.
Proof.
  intros Hin. apply in_flat_map in Hin. destruct Hin as (t' & Ht' & Hs').
  unfold fremove in Ht'. apply in_flat_map in Ht'.
  destruct Ht' as (t & Ht & Ht').
  destruct (Nat.eqb (root_of t) l); [destruct Ht'|].
  destruct Ht' as [<-|[]].
  destruct (subtrees_tremove l t s' Hs') as (s & Hs & ->).
  exists s. split; [|reflexivity]. apply in_flat_map. eauto.
Qed.

(** *** Deleting a subtree from a well-shaped document *)

Lemma Permutation_filter {A : Type} (f : A -> bool) (l l' : list A) :
  Permutation l l' -> Permutation (filter f l) (filter f l').
Proof.
  induction 1 as [|a l l' _ IH|a b l|l1 l2 l3 _ IH1 _ IH2]; simpl.
  - constructor.
  - destruct (f a); [constructor|]; exact IH.
  - destruct (f a), (f b); try reflexivity. constructor.
  - etransitivity; eauto.
Qed.

Definition mem_loc (x : loc) (ls : list loc) : bool := existsb (Nat.eqb x) ls.

Lemma mem_loc_In (x : loc) (ls : list loc) : mem_loc x ls = true <-> In x ls.
Proof.
  unfold mem_loc. rewrite existsb_exists. split.
  - intros (y & Hy & E). apply Nat.eqb_eq in E. subst. exact Hy.
  - intros H. exists x. split; [exact H | apply Nat.eqb_refl].
Qed.

Lemma has_id_id_at (h : heap) (node_id : string) (c : loc) :
  has_id h (Some node_id) c = pystr_eqb (id_at h c) (Some node_id).
Proof. unfold has_id, id_at. destruct (deref h c); reflexivity. Qed.

Definition detach (h : heap) (node_id : string) (lp : loc) : heap :=
  mutate lp
    (fun p =>
       Node.set_children
         (filter (fun c => negb (has_id h (Some node_id) c)) (Node.children p)) p)
    h.

Lemma id_at_detach (h : heap) (node_id : string) (lp x : loc) :
  id_at (detach h node_id lp) x = id_at h x.
Proof.
  unfold id_at, detach. rewrite deref_mutate.
  destruct (deref h x) as [n|]; [|reflexivity].
  destruct (Nat.eqb lp x); reflexivity.
Qed.

Lemma parent_at_detach (h : heap) (node_id : string) (lp x : loc) :
  parent_at (detach h node_id lp) x = parent_at h x.
Proof.
  unfold parent_at, detach. rewrite deref_mutate.
  destruct (deref h x) as [n|]; [|reflexivity].
  destruct (Nat.eqb lp x); reflexivity.
Qed.

Lemma flatten_root_or_kid (t : tree) (x : loc) :
  In x (flatten t) ->
  x = root_of t \/
  exists s k, In s (subtrees t) /\ In k (kids_of s) /\ root_of k = x.
Proof.
  induction t as [a kids IH] using tree_ind'. simpl.
  intros [E|Hl]; [auto|]. right.
  apply in_flat_map in Hl. destruct Hl as (k & Hk & Hl).
  rewrite Forall_forall in IH.
  destruct (IH k Hk Hl) as [E|(s & k' & H1 & H2 & H3)].
  - exists (T a kids), k. simpl. auto.
  - exists s, k'. split; [|auto]. right. apply in_flat_map. eauto.
Qed.

Lemma root_nodes_alt (h : heap) (m : SimpleMindMap) :
  root_nodes h m =
  filter (fun l => pystr_eqb (parent_at h l) ROOT_PARENT) (values (Map.nodes m)).
Proof.
  unfold root_nodes. apply filter_ext. intros l. unfold parent_at.
  destruct (deref h l); reflexivity.
Qed.

Lemma values_filter (P : pystr * loc -> bool) (Q : loc -> bool) (d : dict loc) :
  (forall e, In e d -> P e = Q (snd e)) ->
  values (filter P d) = filter Q (values d).
Proof.
  unfold values. induction d as [|e d IH]; simpl; intros H; [reflexivity|].
  rewrite <- (H e) by auto. destruct (P e); simpl; rewrite IH; auto.
Qed.

Lemma filter_none {A : Type} (f : A -> bool) (l : list A) :
  (forall a, In a l -> f a = false) -> filter f l = [].
Proof.
  induction l as [|a l IH]; simpl; intros H; [reflexivity|].
  rewrite (H a) by auto. apply IH. auto.
Qed.

Lemma filter_all {A : Type} (f : A -> bool) (l : list A) :
  (forall a, In a l -> f a = true) -> filter f l = l.
Proof.
  intros H. apply forallb_filter_id, forallb_forall, H.
Qed.

Section DeleteShape.
Variables (h : heap) (m : SimpleMindMap) (F : list tree).
Variables (node_id : string) (l : loc) (n : SimpleMindNode) (s k : tree).
Hypothesis Hs : doc_shape h m F.
Hypothesis Hg : get_node m (Some node_id) = Some l.
Hypothesis Hn : deref h l = Some n.
Hypothesis Hsin : In s (flat_map subtrees F).
Hypothesis Hk : In k (kids_of s).
Hypothesis Hkl : root_of k = l.

Let lp := root_of s.
Let h1 := detach h node_id lp.
Let m' :=
  Map.set_nodes (dict_drop (map (id_at h) (flatten k)) (Map.nodes m)) m.

Lemma del_k_in : In k (flat_map subtrees F).
Proof. eapply fsubtree_trans; [exact Hsin | apply subtrees_kid, Hk]. Qed.

Lemma del_id : id_at h l = Some node_id.
Proof.
  destruct (shape_get_node h m F Hs _ _ Hg) as (_ & n' & Hn' & Hid).
  unfold id_at. rewrite Hn'. exact Hid.
Qed.

Lemma del_value (x : loc) : In x (flat_map flatten F) -> In x (values (Map.nodes m)).
Proof. apply (shape_value_iff h m F Hs). Qed.

Lemma del_parent_link :
  parent_at h l = id_at h lp /\ parent_at h l <> ROOT_PARENT.
Proof.
  rewrite <- Hkl. apply (shape_subtree_link h m F Hs s Hsin k Hk).
Qed.

Lemma del_get_parent : get_node m (Node.parent_id n) = Some lp.
Proof.
  destruct del_parent_link as [E _].
  assert (Hlp : In lp (values (Map.nodes m))).
  { apply del_value, fsubtree_root_in, Hsin. }
  destruct (shape_value_entry h m F Hs lp Hlp) as (np & Hnp & _).
  pose proof (shape_get_value h m F Hs lp np Hlp Hnp) as G.
  unfold parent_at, id_at in E. rewrite Hn, Hnp in E. rewrite E. exact G.
Qed.

Lemma del_lp_not_in_k : ~ In lp (flatten k).
Proof.
  pose proof (fsubtree_NoDup F s (ds_nodup _ _ _ Hs) Hsin) as Hnd.
  unfold lp. destruct s as [a kids]. simpl in *.
  inversion Hnd as [|? ? Hnotin _]; subst. intros Hin. apply Hnotin.
  apply in_flat_map. eauto.
Qed.

Lemma del_has_id (c : loc) :
  In c (flat_map flatten F) ->
  negb (has_id h (Some node_id) c) = negb (Nat.eqb c l).
Proof.
  intros Hc. f_equal. rewrite has_id_id_at.
  destruct (Nat.eqb_spec c l) as [->|Hne].
  - rewrite del_id. apply pystr_eqb_refl.
  - apply pystr_eqb_neq. intros E. apply Hne.
    apply (shape_id_inj h m F Hs); [apply del_value, Hc| |].
    + eapply get_node_In_values, Hg.
    + rewrite del_id. exact E.
Qed.

Lemma del_obj (u : tree) :
  In u (flat_map subtrees F) -> obj_ok h1 (tremove l u).
Proof.
  intros Hu. destruct (shape_subtree_obj h m F Hs u Hu) as (nu & Hnu & Hcu).
  assert (Hkids : forall c, In c (Node.children nu) -> In c (flat_map flatten F)).
  { intros c Hc. rewrite Hcu in Hc. apply in_map_iff in Hc.
    destruct Hc as (k' & <- & Hk'). apply fsubtree_root_in.
    eapply fsubtree_trans; [exact Hu | apply subtrees_kid, Hk']. }
  unfold obj_ok. rewrite root_of_tremove.
  destruct u as [x kidsu]. rewrite tremove_unfold. simpl in *.
  rewrite roots_fremove, <- Hcu.
  unfold h1, detach. rewrite deref_mutate, Hnu.
  destruct (Nat.eqb_spec lp x) as [E|Hne].
  - eexists. split; [reflexivity|]. simpl.
    apply filter_ext_in. intros c Hc. apply del_has_id, Hkids, Hc.
  - exists nu. split; [reflexivity|].
    symmetry. apply forallb_filter_id. apply forallb_forall.
    intros c Hc. apply negb_true_iff, Nat.eqb_neq. intros ->.
    apply Hne. rewrite Hcu in Hc. apply in_map_iff in Hc.
    destruct Hc as (k' & Hk'l & Hk').
    destruct (shape_subtree_link h m F Hs _ Hu k' Hk') as [E' _].
    simpl in E'. rewrite Hk'l in E'.
    destruct del_parent_link as [E _]. rewrite E in E'.
    apply (shape_id_inj h m F Hs); [| |exact E'].
    + apply del_value, fsubtree_root_in, Hsin.
    + apply del_value. apply (fsubtree_root_in F (T x kidsu) Hu).
Qed.

Lemma del_k_nonroot (x : loc) :
  In x (flatten k) -> parent_at h x <> ROOT_PARENT.
Proof.
  intros Hx. destruct (flatten_root_or_kid k x Hx) as [E|(u & c & Hu & Hc & E)].
  - rewrite E, Hkl. apply del_parent_link.
  - subst x. apply (shape_subtree_link h m F Hs u); [|exact Hc].
    eapply fsubtree_trans; [apply del_k_in | exact Hu].
Qed.

Lemma del_top_kept (r : loc) :
  In r (map root_of F) -> ~ In r (flatten k) /\ r <> l.
Proof.
  intros Hr. apply in_map_iff in Hr. destruct Hr as (t & <- & Ht).
  pose proof (ds_tops _ _ _ Hs) as Htop. rewrite Forall_forall in Htop.
  specialize (Htop t Ht). simpl in Htop. split.
  - intros Hin. apply (del_k_nonroot _ Hin), Htop.
  - intros E. rewrite E in Htop. apply del_parent_link, Htop.
Qed.

Lemma del_values :
  values (Map.nodes m')
  = filter (fun v => negb (mem_loc v (flatten k))) (values (Map.nodes m)).
Proof.
  unfold m'. simpl. unfold dict_drop. apply values_filter.
  intros [key v] Hin. simpl. f_equal. apply eq_true_iff_eq.
  rewrite mem_loc_In, existsb_exists.
  destruct (ds_entries _ _ _ Hs _ _ Hin) as (nv & Hnv & Hid).
  assert (Ev : id_at h v = key) by (unfold id_at; rewrite Hnv; exact Hid).
  split.
  - intros (key' & Hk' & E). apply pystr_eqb_eq in E. subst key'.
    apply in_map_iff in Hk'. destruct Hk' as (x & Ex & Hx).
    replace v with x; [exact Hx|].
    apply (shape_id_inj h m F Hs); [| |congruence].
    + apply del_value. apply (fsubtree_flatten_incl F k del_k_in x Hx).
    + apply (in_map snd) in Hin. exact Hin.
  - intros Hv. exists key. split; [|apply pystr_eqb_refl].
    rewrite <- Ev. apply in_map, Hv.
Qed.

Lemma del_perm :
  Permutation (flat_map flatten F)
    (flat_map flatten (fremove l F) ++ flatten k).
Proof. rewrite <- Hkl. apply fremove_perm; [apply Hs | apply del_k_in]. Qed.

Lemma del_disjoint (x : loc) :
  In x (flat_map flatten (fremove l F)) -> ~ In x (flatten k).
Proof.
  intros H1 H2.
  pose proof (Permutation_NoDup del_perm (ds_nodup _ _ _ Hs)) as Hnd.
  eapply NoDup_app_disjoint; eauto.
Qed.

Lemma del_shape : doc_shape h1 m' (fremove l F).
Proof.
  constructor.
  - apply Forall_forall. intros u' Hu'.
    destruct (fsubtrees_fremove l F u' Hu') as (u & Hu & ->).
    apply del_obj, Hu.
  - apply Forall_forall. intros u' Hu'.
    destruct (fsubtrees_fremove l F u' Hu') as (u & Hu & ->).
    intros c' Hc'. unfold h1. rewrite root_of_tremove.
    rewrite parent_at_detach, id_at_detach.
    destruct u as [x kidsu]. rewrite tremove_unfold in Hc'. simpl in Hc'.
    unfold fremove in Hc'. apply in_flat_map in Hc'.
    destruct Hc' as (c & Hc & Hc').
    destruct (Nat.eqb (root_of c) l); [destruct Hc'|].
    destruct Hc' as [<-|[]]. rewrite root_of_tremove.
    apply (shape_subtree_link h m F Hs _ Hu c Hc).
  - apply Forall_forall. intros t' Ht'.
    unfold fremove in Ht'. apply in_flat_map in Ht'.
    destruct Ht' as (t & Ht & Ht').
    destruct (Nat.eqb (root_of t) l); [destruct Ht'|].
    destruct Ht' as [<-|[]]. rewrite root_of_tremove.
    unfold h1. rewrite parent_at_detach.
    pose proof (ds_tops _ _ _ Hs) as Htop. rewrite Forall_forall in Htop.
    apply Htop, Ht.
  - rewrite root_nodes_alt, del_values, filter_twice.
    rewrite roots_fremove, <- (ds_root_nodes _ _ _ Hs), root_nodes_alt.
    rewrite filter_twice. apply filter_ext_in. intros x Hx.
    unfold h1. rewrite parent_at_detach.
    destruct (pystr_eqb (parent_at h x) ROOT_PARENT) eqn:E;
      [|rewrite !andb_false_r; reflexivity].
    rewrite !andb_true_r.
    assert (Hr : In x (map root_of F)).
    { rewrite <- (ds_root_nodes _ _ _ Hs), root_nodes_alt.
      apply filter_In. auto. }
    destruct (del_top_kept x Hr) as [H1 H2].
    apply Nat.eqb_neq in H2. rewrite H2.
    destruct (mem_loc x (flatten k)) eqn:M; [|reflexivity].
    apply mem_loc_In in M. tauto.
  - pose proof (Permutation_NoDup del_perm (ds_nodup _ _ _ Hs)) as Hnd.
    eapply NoDup_app_remove_r, Hnd.
  - rewrite del_values.
    rewrite (Permutation_filter _ _ _ (ds_values _ _ _ Hs)).
    rewrite (Permutation_filter _ _ _ del_perm).
    rewrite filter_app, (filter_none _ (flatten k)), app_nil_r.
    + rewrite filter_all; [reflexivity|].
      intros x Hx. apply negb_true_iff.
      destruct (mem_loc x (flatten k)) eqn:M; [|reflexivity].
      apply mem_loc_In in M. exfalso. eapply del_disjoint; eauto.
    + intros x Hx. apply negb_false_iff, mem_loc_In, Hx.
  - unfold m'. simpl. apply NoDup_keys_filter, (ds_keys _ _ _ Hs).
  - intros key v Hin. unfold m' in Hin. simpl in Hin.
    unfold dict_drop in Hin. apply filter_In in Hin. destruct Hin as [Hin _].
    destruct (ds_entries _ _ _ Hs _ _ Hin) as (nv & Hnv & Hid).
    unfold h1, detach. rewrite deref_mutate, Hnv.
    destruct (Nat.eqb lp v); eexists; split; try reflexivity; exact Hid.
Qed.

Lemma del_k_objs : Forall (obj_ok h1) (subtrees k).
Proof.
  apply Forall_forall. intros u Hu.
  assert (Hu' : In u (flat_map subtrees F))
    by (eapply fsubtree_trans; [apply del_k_in | exact Hu]).
  destruct (shape_subtree_obj h m F Hs u Hu') as (nu & Hnu & Hcu).
  exists nu. split; [|exact Hcu].
  unfold h1, detach. rewrite deref_mutate_ne; [exact Hnu|].
  intros E. apply del_lp_not_in_k. rewrite E.
  eapply subtrees_flatten_incl; [exact Hu | apply flatten_root].
Qed.

Lemma del_h1 :
  h1 = match get_node m (Node.parent_id n) with
       | Some lp' =>
           mutate lp'
             (fun p =>
                Node.set_children
                  (filter (fun c => negb (has_id h (Some node_id) c))
                          (Node.children p)) p) h
       | None => h
       end.
Proof. rewrite del_get_parent. reflexivity. Qed.

(** The run of the tool on the document. *)
Lemma del_run (fuel : nat) :
  Node.parent_id n <> ROOT_PARENT ->
  height k <= fuel ->
  tool_delete_node fuel h m node_id
  = Some (Written h1 m'
            (Deleted (Node.text n) (Z.of_nat (length (flatten k)) - 1))).
Proof.
  intros Hp Hf. unfold tool_delete_node. rewrite Hg, Hn.
  apply pystr_eqb_neq in Hp. rewrite Hp.
  rewrite <- Hkl.
  rewrite (count_descendants_shape h k
             (shape_subtree_objs h m F Hs k del_k_in) fuel Hf).
  rewrite Hkl, <- del_h1.
  rewrite <- Hkl.
  rewrite (remove_node_and_children_shape h1 k del_k_objs fuel
             (Map.nodes m) Hf (ds_keys _ _ _ Hs)).
  unfold m'. do 3 f_equal. f_equal.
  apply map_ext. intros x. unfold h1. apply id_at_detach.
Qed.
End DeleteShape.

(** *** Reachability in a well-shaped document *)

Lemma reach_in_subtree (h : heap) (m : SimpleMindMap) (F : list tree) :
  doc_shape h m F ->
  forall a d, reach h a d ->
  forall u, In u (flat_map subtrees F) -> root_of u = a -> In d (flatten u).
Proof.
  intros Hs a d R.
  induction R as [a | a na c d Hna Hc R IH]; intros u Hu Ea.
  - rewrite <- Ea. apply flatten_root.
  - destruct (shape_subtree_obj h m F Hs u Hu) as (nu & Hnu & Hcu).
    rewrite Ea, Hna in Hnu. injection Hnu as <-.
    rewrite Hcu in Hc. apply in_map_iff in Hc. destruct Hc as (k' & Ek' & Hk').
    assert (Hk'u : In k' (subtrees u)) by apply subtrees_kid, Hk'.
    eapply subtrees_flatten_incl; [exact Hk'u|].
    apply IH; [eapply fsubtree_trans; eauto | exact Ek'].
Qed.

Lemma subtree_reach (h : heap) (u : tree) :
  Forall (obj_ok h) (subtrees u) ->
  forall d, In d (flatten u) -> reach h (root_of u) d.
Proof.
  induction u as [a kids IH] using tree_ind'. intros Hs d Hd.
  apply shape_kids in Hs. destruct Hs as [(na & Hna & Hca) Hk].
  simpl in *. destruct Hd as [<-|Hd]; [constructor|].
  apply in_flat_map in Hd. destruct Hd as (k' & Hk' & Hd).
  rewrite Forall_forall in IH, Hk.
  eapply reach_step; [exact Hna | | apply (IH k' Hk' (Hk k' Hk') d Hd)].
  rewrite Hca. apply in_map, Hk'.
Qed.

Lemma NoDup_same_length {A : Type} (l1 l2 : list A) :
  NoDup l1 -> NoDup l2 -> (forall a, In a l1 <-> In a l2) ->
  length l1 = length l2.
Proof.
  intros H1 H2 H. apply Permutation_length, NoDup_Permutation; assumption.
Qed.

Lemma dict_get_drop (ks : list pystr) (d : dict loc) (key : pystr) :
  dict_get key (dict_drop ks d) =
  if existsb (pystr_eqb key) ks then None else dict_get key d.
Proof.
  unfold dict_drop. induction d as [|[k' v] d IH]; simpl.
  - destruct (existsb _ ks); reflexivity.
  - destruct (pystr_eqb_spec key k') as [->|Hne].
    + destruct (existsb (pystr_eqb k') ks) eqn:E; simpl.
      * exact IH.
      * rewrite pystr_eqb_refl. reflexivity.
    + destruct (existsb (pystr_eqb k') ks); simpl; [exact IH|].
      apply pystr_eqb_neq in Hne. rewrite Hne. exact IH.
Qed.

(** *** The root of a conformant document *)

Lemma wf_root_parent (h : heap) (m : SimpleMindMap) (t : tree) :
  well_formed h m t -> parent_at h (root_of t) = ROOT_PARENT.
Proof.
  intros [Hs _ _]. pose proof (ds_tops _ _ _ Hs) as H.
  inversion H; assumption.
Qed.

Lemma wf_flatten (h : heap) (m : SimpleMindMap) (t : tree) :
  well_formed h m t -> Permutation (values (Map.nodes m)) (flatten t).
Proof.
  intros [Hs _ _]. pose proof (ds_values _ _ _ Hs) as H.
  simpl in H. rewrite app_nil_r in H. exact H.
Qed.

Lemma wf_is_root (h : heap) (m : SimpleMindMap) (t : tree) (l : loc) :
  well_formed h m t -> In l (values (Map.nodes m)) ->
  parent_at h l = ROOT_PARENT -> l = root_of t.
Proof.
  intros Hw Hl Hp. pose proof (wf_shape _ _ _ Hw) as Hs.
  apply (shape_value_iff h m [t] Hs) in Hl.
  simpl in Hl. rewrite app_nil_r in Hl.
  destruct (flatten_root_or_kid t l Hl) as [E|(s & k & H1 & H2 & H3)];
    [exact E|].
  exfalso. subst l.
  assert (Hin : In s (flat_map subtrees [t]))
    by (simpl; rewrite app_nil_r; exact H1).
  destruct (shape_subtree_link h m [t] Hs s Hin k H2) as [_ Hne].
  apply Hne, Hp.
Qed.

(** ** C5: delete_node *)

(** What deleting a node other than the root does to a conformant
    document. *)
Lemma wf_delete (h : heap) (m : SimpleMindMap) (t : tree)
    (node_id : string) (l : loc) (n : SimpleMindNode) :
  well_formed h m t ->
  get_node m (Some node_id) = Some l ->
  deref h l = Some n ->
  Node.parent_id n <> ROOT_PARENT ->
  exists s k,
    In s (subtrees t) /\ In k (kids_of s) /\ root_of k = l
    /\ get_node m (Node.parent_id n) = Some (root_of s)
    /\ well_formed (detach h node_id (root_of s))
          (Map.set_nodes (dict_drop (map (id_at h) (flatten k)) (Map.nodes m)) m)
          (tremove l t)
    /\ Permutation (flatten t) (flatten (tremove l t) ++ flatten k)
    /\ (forall fuel, height k <= fuel ->
          tool_delete_node fuel h m node_id
          = Some (Written (detach h node_id (root_of s))
                    (Map.set_nodes
                       (dict_drop (map (id_at h) (flatten k)) (Map.nodes m)) m)
                    (Deleted (Node.text n)
                       (Z.of_nat (length (flatten k)) - 1)))).
Proof.
  intros Hw Hg Hn Hp. pose proof (wf_shape _ _ _ Hw) as Hs.
  assert (Hl : In l (flat_map flatten [t])).
  { apply (shape_value_iff h m [t] Hs). eapply get_node_In_values, Hg. }
  assert (Hpl : parent_at h l <> ROOT_PARENT)
    by (unfold parent_at; rewrite Hn; exact Hp).
  destruct (shape_parent_subtree h m [t] Hs l Hl Hpl) as (s & k & Hsin & Hk & Hkl).
  assert (Hroot : Nat.eqb (root_of t) l = false).
  { apply Nat.eqb_neq. intros E. apply Hpl. rewrite <- E.
    apply (wf_root_parent h m t Hw). }
  assert (Hfr : fremove l [t] = [tremove l t]).
  { unfold fremove. simpl. rewrite Hroot. reflexivity. }
  exists s, k. split; [simpl in Hsin; rewrite app_nil_r in Hsin; exact Hsin|].
  split; [exact Hk|]. split; [exact Hkl|]. split; [|split; [|split]].
  - apply (del_get_parent h m [t] l n s k Hs Hn Hsin Hk Hkl).
  - constructor.
    + rewrite <- Hfr. apply (del_shape h m [t] node_id l s k Hs Hg Hsin Hk Hkl).
    + simpl. rewrite root_of_tremove. apply (wf_root _ _ _ Hw).
    + simpl. intros Hin. apply (wf_marker _ _ _ Hw).
      unfold keys in *. apply in_map_iff in Hin. destruct Hin as (e & E & He).
      unfold dict_drop in He. apply filter_In in He.
      apply in_map_iff. exists e. tauto.
  - pose proof (del_perm h m [t] l s k Hs Hsin Hk Hkl) as P.
    rewrite Hfr in P. simpl in P. rewrite !app_nil_r in P. exact P.
  - intros fuel Hf.
    apply (del_run h m [t] node_id l n s k Hs Hg Hn Hsin Hk Hkl fuel Hp Hf).
Qed.

(** The descendants of [l]: the nodes other than [l] reached from it
    through children lists. *)
Definition descendants_of (h : heap) (l : loc) (ds : list loc) : Prop :=
  NoDup ds /\ forall d, In d ds <-> d <> l /\ reach h l d.

Lemma wf_subtree_descendants (h : heap) (m : SimpleMindMap) (t k : tree)
    (ds : list loc) :
  well_formed h m t -> In k (subtrees t) ->
  descendants_of h (root_of k) ds ->
  length (flatten k) = S (length ds).
Proof.
  intros Hw Hk [Hnd Hds]. pose proof (wf_shape _ _ _ Hw) as Hs.
  assert (Hkin : In k (flat_map subtrees [t]))
    by (simpl; rewrite app_nil_r; exact Hk).
  pose proof (fsubtree_NoDup [t] k (ds_nodup _ _ _ Hs) Hkin) as Hndk.
  destruct k as [a kids]. simpl in *. f_equal.
  inversion Hndk as [|? ? Hnotin Hndr]; subst.
  symmetry. apply NoDup_same_length; [exact Hnd | exact Hndr|].
  intros d. rewrite Hds. split.
  - intros [Hne R].
    pose proof (reach_in_subtree h m [t] Hs a d R (T a kids) Hkin eq_refl) as Hin.
    simpl in Hin. destruct Hin as [E|Hin]; [congruence|exact Hin].
  - intros Hin. split; [intros ->; tauto|].
    apply (subtree_reach h (T a kids)
             (shape_subtree_objs h m [t] Hs (T a kids) Hkin)).
    simpl. auto.
Qed.

Lemma wf_mapped_deref (h : heap) (m : SimpleMindMap) (t : tree)
    (key : pystr) (l : loc) :
  well_formed h m t -> get_node m key = Some l ->
  exists n, deref h l = Some n /\ Node.id n = key /\ In l (flatten t).
Proof.
  intros Hw Hg. pose proof (wf_shape _ _ _ Hw) as Hs.
  destruct (shape_get_node h m [t] Hs key l Hg) as (Hv & n & Hn & Hid).
  exists n. repeat split; try assumption.
  apply (shape_value_iff h m [t] Hs) in Hv. simpl in Hv.
  rewrite app_nil_r in Hv. exact Hv.
Qed.

Lemma wf_length (h : heap) (m : SimpleMindMap) (t : tree) :
  well_formed h m t -> length (Map.nodes m) = length (flatten t).
Proof.
  intros Hw. rewrite <- (Permutation_length (wf_flatten h m t Hw)).
  unfold values. rewrite length_map. reflexivity.
Qed.


Ltac solve_NoDup :=
  repeat constructor; simpl; intuition (try discriminate; try lia; try congruence).

Ltac solve_link_ok :=
  let k := fresh "k" in
  let H := fresh "H" in
  intros k H; simpl in H;
  repeat (destruct H as [<-|H]; [split; [reflexivity|discriminate]|]);
  destruct H.

Definition chain_tree : tree := T 0 [T 1 [T 2 []]].

Lemma chain_sample_well_formed :
  well_formed (fst chain_sample) (snd chain_sample) chain_tree.
Proof.
  constructor; [constructor| |].
  - repeat (constructor; [eexists; split; reflexivity|]). constructor.
  - repeat (constructor; [solve_link_ok|]). constructor.
  - repeat constructor.
  - reflexivity.
  - solve_NoDup.
  - apply Permutation_refl.
  - solve_NoDup.
  - intros k l H. simpl in H.
    repeat (destruct H as [[= <- <-]|H]; [eexists; split; reflexivity|]).
    destruct H.
  - reflexivity.
  - simpl. intuition discriminate.
Qed.

Lemma chain_sample_descendants : descendants_of (fst chain_sample) 1 [2].
Proof.
  split; [solve_NoDup|]. intros d. split.
  - intros [<-|[]]. split; [discriminate|].
    eapply reach_step; [reflexivity | simpl; auto | constructor].
  - intros [Hne R].
    pose proof (reach_in_subtree _ _ _ (wf_shape _ _ _ chain_sample_well_formed)
                  1 d R (T 1 [T 2 []]) ltac:(simpl; auto) eq_refl) as H.
    simpl in H. destruct H as [E|[E|[]]]; [congruence | left; exact E].
Qed.


(** *** Appending a leaf *)

Lemma tinsert_unfold (lp l a : loc) (kids : list tree) :
  tinsert lp l (T a kids) =
  T a (map (tinsert lp l) kids ++ (if Nat.eqb a lp then [T l []] else [])).
Proof. reflexivity. Qed.

Lemma root_of_tinsert (lp l : loc) (t : tree) :
  root_of (tinsert lp l t) = root_of t.
Proof. destruct t; reflexivity. Qed.

Lemma roots_tinsert (lp l : loc) (F : list tree) :
  map root_of (map (tinsert lp l) F) = map root_of F.
Proof.
  rewrite map_map. apply map_ext. intros t. apply root_of_tinsert.
Qed.

Lemma tinsert_id (lp l : loc) (t : tree) :
  ~ In lp (flatten t) -> tinsert lp l t = t.
Proof.
  induction t as [a kids IH] using tree_ind'. simpl flatten. intros Hn.
  rewrite tinsert_unfold.
  destruct (Nat.eqb_spec a lp) as [E|_]; [exfalso; apply Hn; left; exact E|].
  rewrite app_nil_r. f_equal.
  assert (Hk : ~ In lp (flat_map flatten kids)) by (simpl in Hn; tauto).
  clear Hn. induction IH as [|k kids Hk' _ IHk]; [reflexivity|].
  simpl in *. rewrite in_app_iff in Hk. f_equal; [apply Hk'|apply IHk]; tauto.
Qed.

Lemma finsert_id (lp l : loc) (F : list tree) :
  ~ In lp (flat_map flatten F) -> map (tinsert lp l) F = F.
Proof.
  induction F as [|t F IH]; [reflexivity|]. simpl. rewrite in_app_iff.
  intros Hn. f_equal; [apply tinsert_id; tauto | apply IH; tauto].
Qed.

Lemma finsert_perm_aux (lp l : loc) (F : list tree) :
  Forall (fun t => NoDup (flatten t) -> In lp (flatten t) ->
                   Permutation (flatten (tinsert lp l t)) (l :: flatten t)) F ->
  NoDup (flat_map flatten F) -> In lp (flat_map flatten F) ->
  Permutation (flat_map flatten (map (tinsert lp l) F)) (l :: flat_map flatten F).
Proof.
  induction 1 as [|t F Ht _ IH]; simpl; [tauto|].
  intros Hnd Hin.
  pose proof (NoDup_app_remove_r _ _ Hnd) as Hnt.
  pose proof (NoDup_app_remove_l _ _ Hnd) as HnF.
  apply in_app_or in Hin. destruct Hin as [Hin|Hin].
  - rewrite finsert_id
      by (intros Hx; eapply (NoDup_app_disjoint _ _ _ Hnd); eauto).
    rewrite (Ht Hnt Hin). reflexivity.
  - rewrite tinsert_id
      by (intros Hx; eapply (NoDup_app_disjoint _ _ _ Hnd); eauto).
    rewrite (IH HnF Hin). symmetry. apply Permutation_middle.
Qed.

Lemma tinsert_perm (lp l : loc) (t : tree) :
  NoDup (flatten t) -> In lp (flatten t) ->
  Permutation (flatten (tinsert lp l t)) (l :: flatten t).
Proof.
  induction t as [a kids IH] using tree_ind'.
  intros Hnd Hin. rewrite tinsert_unfold. simpl flatten.
  simpl in Hnd. inversion Hnd as [|? ? Hnotin Hndk]; subst.
  rewrite flat_map_app.
  destruct (Nat.eqb_spec a lp) as [E|Hne].
  - subst lp. rewrite finsert_id by exact Hnotin. simpl.
    change (Permutation ((a :: flat_map flatten kids) ++ [l])
              ([l] ++ (a :: flat_map flatten kids))).
    apply Permutation_app_comm.
  - simpl. rewrite app_nil_r. destruct Hin as [E|Hin]; [congruence|].
    rewrite (finsert_perm_aux lp l kids IH Hndk Hin). apply perm_swap.
Qed.

Lemma finsert_perm (lp l : loc) (F : list tree) :
  NoDup (flat_map flatten F) -> In lp (flat_map flatten F) ->
  Permutation (flat_map flatten (map (tinsert lp l) F)) (l :: flat_map flatten F).
Proof.
  apply finsert_perm_aux. apply Forall_forall. intros t _. apply tinsert_perm.
Qed.

Lemma subtrees_tinsert (lp l : loc) (t s' : tree) :
  In s' (subtrees (tinsert lp l t)) ->
  s' = T l [] \/ exists s, In s (subtrees t) /\ s' = tinsert lp l s.
Proof.
  induction t as [a kids IH] using tree_ind'.
  rewrite tinsert_unfold. simpl. intros [<-|Hin].
  - right. exists (T a kids). split; [auto | reflexivity].
  - rewrite flat_map_app in Hin. apply in_app_or in Hin.
    destruct Hin as [Hin|Hin].
    + apply in_flat_map in Hin. destruct Hin as (k' & Hk' & Hs').
      apply in_map_iff in Hk'. destruct Hk' as (k & <- & Hk).
      rewrite Forall_forall in IH.
      destruct (IH k Hk Hs') as [E|(s & Hs & E)]; [auto|].
      right. exists s. split; [|exact E]. right. apply in_flat_map. eauto.
    + destruct (Nat.eqb a lp); simpl in Hin; [|destruct Hin].
      destruct Hin as [<-|[]]. auto.
Qed.

Lemma fsubtrees_finsert (lp l : loc) (F : list tree) (s' : tree) :
  In s' (flat_map subtrees (map (tinsert lp l) F)) ->
  s' = T l [] \/ exists s, In s (flat_map subtrees F) /\ s' = tinsert lp l s.
Proof.
  intros Hin. apply in_flat_map in Hin. destruct Hin as (t' & Ht' & Hs').
  apply in_map_iff in Ht'. destruct Ht' as (t & <- & Ht).
  destruct (subtrees_tinsert lp l t s' Hs') as [E|(s & Hs & E)]; [auto|].
  right. exists s. split; [|exact E]. apply in_flat_map. eauto.
Qed.

(** *** Adding a node to a well-shaped document *)

Lemma values_app (d1 d2 : dict loc) : values (d1 ++ d2) = values d1 ++ values d2.
Proof. apply map_app. Qed.

Lemma keys_app (d1 d2 : dict loc) : keys (d1 ++ d2) = keys d1 ++ keys d2.
Proof. apply map_app. Qed.

Lemma NoDup_snoc {A : Type} (l : list A) (a : A) :
  NoDup l -> ~ In a l -> NoDup (l ++ [a]).
Proof.
  intros Hnd Hn. apply (Permutation_NoDup (l := a :: l)).
  - change (Permutation ([a] ++ l) (l ++ [a])). apply Permutation_app_comm.
  - constructor; assumption.
Qed.

Section InsertShape.
Variables (h : heap) (m : SimpleMindMap) (F : list tree) (n : SimpleMindNode).
Hypothesis Hs : doc_shape h m F.
Hypothesis Hc : Node.children n = [].
Hypothesis Hfresh : ~ In (Node.id n) (keys (Map.nodes m)).

Let l := length h.
Let h0 := h ++ [n].
Let d' := dict_set (Node.id n) l (Map.nodes m).

Lemma ins_old (x : loc) : In x (flat_map flatten F) -> x < l.
Proof. apply (shape_valid h m F Hs). Qed.

Lemma ins_l_fresh : ~ In l (flat_map flatten F).
Proof. intros H. apply ins_old in H. lia. Qed.

Lemma ins_dict : d' = Map.nodes m ++ [(Node.id n, l)].
Proof. apply dict_set_fresh, Hfresh. Qed.

Lemma ins_keys : NoDup (keys d').
Proof.
  rewrite ins_dict, keys_app. apply NoDup_snoc; [apply Hs | exact Hfresh].
Qed.

Lemma ins_deref0 : deref h0 l = Some n.
Proof. apply (deref_alloc_new h n). Qed.

Lemma ins_deref0_old (x : loc) : x < l -> deref h0 x = deref h x.
Proof. apply (deref_alloc_old h n). Qed.

Section Child.
Variable lp : loc.
Hypothesis Hp : Node.parent_id n <> ROOT_PARENT.
Hypothesis Hg : get_node m (Node.parent_id n) = Some lp.

Let hB :=
  mutate lp (fun p => Node.set_children (Node.children p ++ [l]) p) h0.
Let mB := Map.set_nodes d' m.

Lemma ins_lp_in : In lp (flat_map flatten F).
Proof.
  apply (shape_value_iff h m F Hs). eapply get_node_In_values, Hg.
Qed.

Lemma ins_lp_id : id_at h lp = Node.parent_id n.
Proof.
  destruct (shape_get_node h m F Hs _ _ Hg) as (_ & np & Hnp & Hid).
  unfold id_at. rewrite Hnp. exact Hid.
Qed.

Lemma ins_add_node : add_node h0 m l = (hB, mB).
Proof.
  unfold add_node. rewrite ins_deref0.
  apply pystr_eqb_neq in Hp. rewrite Hp. simpl.
  rewrite dict_get_set_ne; [unfold get_node in Hg; rewrite Hg; reflexivity|].
  intros E. apply Hfresh. rewrite E.
  eapply dict_get_Some_key, Hg.
Qed.

Lemma ins_deref_old (x : loc) (nx : SimpleMindNode) :
  deref h x = Some nx ->
  deref hB x =
  Some (if Nat.eqb lp x
        then Node.set_children (Node.children nx ++ [l]) nx else nx).
Proof.
  intros Hx. unfold hB. rewrite deref_mutate.
  rewrite ins_deref0_old by (eapply deref_lt, Hx). rewrite Hx. reflexivity.
Qed.

Lemma ins_deref_new : deref hB l = Some n.
Proof.
  unfold hB. rewrite deref_mutate_ne; [apply ins_deref0|].
  pose proof (ins_old lp ins_lp_in). lia.
Qed.

Lemma ins_id_old (x : loc) : x < l -> id_at hB x = id_at h x.
Proof.
  intros Hx. unfold id_at.
  destruct (deref h x) as [nx|] eqn:E.
  - rewrite (ins_deref_old x nx E). destruct (Nat.eqb lp x); reflexivity.
  - apply nth_error_None in E. unfold l in Hx. lia.
Qed.

Lemma ins_parent_old (x : loc) : x < l -> parent_at hB x = parent_at h x.
Proof.
  intros Hx. unfold parent_at.
  destruct (deref h x) as [nx|] eqn:E.
  - rewrite (ins_deref_old x nx E). destruct (Nat.eqb lp x); reflexivity.
  - apply nth_error_None in E. unfold l in Hx. lia.
Qed.

Lemma ins_obj (u : tree) :
  In u (flat_map subtrees F) -> obj_ok hB (tinsert lp l u).
Proof.
  intros Hu. destruct (shape_subtree_obj h m F Hs u Hu) as (nu & Hnu & Hcu).
  destruct u as [x kidsu]. simpl in Hnu, Hcu.
  unfold obj_ok. rewrite tinsert_unfold. simpl.
  rewrite (ins_deref_old x nu Hnu).
  rewrite map_app, roots_tinsert, (Nat.eqb_sym x lp).
  destruct (Nat.eqb lp x); eexists; split; try reflexivity; simpl.
  - rewrite Hcu. reflexivity.
  - rewrite app_nil_r. exact Hcu.
Qed.

Lemma ins_link (u : tree) :
  In u (flat_map subtrees F) -> link_ok hB (tinsert lp l u).
Proof.
  intros Hu c' Hc'. rewrite root_of_tinsert.
  assert (Hx : root_of u < l) by (apply ins_old, fsubtree_root_in, Hu).
  rewrite (ins_id_old _ Hx).
  destruct u as [x kidsu]. rewrite tinsert_unfold in Hc'. simpl in Hc'.
  apply in_app_or in Hc'. destruct Hc' as [Hc'|Hc'].
  - apply in_map_iff in Hc'. destruct Hc' as (c & <- & Hcin).
    rewrite root_of_tinsert.
    assert (Hcl : root_of c < l).
    { apply ins_old, fsubtree_root_in.
      eapply fsubtree_trans; [exact Hu | apply subtrees_kid, Hcin]. }
    rewrite (ins_parent_old _ Hcl).
    apply (shape_subtree_link h m F Hs _ Hu c Hcin).
  - simpl. destruct (Nat.eqb_spec x lp) as [->|]; [|destruct Hc'].
    destruct Hc' as [<-|[]]. simpl.
    unfold parent_at. rewrite ins_deref_new, ins_lp_id. auto.
Qed.

Lemma ins_child_shape : doc_shape hB mB (map (tinsert lp l) F).
Proof.
  constructor.
  - apply Forall_forall. intros u' Hu'.
    destruct (fsubtrees_finsert lp l F u' Hu') as [->|(u & Hu & ->)].
    + exists n. split; [apply ins_deref_new | exact Hc].
    + apply ins_obj, Hu.
  - apply Forall_forall. intros u' Hu'.
    destruct (fsubtrees_finsert lp l F u' Hu') as [->|(u & Hu & ->)].
    + intros c []. 
    + apply ins_link, Hu.
  - apply Forall_forall. intros t' Ht'.
    apply in_map_iff in Ht'. destruct Ht' as (t & <- & Ht).
    rewrite root_of_tinsert.
    assert (Hx : root_of t < l).
    { apply ins_old. apply in_flat_map. exists t.
      split; [exact Ht | apply flatten_root]. }
    rewrite (ins_parent_old _ Hx).
    pose proof (ds_tops _ _ _ Hs) as Htop. rewrite Forall_forall in Htop.
    apply Htop, Ht.
  - rewrite roots_tinsert, <- (ds_root_nodes _ _ _ Hs), !root_nodes_alt.
    unfold mB. simpl. rewrite ins_dict, values_app, filter_app. simpl.
    unfold parent_at at 2. rewrite ins_deref_new.
    apply pystr_eqb_neq in Hp. rewrite Hp, app_nil_r.
    apply filter_ext_in. intros x Hx. rewrite ins_parent_old; [reflexivity|].
    apply ins_old, (shape_value_iff h m F Hs), Hx.
  - apply (Permutation_NoDup (l := l :: flat_map flatten F)).
    + symmetry. apply finsert_perm; [apply Hs | apply ins_lp_in].
    + constructor; [apply ins_l_fresh | apply Hs].
  - unfold mB. simpl. rewrite ins_dict, values_app. simpl.
    rewrite (finsert_perm lp l F (ds_nodup _ _ _ Hs) ins_lp_in).
    rewrite <- (ds_values _ _ _ Hs).
    change (Permutation (values (Map.nodes m) ++ [l])
              ([l] ++ values (Map.nodes m))).
    apply Permutation_app_comm.
  - apply ins_keys.
  - intros key v Hin. unfold mB in Hin. simpl in Hin.
    rewrite ins_dict in Hin. apply in_app_or in Hin.
    destruct Hin as [Hin|[[= <- <-]|[]]].
    + destruct (ds_entries _ _ _ Hs _ _ Hin) as (nv & Hnv & Hid).
      rewrite (ins_deref_old v nv Hnv).
      destruct (Nat.eqb lp v); eexists; split; try reflexivity; exact Hid.
    + exists n. split; [apply ins_deref_new | reflexivity].
Qed.
End Child.

Section Root.
Hypothesis Hp : Node.parent_id n = ROOT_PARENT.

Let mR := Map.set_root_node (Some l) (Map.set_nodes d' m).

Lemma ins_root_add_node : add_node h0 m l = (h0, mR).
Proof.
  unfold add_node. rewrite ins_deref0, Hp, pystr_eqb_refl. reflexivity.
Qed.

Lemma ins_root_id_old (x : loc) : x < l -> id_at h0 x = id_at h x.
Proof. intros Hx. unfold id_at. rewrite ins_deref0_old by exact Hx. reflexivity. Qed.

Lemma ins_root_parent_old (x : loc) : x < l -> parent_at h0 x = parent_at h x.
Proof.
  intros Hx. unfold parent_at. rewrite ins_deref0_old by exact Hx. reflexivity.
Qed.

Lemma ins_root_shape : doc_shape h0 mR (F ++ [T l []]).
Proof.
  assert (Hsub : flat_map subtrees (F ++ [T l []])
                 = flat_map subtrees F ++ [T l []])
    by (rewrite flat_map_app; reflexivity).
  assert (Hflat : flat_map flatten (F ++ [T l []]) = flat_map flatten F ++ [l])
    by (rewrite flat_map_app; reflexivity).
  assert (Hlt : forall u, In u (flat_map subtrees F) -> root_of u < l)
    by (intros u Hu; apply ins_old, fsubtree_root_in, Hu).
  constructor.
  - rewrite Hsub. apply Forall_app. split.
    + apply Forall_forall. intros u Hu.
      destruct (shape_subtree_obj h m F Hs u Hu) as (nu & Hnu & Hcu).
      exists nu. split; [|exact Hcu].
      rewrite ins_deref0_old by (apply Hlt, Hu). exact Hnu.
    + constructor; [|constructor].
      exists n. split; [apply ins_deref0 | exact Hc].
  - rewrite Hsub. apply Forall_app. split.
    + apply Forall_forall. intros u Hu k Hk.
      rewrite ins_root_id_old by (apply Hlt, Hu).
      rewrite ins_root_parent_old.
      * apply (shape_subtree_link h m F Hs u Hu k Hk).
      * apply Hlt. eapply fsubtree_trans; [exact Hu | apply subtrees_kid, Hk].
    + constructor; [|constructor]. intros k' [].
  - apply Forall_app. split.
    + pose proof (ds_tops _ _ _ Hs) as Htop. rewrite Forall_forall in Htop.
      apply Forall_forall. intros t Ht. rewrite ins_root_parent_old.
      * apply Htop, Ht.
      * apply ins_old. apply in_flat_map. exists t.
        split; [exact Ht | apply flatten_root].
    + constructor; [|constructor].
      simpl. unfold parent_at. rewrite ins_deref0. exact Hp.
  - rewrite map_app, <- (ds_root_nodes _ _ _ Hs), !root_nodes_alt.
    unfold mR. simpl. rewrite ins_dict, values_app, filter_app. simpl.
    unfold parent_at at 2. rewrite ins_deref0, Hp, pystr_eqb_refl.
    f_equal. apply filter_ext_in. intros x Hx.
    rewrite ins_root_parent_old; [reflexivity|].
    apply ins_old, (shape_value_iff h m F Hs), Hx.
  - rewrite Hflat. apply NoDup_snoc; [apply Hs | apply ins_l_fresh].
  - unfold mR. simpl. rewrite ins_dict, values_app, Hflat. simpl.
    apply Permutation_app_tail, (ds_values _ _ _ Hs).
  - apply ins_keys.
  - intros key v Hin. unfold mR in Hin. simpl in Hin.
    rewrite ins_dict in Hin. apply in_app_or in Hin.
    destruct Hin as [Hin|[[= <- <-]|[]]].
    + destruct (ds_entries _ _ _ Hs _ _ Hin) as (nv & Hnv & Hid).
      exists nv. split; [|exact Hid].
      rewrite ins_deref0_old by (eapply deref_lt, Hnv). exact Hnv.
    + exists n. split; [apply ins_deref0 | reflexivity].
Qed.
End Root.
End InsertShape.

(** ** int(str(z)) = z *)

Lemma digit_val_char (d : Z) :
  (0 <= d < 10)%Z -> digit_val (digit_char d) = Some d.
Proof.
  intros H.
  assert (E : (d = 0 \/ d = 1 \/ d = 2 \/ d = 3 \/ d = 4 \/ d = 5 \/ d = 6
               \/ d = 7 \/ d = 8 \/ d = 9)%Z) by lia.
  repeat (destruct E as [->|E]; [reflexivity|]). subst. reflexivity.
Qed.

Lemma digit_not_space (c : ascii) :
  digit_val c <> None -> is_space c = false.
Proof.
  unfold digit_val, is_space. intros H.
  destruct (Nat.leb 48 (nat_of_ascii c)) eqn:E1; [|simpl in H; congruence].
  destruct (Nat.leb (nat_of_ascii c) 57) eqn:E2; [|simpl in H; congruence].
  apply Nat.leb_le in E1, E2.
  assert (H9 : Nat.leb (nat_of_ascii c) 13 = false) by (apply Nat.leb_gt; lia).
  assert (H28 : Nat.leb (nat_of_ascii c) 32 = false) by (apply Nat.leb_gt; lia).
  rewrite H9, H28, !andb_false_r. reflexivity.
Qed.

Fixpoint all_chars (P : ascii -> Prop) (s : string) : Prop :=
  match s with
  | EmptyString => True
  | String c r => P c /\ all_chars P r
  end.

Lemma str_digits_chars (f : nat) (n : Z) (acc : string) :
  all_chars (fun c => digit_val c <> None) acc ->
  all_chars (fun c => digit_val c <> None) (str_digits f n acc).
Proof.
  revert n acc. induction f as [|f IH]; intros n acc Hacc; simpl; [exact Hacc|].
  assert (Hd : digit_val (digit_char (n mod 10)) <> None).
  { rewrite digit_val_char; [discriminate|]. apply Z.mod_pos_bound. lia. }
  destruct (n <? 10)%Z; [simpl; auto|]. apply IH. simpl. auto.
Qed.

Lemma lstrip_id (c : ascii) (r : string) :
  is_space c = false -> lstrip (String c r) = String c r.
Proof. intros H. simpl. rewrite H. reflexivity. Qed.

Lemma rstrip_id (s : string) :
  all_chars (fun c => is_space c = false) s -> rstrip s = s.
Proof.
  induction s as [|c r IH]; simpl; [reflexivity|]. intros [Hc Hr].
  rewrite (IH Hr). destruct r; [rewrite Hc|]; reflexivity.
Qed.

Lemma all_chars_impl (P Q : ascii -> Prop) (s : string) :
  (forall c, P c -> Q c) -> all_chars P s -> all_chars Q s.
Proof. intros H. induction s; simpl; intuition. Qed.

Lemma str_digits_S (f : nat) (n : Z) (acc : string) :
  str_digits (S f) n acc =
  if (n <? 10)%Z then String (digit_char (n mod 10)) acc
  else str_digits f (n / 10) (String (digit_char (n mod 10)) acc).
Proof. reflexivity. Qed.

Lemma int_digits_digit (c : ascii) (r : string) (a d : Z) (b : bool) :
  digit_val c = Some d ->
  int_digits (String c r) a b = int_digits r (10 * a + d) true.
Proof.
  intros H.
  change (int_digits (String c r) a b)
    with (match digit_val c with
          | Some d' => int_digits r (10 * a + d') true
          | None =>
              if Ascii.eqb c "_" && b then int_digits r a false else None
          end).
  rewrite H. reflexivity.
Qed.

Lemma int_digits_str_digits (f : nat) :
  forall n acc, (0 <= n < 2 ^ Z.of_nat (S f))%Z ->
  exists k, forall a b,
    int_digits (str_digits (S f) n acc) a b
    = int_digits acc (a * 10 ^ Z.of_nat k + n) true.
Proof.
  induction f as [|f IH]; intros n acc Hn; rewrite str_digits_S.
  - assert (Hn2 : (0 <= n < 2)%Z) by exact Hn.
    destruct (Z.ltb_spec n 10) as [_|Hge]; [|lia].
    exists 1%nat. intros a b.
    rewrite (int_digits_digit _ _ a n b)
      by (rewrite Z.mod_small by lia; apply digit_val_char; lia).
    f_equal. change (10 ^ Z.of_nat 1)%Z with 10%Z. lia.
  - destruct (Z.ltb_spec n 10) as [Hlt|Hge].
    + exists 1%nat. intros a b.
      rewrite (int_digits_digit _ _ a n b)
        by (rewrite Z.mod_small by lia; apply digit_val_char; lia).
      f_equal. change (10 ^ Z.of_nat 1)%Z with 10%Z. lia.
    + assert (Hpow : (2 ^ Z.of_nat (S (S f)) = 2 * 2 ^ Z.of_nat (S f))%Z).
      { rewrite (Nat2Z.inj_succ (S f)). apply Z.pow_succ_r. lia. }
      rewrite Hpow in Hn. set (P := (2 ^ Z.of_nat (S f))%Z) in *.
      assert (Hq : (0 <= n / 10 < P)%Z).
      { split; [apply Z.div_pos; lia|].
        apply Z.div_lt_upper_bound; lia. }
      destruct (IH (n / 10)%Z (String (digit_char (n mod 10)) acc) Hq) as [k Hk].
      exists (S k). intros a b. rewrite Hk.
      rewrite (int_digits_digit _ _ _ (n mod 10) true)
        by (apply digit_val_char, Z.mod_pos_bound; lia).
      f_equal.
      assert (Hp10 : (10 ^ Z.of_nat (S k) = 10 * 10 ^ Z.of_nat k)%Z).
      { rewrite Nat2Z.inj_succ. apply Z.pow_succ_r. lia. }
      rewrite Hp10. set (Q := (10 ^ Z.of_nat k)%Z).
      pose proof (Z.div_mod n 10 ltac:(lia)). lia.
Qed.

Lemma str_digits_nonempty (f : nat) (n : Z) (acc : string) :
  acc <> EmptyString -> str_digits f n acc <> EmptyString.
Proof.
  revert n acc. induction f as [|f IH]; intros n acc Hacc; [exact Hacc|].
  rewrite str_digits_S. destruct (n <? 10)%Z; [discriminate|].
  apply IH. discriminate.
Qed.

Lemma str_nat_spec (n : Z) :
  (0 <= n)%Z ->
  int_digits (str_nat n) 0 false = Some n
  /\ all_chars (fun c => digit_val c <> None) (str_nat n)
  /\ str_nat n <> EmptyString.
Proof.
  intros Hn. unfold str_nat. split; [|split].
  - destruct (int_digits_str_digits (Z.to_nat (Z.log2 n)) n EmptyString) as [k Hk].
    { split; [exact Hn|]. rewrite Nat2Z.inj_succ, Z2Nat.id by apply Z.log2_nonneg.
      destruct (Z.eq_dec n 0) as [->|Hne]; [reflexivity|].
      apply Z.log2_spec. lia. }
    rewrite Hk. cbn [int_digits]. apply f_equal. lia.
  - apply str_digits_chars. exact I.
  - rewrite str_digits_S. destruct (n <? 10)%Z; [discriminate|].
    apply str_digits_nonempty. discriminate.
Qed.

Lemma py_int_first_char (c : ascii) (r : string) :
  digit_val c <> None ->
  all_chars (fun c => digit_val c <> None) r ->
  py_int (Some (String c r)) =
  match int_digits (String c r) 0 false with
  | Some z => Ok z
  | None => Raise ValueError
  end.
Proof.
  intros Hc Hr. unfold py_int, strip.
  rewrite lstrip_id by (apply digit_not_space, Hc).
  rewrite rstrip_id.
  - destruct c as [[] [] [] [] [] [] [] []]; try reflexivity;
      exfalso; apply Hc; reflexivity.
  - simpl. split; [apply digit_not_space, Hc|].
    eapply all_chars_impl; [|exact Hr]. apply digit_not_space.
Qed.

Lemma py_int_py_str (z : Z) : py_int (Some (py_str z)) = Ok z.
Proof.
  unfold py_str. destruct (Z.ltb_spec z 0) as [Hneg|Hpos].
  - destruct (str_nat_spec (- z)) as (Hd & Hc & Hne); [lia|].
    destruct (str_nat (- z)) as [|c r] eqn:E; [congruence|].
    unfold py_int, strip. rewrite lstrip_id by reflexivity.
    rewrite rstrip_id.
    + rewrite Hd. simpl. f_equal. lia.
    + simpl. split; [reflexivity|]. simpl in Hc. destruct Hc as [Hc1 Hc2].
      split; [apply digit_not_space, Hc1|].
      eapply all_chars_impl; [|exact Hc2]. apply digit_not_space.
  - destruct (str_nat_spec z Hpos) as (Hd & Hc & Hne).
    destruct (str_nat z) as [|c r] eqn:E; [congruence|].
    simpl in Hc. destruct Hc as [Hc1 Hc2].
    rewrite (py_int_first_char c r Hc1 Hc2), Hd. reflexivity.
Qed.

Example py_str_examples :
  py_str 0 = "0" /\ py_str 42 = "42" /\ py_str (-7) = "-7"
  /\ py_int (Some " 12_3 ") = Ok 123%Z /\ py_int (Some "+5") = Ok 5%Z
  /\ py_int (Some "1__2") = Raise ValueError /\ py_int (Some "") = Raise ValueError
  /\ py_int (Some "abc") = Raise ValueError.
Proof. repeat split. Qed.

(** ** C4: the tree invariants under the editing tools *)

(** The id of the root does not read as a negative integer. *)
Definition root_id_ok (h : heap) (t : tree) : Prop :=
  forall z, py_int (id_at h (root_of t)) = Ok z -> (0 <= z)%Z.

Lemma wf_root_key (h : heap) (m : SimpleMindMap) (t : tree) :
  well_formed h m t -> In (id_at h (root_of t)) (keys (Map.nodes m)).
Proof.
  intros Hw. pose proof (wf_shape _ _ _ Hw) as Hs.
  assert (Hv : In (root_of t) (values (Map.nodes m))).
  { apply (shape_value_iff h m [t] Hs). simpl. rewrite app_nil_r.
    apply flatten_root. }
  destruct (shape_value_entry h m [t] Hs _ Hv) as (n & Hn & He).
  unfold id_at. rewrite Hn. apply (in_map fst) in He. exact He.
Qed.

Lemma generated_id_fresh (h : heap) (m : SimpleMindMap) (t : tree)
    (new_id : string) :
  well_formed h m t -> root_id_ok h t ->
  generate_id m = Ok new_id ->
  ~ In (Some new_id) (keys (Map.nodes m)) /\ Some new_id <> ROOT_PARENT.
Proof.
  intros Hw Hroot Hid.
  destruct (generate_id_Ok m new_id Hid) as (top & [_ Hall] & ->).
  split.
  - intros Hin. destruct (Hall _ Hin) as (z & Hz & Hle).
    rewrite py_int_py_str in Hz. injection Hz as <-. lia.
  - intros E. unfold ROOT_PARENT in E. injection E as E.
    destruct (Hall _ (wf_root_key h m t Hw)) as (zr & Hzr & Hle).
    pose proof (Hroot zr Hzr) as Hpos.
    pose proof (py_int_py_str (top + 1)) as Hrt. rewrite E in Hrt.
    change (py_int (Some "-1")) with (@Ok Z (-1)%Z) in Hrt.
    injection Hrt as Hrt. lia.
Qed.

Lemma wf_tool_add_node (h : heap) (m : SimpleMindMap) (t : tree)
    (parent_id text : string) (notes : option string)
    (h' : heap) (m' : SimpleMindMap) (r : Response) :
  well_formed h m t -> root_id_ok h t ->
  tool_add_node h m parent_id text notes = Written h' m' r ->
  exists lp,
    well_formed h' m' (tinsert lp (length h) t)
    /\ id_at h' (root_of t) = id_at h (root_of t).
Proof.
  intros Hw Hroot Hrun. pose proof (wf_shape _ _ _ Hw) as Hs.
  destruct (get_node m (Some parent_id)) as [lp|] eqn:Hg;
    [|unfold tool_add_node in Hrun; rewrite Hg in Hrun; discriminate].
  destruct (deref h lp) as [parent|] eqn:Hd;
    [|unfold tool_add_node in Hrun; rewrite Hg, Hd in Hrun; discriminate].
  destruct (generate_id m) as [new_id|e] eqn:Hid;
    [|unfold tool_add_node in Hrun; rewrite Hg, Hd, Hid in Hrun; discriminate].
  rewrite (tool_add_node_written h m parent_id text notes lp parent new_id
             Hg Hd Hid) in Hrun.
  destruct (generated_id_fresh h m t new_id Hw Hroot Hid) as [Hfresh Hnm].
  set (n := Node.init (Some new_id) text (Some parent_id) _ _ _ _) in Hrun.
  assert (Hpn : Node.parent_id n <> ROOT_PARENT).
  { simpl. intros E. apply (wf_marker _ _ _ Hw). rewrite <- E.
    eapply dict_get_Some_key, Hg. }
  rewrite (ins_add_node h m n Hfresh lp Hpn Hg) in Hrun.
  simpl in Hrun. injection Hrun as <- <- _.
  exists lp. split.
  - constructor.
    + apply (ins_child_shape h m [t] n Hs eq_refl Hfresh lp Hpn Hg).
    + simpl. rewrite root_of_tinsert. apply (wf_root _ _ _ Hw).
    + simpl. rewrite (dict_set_fresh _ _ _ _ Hfresh), keys_app, in_app_iff.
      simpl. intros [Hin|[E|[]]]; [apply (wf_marker _ _ _ Hw), Hin|].
      apply Hnm. exact E.
  - apply ins_id_old. apply (shape_valid h m [t] Hs).
    simpl. rewrite app_nil_r. apply flatten_root.
Qed.

(** Two stores that agree on ids, parent ids and children lists. *)
Definition skel_eq (h h' : heap) : Prop :=
  forall x,
    id_at h' x = id_at h x
    /\ parent_at h' x = parent_at h x
    /\ option_map Node.children (deref h' x) = option_map Node.children (deref h x).

Lemma skel_eq_refl (h : heap) : skel_eq h h.
Proof. intros x. auto. Qed.

Lemma skel_eq_trans (h1 h2 h3 : heap) :
  skel_eq h1 h2 -> skel_eq h2 h3 -> skel_eq h1 h3.
Proof.
  intros H12 H23 x. destruct (H12 x) as (A1 & B1 & C1).
  destruct (H23 x) as (A2 & B2 & C2). repeat split; congruence.
Qed.

Lemma skel_eq_mutate (h : heap) (l : loc) (f : SimpleMindNode -> SimpleMindNode) :
  (forall n, Node.id (f n) = Node.id n
             /\ Node.parent_id (f n) = Node.parent_id n
             /\ Node.children (f n) = Node.children n) ->
  skel_eq h (mutate l f h).
Proof.
  intros Hf x. unfold id_at, parent_at. rewrite deref_mutate.
  destruct (deref h x) as [n|]; [|auto].
  destruct (Nat.eqb l x); [|auto].
  destruct (Hf n) as (A & B & C). simpl. repeat split; congruence.
Qed.

Lemma doc_shape_skel (h h' : heap) (m : SimpleMindMap) (F : list tree) :
  skel_eq h h' -> doc_shape h m F -> doc_shape h' m F.
Proof.
  intros Hk Hs.
  assert (Hderef : forall x n, deref h x = Some n ->
            exists n', deref h' x = Some n'
                       /\ Node.children n' = Node.children n
                       /\ Node.id n' = Node.id n).
  { intros x n Hn. destruct (Hk x) as (A & _ & C).
    unfold id_at in A. rewrite Hn in A, C.
    destruct (deref h' x) as [n'|]; [|discriminate].
    simpl in C. injection C as C. eauto. }
  constructor.
  - apply Forall_forall. intros s Hin.
    destruct (shape_subtree_obj h m F Hs s Hin) as (n & Hn & Hc).
    destruct (Hderef _ _ Hn) as (n' & Hn' & Hc' & _).
    exists n'. split; [exact Hn' | congruence].
  - apply Forall_forall. intros s Hin k Hkid.
    destruct (Hk (root_of k)) as (_ & B & _).
    destruct (Hk (root_of s)) as (A & _ & _).
    rewrite A, B. apply (shape_subtree_link h m F Hs s Hin k Hkid).
  - pose proof (ds_tops _ _ _ Hs) as Ht. rewrite Forall_forall in Ht.
    apply Forall_forall. intros t Hin.
    destruct (Hk (root_of t)) as (_ & B & _). rewrite B. apply Ht, Hin.
  - rewrite <- (ds_root_nodes _ _ _ Hs), !root_nodes_alt.
    apply filter_ext. intros x. destruct (Hk x) as (_ & B & _).
    rewrite B. reflexivity.
  - apply Hs.
  - apply Hs.
  - apply Hs.
  - intros key l Hin. destruct (ds_entries _ _ _ Hs _ _ Hin) as (n & Hn & Hid).
    destruct (Hderef _ _ Hn) as (n' & Hn' & _ & Hid').
    exists n'. split; [exact Hn' | congruence].
Qed.

Lemma tool_update_node_skel (h : heap) (m : SimpleMindMap) (node_id : string)
    (new_text new_notes : option string)
    (h' : heap) (m' : SimpleMindMap) (r : Response) :
  tool_update_node h m node_id new_text new_notes = Written h' m' r ->
  m' = m /\ skel_eq h h'.
Proof.
  unfold tool_update_node.
  destruct (negb (truthy_arg new_text) && negb (truthy_arg new_notes));
    [discriminate|].
  destruct (get_node m (Some node_id)) as [l|]; [|discriminate].
  assert (Ht : forall s, skel_eq h (mutate l (Node.set_text s) h))
    by (intros s; apply skel_eq_mutate; intros n; auto).
  assert (Hn : forall s h0, skel_eq h0 (mutate l (Node.set_notes s) h0))
    by (intros s h0; apply skel_eq_mutate; intros n; auto).
  destruct new_text as [t|]; [destruct (truthy t)|];
    destruct new_notes as [s|]; intros [= <- <- _]; split; try reflexivity;
    try apply skel_eq_refl; try apply Ht; try apply Hn;
    (eapply skel_eq_trans; [apply Ht | apply Hn]).
Qed.

Lemma wf_tool_update_node (h : heap) (m : SimpleMindMap) (t : tree)
    (node_id : string) (new_text new_notes : option string)
    (h' : heap) (m' : SimpleMindMap) (r : Response) :
  well_formed h m t ->
  tool_update_node h m node_id new_text new_notes = Written h' m' r ->
  well_formed h' m' t /\ id_at h' (root_of t) = id_at h (root_of t).
Proof.
  intros Hw Hrun.
  destruct (tool_update_node_skel h m node_id new_text new_notes h' m' r Hrun)
    as [-> Hk].
  split; [|apply Hk].
  constructor; [|apply Hw|apply Hw].
  apply (doc_shape_skel h h' m [t] Hk), Hw.
Qed.

Lemma wf_tool_delete_node (h : heap) (m : SimpleMindMap) (t : tree)
    (node_id : string) :
  well_formed h m t ->
  exists o,
    (forall fuel, length (Map.nodes m) <= fuel ->
       tool_delete_node fuel h m node_id = Some o)
    /\ match o with
       | Written h' m' _ =>
           well_formed h' m' (tremove (match get_node m (Some node_id) with
                                       | Some l => l | None => 0 end) t)
           /\ id_at h' (root_of t) = id_at h (root_of t)
       | Reply _ => True
       end.
Proof.
  intros Hw.
  destruct (get_node m (Some node_id)) as [l|] eqn:Hg.
  - destruct (wf_mapped_deref h m t _ l Hw Hg) as (n & Hn & _ & _).
    destruct (pystr_eqb_spec (Node.parent_id n) ROOT_PARENT) as [Hp|Hp].
    + exists (Reply CannotDeleteRoot). split; [|exact I].
      intros fuel _. unfold tool_delete_node. rewrite Hg, Hn, Hp. reflexivity.
    + destruct (wf_delete h m t node_id l n Hw Hg Hn Hp)
        as (s & k & Hsin & Hk & Hkl & _ & Hw' & Hperm & Hrun).
      eexists. split.
      * intros fuel Hf. apply Hrun.
        pose proof (height_le_length k).
        rewrite (wf_length h m t Hw), (Permutation_length Hperm), length_app in Hf.
        lia.
      * split; [exact Hw'|]. apply id_at_detach.
  - exists (Reply (NodeNotFound node_id)). split; [|exact I].
    intros fuel _. unfold tool_delete_node. rewrite Hg. reflexivity.
Qed.

(** The two properties of the claim: a mapped node is in the children of a
    mapped node exactly when it names that node as its parent, and every
    mapped node is reached from the root through children lists. *)
Definition tree_invariant (h : heap) (m : SimpleMindMap) : Prop :=
  (forall lp l p n,
      In lp (values (Map.nodes m)) -> In l (values (Map.nodes m)) ->
      deref h lp = Some p -> deref h l = Some n ->
      (In l (Node.children p) <-> Node.parent_id n = Node.id p))
  /\ exists r, Map.root_node m = Some r
               /\ forall l, In l (values (Map.nodes m)) -> reach h r l.

Lemma wf_tree_invariant (h : heap) (m : SimpleMindMap) (t : tree) :
  well_formed h m t -> tree_invariant h m.
Proof.
  intros Hw. pose proof (wf_shape _ _ _ Hw) as Hs. split.
  - intros lp l p n Hlp Hl Hp Hn.
    assert (Hlpf : In lp (flat_map flatten [t]))
      by (apply (shape_value_iff h m [t] Hs), Hlp).
    assert (Hlf : In l (flat_map flatten [t]))
      by (apply (shape_value_iff h m [t] Hs), Hl).
    split.
    + intros Hin. destruct (In_fflatten_subtree [t] lp Hlpf) as (s & Hsin & Es).
      destruct (shape_subtree_obj h m [t] Hs s Hsin) as (p' & Hp' & Hc).
      rewrite Es, Hp in Hp'. injection Hp' as <-.
      rewrite Hc in Hin. apply in_map_iff in Hin. destruct Hin as (k & Ek & Hk).
      destruct (shape_subtree_link h m [t] Hs s Hsin k Hk) as [E _].
      unfold parent_at, id_at in E. rewrite Ek, Es, Hn, Hp in E. exact E.
    + intros E.
      assert (Hpl : parent_at h l <> ROOT_PARENT).
      { unfold parent_at. rewrite Hn, E. intros Hr.
        apply (wf_marker _ _ _ Hw). rewrite <- Hr.
        destruct (shape_value_entry h m [t] Hs lp Hlp) as (p' & Hp' & He).
        assert (p' = p) by congruence. subst p'.
        apply (in_map fst) in He. exact He. }
      destruct (shape_parent_subtree h m [t] Hs l Hlf Hpl)
        as (s & k & Hsin & Hk & Ek).
      destruct (shape_subtree_link h m [t] Hs s Hsin k Hk) as [E' _].
      assert (root_of s = lp).
      { apply (shape_id_inj h m [t] Hs); [|exact Hlp|].
        - apply (shape_value_iff h m [t] Hs), fsubtree_root_in, Hsin.
        - rewrite <- E'. unfold parent_at, id_at. rewrite Ek, Hn, Hp. exact E. }
      destruct (shape_subtree_obj h m [t] Hs s Hsin) as (p' & Hp' & Hc).
      assert (p' = p) by congruence. subst p'.
      rewrite Hc, <- Ek. apply in_map, Hk.
  - exists (root_of t). split; [apply Hw|].
    intros l Hl. apply (shape_value_iff h m [t] Hs) in Hl.
    simpl in Hl. rewrite app_nil_r in Hl.
    apply subtree_reach; [|exact Hl].
    apply (shape_subtree_objs h m [t] Hs). simpl. rewrite app_nil_r.
    apply subtrees_self.
Qed.

(** The editing operations, and the document after each of them: the
    document the tool writes, or the unchanged one when the tool replies
    without writing. *)
Inductive edit : Type :=
| InsertChild (parent_id text : string) (notes : option string)
| UpdateNode (node_id : string) (text notes : option string)
| DeleteNode (node_id : string).

Definition after (h : heap) (m : SimpleMindMap) (o : outcome)
    : heap * SimpleMindMap :=
  match o with
  | Written h' m' _ => (h', m')
  | Reply _ => (h, m)
  end.

Definition apply_edit (d : heap * SimpleMindMap) (e : edit)
    : option (heap * SimpleMindMap) :=
  let (h, m) := d in
  match e with
  | InsertChild parent_id text notes =>
      Some (after h m (tool_add_node h m parent_id text notes))
  | UpdateNode node_id text notes =>
      Some (after h m (tool_update_node h m node_id text notes))
  | DeleteNode node_id =>
      match tool_delete_node (length (Map.nodes m)) h m node_id with
      | Some o => Some (after h m o)
      | None => None
      end
  end.

Fixpoint apply_edits (d : heap * SimpleMindMap) (es : list edit)
    : option (heap * SimpleMindMap) :=
  match es with
  | [] => Some d
  | e :: r =>
      match apply_edit d e with
      | Some d' => apply_edits d' r
      | None => None
      end
  end.

Lemma wf_apply_edit (h : heap) (m : SimpleMindMap) (t : tree) (e : edit) :
  well_formed h m t -> root_id_ok h t ->
  exists h' m' t',
    apply_edit (h, m) e = Some (h', m')
    /\ well_formed h' m' t' /\ root_id_ok h' t'.
Proof.
  intros Hw Hroot. destruct e as [pid txt nts | nid txt nts | nid]; simpl.
  - destruct (tool_add_node h m pid txt nts) as [h' m' r|r] eqn:E; simpl.
    + destruct (wf_tool_add_node h m t pid txt nts h' m' r Hw Hroot E)
        as (lp & Hw' & Hid).
      exists h', m', (tinsert lp (length h) t).
      split; [reflexivity|]. split; [exact Hw'|].
      intros z. rewrite root_of_tinsert, Hid. apply Hroot.
    + exists h, m, t. auto.
  - destruct (tool_update_node h m nid txt nts) as [h' m' r|r] eqn:E; simpl.
    + destruct (wf_tool_update_node h m t nid txt nts h' m' r Hw E) as [Hw' Hid].
      exists h', m', t.
      split; [reflexivity|]. split; [exact Hw'|]. intros z. rewrite Hid. apply Hroot.
    + exists h, m, t. auto.
  - destruct (wf_tool_delete_node h m t nid Hw) as (o & Hrun & Ho).
    rewrite (Hrun _ (le_n _)). destruct o as [h' m' r|r]; simpl.
    + destruct Ho as [Hw' Hid]. do 3 eexists. split; [reflexivity|].
      split; [exact Hw'|]. intros z.
      rewrite root_of_tremove, Hid. apply Hroot.
    + exists h, m, t. auto.
Qed.



(** A document whose root has the id "-2". *)
Definition negative_root_sample : heap * SimpleMindMap :=
  build_map [Node.init (Some "-2") "Root" ROOT_PARENT 0 0 "" "ROOT"].


(** ** C1: writing a document and reading it back *)

(** Nodes as [SimpleMindNode(...)] makes them, handed to [add_node] in an
    order that honours the invariants: ids are strings, no id is used
    twice, and a node that is not a root comes after its parent.  [ks] are
    the ids already in the mapping. *)
Inductive buildable : list pystr -> list SimpleMindNode -> Prop :=
| buildable_nil ks : buildable ks []
| buildable_cons ks n ns :
    Node.children n = [] ->
    Node.id n <> None ->
    ~ In (Node.id n) ks ->
    Node.parent_id n = ROOT_PARENT \/ In (Node.parent_id n) ks ->
    buildable (ks ++ [Node.id n]) ns ->
    buildable ks (n :: ns).

Lemma build_cons (n : SimpleMindNode) (ns : list SimpleMindNode)
    (h : heap) (m : SimpleMindMap) :
  build (n :: ns) h m =
  build ns (fst (add_node (h ++ [n]) m (length h)))
           (snd (add_node (h ++ [n]) m (length h))).
Proof. simpl. destruct (add_node (h ++ [n]) m (length h)). reflexivity. Qed.

Lemma add_node_keys_fresh (h : heap) (m : SimpleMindMap) (n : SimpleMindNode) :
  ~ In (Node.id n) (keys (Map.nodes m)) ->
  keys (Map.nodes (snd (add_node (h ++ [n]) m (length h))))
  = keys (Map.nodes m) ++ [Node.id n].
Proof.
  intros Hf. unfold add_node.
  rewrite (deref_alloc_new h n : deref (h ++ [n]) (length h) = Some n).
  assert (E : keys (dict_set (Node.id n) (length h) (Map.nodes m))
              = keys (Map.nodes m) ++ [Node.id n])
    by (rewrite (dict_set_fresh _ _ _ _ Hf), keys_app; reflexivity).
  destruct (pystr_eqb (Node.parent_id n) ROOT_PARENT); simpl; [exact E|].
  destruct (dict_get _ _); simpl; exact E.
Qed.

Lemma build_shape (ns : list SimpleMindNode) :
  forall h m F,
    doc_shape h m F -> buildable (keys (Map.nodes m)) ns ->
    exists F',
      doc_shape (fst (build ns h m)) (snd (build ns h m)) F'
      /\ keys (Map.nodes (snd (build ns h m)))
         = keys (Map.nodes m) ++ map Node.id ns.
Proof.
  induction ns as [|n ns IH]; intros h m F Hs Hb.
  - exists F. simpl. rewrite app_nil_r. auto.
  - inversion Hb as [|ks n' ns' Hc Hid Hfresh Hpar Hrest]; subst.
    rewrite build_cons.
    assert (Hk := add_node_keys_fresh h m n Hfresh).
    destruct (pystr_eqb_spec (Node.parent_id n) ROOT_PARENT) as [Hp|Hp].
    + pose proof (ins_root_shape h m F n Hs Hc Hfresh Hp) as Hs'.
      rewrite (ins_root_add_node h m n Hp) in *. simpl fst in *; simpl snd in *.
      destruct (IH _ _ _ Hs') as (F' & HF' & Hkeys).
      { rewrite Hk. exact Hrest. }
      exists F'. split; [exact HF'|].
      rewrite Hkeys, Hk, <- app_assoc. reflexivity.
    + destruct Hpar as [Hpar|Hpar]; [tauto|].
      destruct (In_keys_get _ _ _ Hpar) as [lp Hg].
      pose proof (ins_child_shape h m F n Hs Hc Hfresh lp Hp Hg) as Hs'.
      rewrite (ins_add_node h m n Hfresh lp Hp Hg) in *.
      simpl fst in *; simpl snd in *.
      destruct (IH _ _ _ Hs') as (F' & HF' & Hkeys).
      { rewrite Hk. exact Hrest. }
      exists F'. split; [exact HF'|].
      rewrite Hkeys, Hk, <- app_assoc. reflexivity.
Qed.

Lemma empty_shape (m : SimpleMindMap) :
  Map.nodes m = [] -> doc_shape [] m [].
Proof.
  intros E. constructor; simpl; try constructor.
  - unfold root_nodes. rewrite E. reflexivity.
  - rewrite E. constructor.
  - rewrite E. constructor.
  - rewrite E. intros k l [].
Qed.

(** *** The topics written for a well-shaped document *)

Lemma flat_map_opt_kids {B : Type} (g : loc -> option (list B)) (tp : loc -> B)
    (kids : list tree) :
  Forall (fun k => g (root_of k) = Some (map tp (flatten k))) kids ->
  flat_map_opt g (map root_of kids) = Some (map tp (flat_map flatten kids)).
Proof.
  induction 1 as [|k kids Hk _ IH]; simpl; [reflexivity|].
  rewrite Hk, IH, map_app. reflexivity.
Qed.

Definition topic_at (format_2f : float -> string) (h : heap) (l : loc)
    : result Element :=
  match deref h l with
  | Some n => topic_element format_2f n
  | None => Raise TypeError
  end.

Lemma add_topic_element_shape (format_2f : float -> string) (h : heap) (t : tree) :
  Forall (obj_ok h) (subtrees t) ->
  forall fuel, height t <= fuel ->
    add_topic_element format_2f fuel h (root_of t)
    = Some (map (topic_at format_2f h) (flatten t)).
Proof.
  induction t as [l kids IH] using tree_ind'. intros Hs fuel Hf.
  apply shape_kids in Hs. destruct Hs as [(n & Hn & Hc) Hk].
  simpl in Hn, Hc, Hf. destruct fuel as [|f]; [lia|].
  simpl. rewrite Hn, Hc.
  rewrite (flat_map_opt_kids _ (topic_at format_2f h)).
  - unfold topic_at at 2. rewrite Hn. reflexivity.
  - rewrite Forall_forall in *. intros k Hin.
    pose proof (height_kid (T l kids) k Hin) as Hh. simpl in Hh.
    apply IH; [exact Hin | apply Hk, Hin | lia].
Qed.

Definition forest_height (F : list tree) : nat := list_max (map height F).

Lemma forest_height_le (F : list tree) (t : tree) :
  In t F -> height t <= forest_height F.
Proof.
  intros Hin. unfold forest_height.
  assert (H : Forall (fun n => n <= list_max (map height F)) (map height F))
    by (apply list_max_le; lia).
  rewrite Forall_forall in H. apply H, in_map, Hin.
Qed.

Lemma write_topics_shape (format_2f : float -> string)
    (h : heap) (m : SimpleMindMap) (F : list tree) :
  doc_shape h m F ->
  forall fuel, forest_height F <= fuel ->
    flat_map_opt (add_topic_element format_2f fuel h) (root_nodes h m)
    = Some (map (topic_at format_2f h) (flat_map flatten F)).
Proof.
  intros Hs fuel Hf. rewrite (ds_root_nodes _ _ _ Hs).
  apply flat_map_opt_kids. apply Forall_forall. intros t Ht.
  apply add_topic_element_shape.
  - apply (shape_subtree_objs h m F Hs). apply in_flat_map.
    exists t. split; [exact Ht | apply subtrees_self].
  - pose proof (forest_height_le F t Ht). lia.
Qed.

(** *** The element tree that [write] builds *)

Lemma descendants_unfold (tg : string) (a : list (string * string))
    (x : option string) (cs : list Element) :
  descendants (Elem tg a x cs) = flat_map (fun c => c :: descendants c) cs.
Proof.
  simpl. induction cs as [|c cs IH]; [reflexivity|].
  simpl. rewrite IH. reflexivity.
Qed.

Definition is_tag (tg : string) (e : Element) : bool := String.eqb (el_tag e) tg.

Definition tagged_below (tg : string) (e : Element) : list Element :=
  filter (is_tag tg) (e :: descendants e).

Lemma findall_desc_unfold (e : Element) (tg : string) :
  findall_desc e tg = flat_map (tagged_below tg) (el_children e).
Proof.
  unfold findall_desc. destruct e as [t a x cs]. rewrite descendants_unfold.
  simpl el_children. induction cs as [|c cs IH]; [reflexivity|].
  change (flat_map (fun c0 => c0 :: descendants c0) (c :: cs))
    with ((c :: descendants c) ++ flat_map (fun c0 => c0 :: descendants c0) cs).
  rewrite filter_app. simpl flat_map. f_equal. exact IH.
Qed.

Lemma tagged_below_unfold (tg : string) (e : Element) :
  tagged_below tg e =
  (if is_tag tg e then [e] else []) ++ flat_map (tagged_below tg) (el_children e).
Proof.
  rewrite <- findall_desc_unfold. unfold tagged_below, findall_desc.
  change (filter (is_tag tg) (e :: descendants e))
    with (if is_tag tg e then e :: filter (is_tag tg) (descendants e)
          else filter (is_tag tg) (descendants e)).
  destruct (is_tag tg e); reflexivity.
Qed.

(** An element without children. *)
Lemma tagged_below_leaf (tg tg' : string) (kvs : list (string * string))
    (x : option string) :
  tagged_below tg (element tg' kvs x []) = if String.eqb tg' tg then [element tg' kvs x []] else [].
Proof.
  rewrite tagged_below_unfold. unfold is_tag. simpl.
  destruct (String.eqb tg' tg); reflexivity.
Qed.

Definition mindmap_tree (meta : Element) (topics rels : list Element) : Element :=
  element "simplemind-mindmaps"
    [("doc-version", "3"); ("generator", "SimpleMindMCP");
     ("gen-version", "1.0.0")] None
    [element "mindmap" [] None
       ([meta; element "topics" [] None topics]
        ++ rels ++ [element "node-groups" [] None []])].

Definition selection_ok (sel : list Element) : Prop :=
  sel = [] \/ exists root rid, sel = selection_elements root rid.

Lemma tagged_opt_child (tg v tg' : string) (kvs : list (string * string))
    (x : option string) :
  String.eqb tg' tg = false ->
  flat_map (tagged_below tg) (opt_child v (element tg' kvs x [])) = [].
Proof.
  intros H. unfold opt_child. destruct (truthy v); [|reflexivity].
  cbn [flat_map]. rewrite tagged_below_leaf, H. reflexivity.
Qed.

Lemma flat_map_opt_Forall {A B : Type} (P : B -> Prop)
    (f : A -> option (list B)) (l : list A) (bs : list B) :
  (forall a r, In a l -> f a = Some r -> Forall P r) ->
  flat_map_opt f l = Some bs -> Forall P bs.
Proof.
  revert bs. induction l as [|a l IH]; simpl; intros bs Hf.
  - intros [= <-]. constructor.
  - destruct (f a) as [r|] eqn:Ea; [|discriminate].
    destruct (flat_map_opt f l) as [rest|]; [|discriminate].
    intros [= <-]. apply Forall_app. split; [eapply Hf; eauto|].
    apply IH; [|reflexivity]. intros a' r' Hin. apply Hf. auto.
Qed.

Lemma sequence_Ok {A : Type} (rs : list (result A)) (xs : list A) :
  sequence rs = Ok xs -> Forall2 (fun r x => r = Ok x) rs xs.
Proof.
  revert xs. induction rs as [|r rs IH]; simpl; intros xs.
  - intros [= <-]. constructor.
  - destruct r as [a|e]; [|discriminate]. cbn [bind].
    destruct (sequence rs) as [rest|e]; [|discriminate]. cbn [bind].
    intros [= <-]. constructor; auto.
Qed.

Lemma sequence_map_Ok {A : Type} (xs : list A) : sequence (map Ok xs) = Ok xs.
Proof.
  induction xs as [|x xs IH]; simpl; [reflexivity|]. rewrite IH. reflexivity.
Qed.

Section RoundTrip.
Variable py_float : string -> result float.
Variable format_2f : float -> string.
Hypothesis Hfloat : forall v, exists v', py_float (format_2f v) = Ok v'.

(** [float(f"{v:.2f}")] *)
Definition reread (v : float) : float :=
  match py_float (format_2f v) with
  | Ok v' => v'
  | Raise _ => v
  end.

Lemma reread_eq (v : float) : py_float (format_2f v) = Ok (reread v).
Proof. unfold reread. destruct (Hfloat v) as [v' E]. rewrite E. reflexivity. Qed.

Lemma meta_children (m : SimpleMindMap) (sel : list Element) :
  el_children (meta_xml format_2f m sel) =
  [element "guid" [("guid", str_or (Map.guid m) "GENERATED_GUID")] None [];
   element "title" [("text", Map.title m)] None []]
  ++ (if Map.contains_images m || negb (Nat.eqb (length (Map.images m)) 0)
      then [element "images" [("containsImages", "true")] None []]
      else [])
  ++ [element "style" [("key", Map.style m)] None [];
      element "auto-numbering" [("style", "disabled")] None [];
      element "scrollstate"
        [("zoom", py_str (Map.zoom m));
         ("x", format_2f (Map.scroll_x m));
         ("y", format_2f (Map.scroll_y m))] None []]
  ++ sel.
Proof. reflexivity. Qed.

Lemma meta_no_topic (m : SimpleMindMap) (sel : list Element) :
  selection_ok sel -> tagged_below "topic" (meta_xml format_2f m sel) = [].
Proof.
  intros Hsel. rewrite tagged_below_unfold, meta_children.
  change (is_tag "topic" (meta_xml format_2f m sel)) with false.
  rewrite !flat_map_app.
  assert (Hs : flat_map (tagged_below "topic") sel = []).
  { destruct Hsel as [->|(root & rid & ->)]; [reflexivity|].
    unfold selection_elements. cbn [flat_map].
    rewrite !tagged_below_leaf. reflexivity. }
  rewrite Hs.
  destruct (Map.contains_images m || negb (Nat.eqb (length (Map.images m)) 0));
    cbn [flat_map]; rewrite !tagged_below_leaf; reflexivity.
Qed.

Lemma meta_find_scrollstate (m : SimpleMindMap) (sel : list Element) :
  selection_ok sel ->
  find (meta_xml format_2f m sel) "scrollstate" =
  Some (element "scrollstate"
          [("zoom", py_str (Map.zoom m));
           ("x", format_2f (Map.scroll_x m));
           ("y", format_2f (Map.scroll_y m))] None []).
Proof.
  intros Hsel. unfold find, findall. rewrite meta_children, !filter_app.
  destruct (Map.contains_images m || negb (Nat.eqb (length (Map.images m)) 0));
    reflexivity.
Qed.

Lemma find_desc_meta (me : Element) (tes rels : list Element) :
  is_tag "meta" me = true ->
  find_desc (mindmap_tree me tes rels) "meta" = Some me.
Proof.
  intros Hme. unfold find_desc. rewrite findall_desc_unfold.
  unfold mindmap_tree at 1.
  change (el_children (element "simplemind-mindmaps" ?kvs None ?cs)) with cs.
  cbn [flat_map]. rewrite tagged_below_unfold.
  change (is_tag "meta" (element "mindmap" [] None ?cs)) with false.
  change (el_children (element "mindmap" [] None ?cs)) with cs.
  cbn [app flat_map]. rewrite (tagged_below_unfold "meta" me), Hme.
  reflexivity.
Qed.

Lemma read_meta_preserves (tree : Element) (m0 m1 : SimpleMindMap) :
  read_meta py_float tree m0 = Ok m1 ->
  Map.nodes m1 = Map.nodes m0 /\ Map.root_node m1 = Map.root_node m0.
Proof.
  unfold read_meta.
  destruct (find_desc tree "meta") as [meta|]; [|intros [= <-]; auto].
  intros H. cbv zeta in H. unfold bind in H.
  destruct (find meta "scrollstate");
    [destruct (py_int _); [|discriminate];
     destruct (py_float _); [|discriminate];
     destruct (py_float _); [|discriminate]|];
    destruct (find meta "images"); injection H as <-;
    destruct (find meta "title"), (find meta "guid"), (find meta "style");
    auto.
Qed.

(** What [read_meta] makes of the [meta] element written for [m], starting
    from the map [m0]. *)
Definition meta_read_back (m m0 : SimpleMindMap) : SimpleMindMap :=
  Map.mk (Map.title m) (Map.nodes m0) (Map.root_node m0)
    (str_or (Map.guid m) "GENERATED_GUID") (Map.style m) (Map.zoom m)
    (reread (Map.scroll_x m)) (reread (Map.scroll_y m))
    (if Map.contains_images m || negb (Nat.eqb (length (Map.images m)) 0)
     then true else Map.contains_images m0)
    (Map.relations m0) (Map.images m0).

Lemma read_meta_written (m : SimpleMindMap) (sel tes rels : list Element)
    (m0 : SimpleMindMap) :
  selection_ok sel ->
  read_meta py_float (mindmap_tree (meta_xml format_2f m sel) tes rels) m0
  = Ok (meta_read_back m m0).
Proof.
  intros Hsel. unfold read_meta.
  rewrite (find_desc_meta (meta_xml format_2f m sel) tes rels eq_refl).
  rewrite (meta_find_scrollstate m sel Hsel).
  change (el_get_default (element "scrollstate" ?kvs None []) "zoom" "100")
    with (py_str (Map.zoom m)).
  change (el_get_default (element "scrollstate" ?kvs None []) "x" "0")
    with (format_2f (Map.scroll_x m)).
  change (el_get_default (element "scrollstate" ?kvs None []) "y" "0")
    with (format_2f (Map.scroll_y m)).
  rewrite py_int_py_str, !reread_eq. cbn [bind].
  unfold meta_read_back, find, findall. rewrite meta_children, !filter_app.
  destruct Hsel as [->|(root & rid & ->)];
    destruct (Map.contains_images m || negb (Nat.eqb (length (Map.images m)) 0));
    destruct m0; reflexivity.
Qed.

Lemma meta_element_inv (h : heap) (m : SimpleMindMap) (me : Element) :
  meta_element format_2f h m = Ok me ->
  exists sel, selection_ok sel /\ me = meta_xml format_2f m sel.
Proof.
  unfold meta_element, selection_ok.
  destruct (Map.root_node m) as [r|]; [destruct (deref h r) as [root|]|];
    cbn [bind];
    try (intros [= <-]; exists []; split; [left; reflexivity | reflexivity]).
  destruct (Node.id root) as [rid|]; cbn [attr_value bind]; [|discriminate].
  intros [= <-]. exists (selection_elements root rid).
  split; [right; exists root, rid; reflexivity | reflexivity].
Qed.

Lemma write_inv (fuel : nat) (h : heap) (m : SimpleMindMap) (a : Archive) :
  write format_2f fuel h m = Some (Ok a) ->
  exists sel topics tes,
    selection_ok sel
    /\ flat_map_opt (add_topic_element format_2f fuel h) (root_nodes h m)
       = Some topics
    /\ sequence topics = Ok tes
    /\ payload a
       = Some (mindmap_tree (meta_xml format_2f m sel) tes (relations_elements m))
    /\ entries a
       = map (fun img : string * string =>
                (String.append "images/" (String.append (fst img) ".png"),
                 snd img))
             (Map.images m).
Proof.
  unfold write.
  destruct (flat_map_opt _ _) as [topics|]; [|discriminate].
  intros [= H].
  destruct (meta_element format_2f h m) as [me|] eqn:Hme; [|discriminate].
  destruct (sequence topics) as [tes|] eqn:Hseq; [|discriminate].
  cbn [bind] in H. injection H as <-.
  destruct (meta_element_inv h m me Hme) as (sel & Hsel & ->).
  exists sel, topics, tes. repeat split; auto.
Qed.
(** *** One topic *)

(** What [read_topic] makes of the [topic] element written for [n]. *)
Definition node_read_back (vid vparent : string) (n : SimpleMindNode)
    : SimpleMindNode :=
  Node.mk (Some vid) (Node.text n) (Some vparent)
    (reread (Node.x n)) (reread (Node.y n))
    (Node.notes n) (Node.guid n) (Node.palette n) (Node.colorinfo n)
    (Node.icon n) (Node.url_link n) (Node.layout_mode n)
    (if truthy (Node.layout_mode n) then Node.layout_direction n else "")
    (if truthy (Node.layout_mode n) then Node.layout_flow n else "")
    [] (Node.parent_relation_guid n).

Lemma topic_xml_attrs (vid vparent : string) (n : SimpleMindNode) :
  let e := topic_xml format_2f vid vparent n in
  el_get e "id" = Some vid
  /\ el_get e "parent" = Some vparent
  /\ el_get_default e "text" "" = Node.text n
  /\ el_get_default e "x" "0" = format_2f (Node.x n)
  /\ el_get_default e "y" "0" = format_2f (Node.y n)
  /\ el_get_default e "guid" "" = Node.guid n
  /\ el_get_default e "palette" "" = Node.palette n
  /\ el_get_default e "colorinfo" "" = Node.colorinfo n
  /\ el_get_default e "icon" "" = Node.icon n.
Proof.
  destruct n as [i txt p vx vy nts g pal col ico url lm ld lf cs prg].
  destruct pal, col, ico; cbv; repeat split; reflexivity.
Qed.

Lemma topic_xml_kids (vid vparent : string) (n : SimpleMindNode) :
  let e := topic_xml format_2f vid vparent n in
  match find e "note" with
  | Some note_elem =>
      match el_text note_elem with Some t => str_or t "" | None => "" end
  | None => ""
  end = Node.notes n
  /\ match find e "link" with
     | Some link_elem => el_get_default link_elem "urllink" ""
     | None => ""
     end = Node.url_link n
  /\ match find e "layout" with
     | Some layout_elem =>
         (el_get_default layout_elem "mode" "",
          el_get_default layout_elem "direction" "",
          el_get_default layout_elem "flow" "")
     | None => ("", "", "")
     end
     = (Node.layout_mode n,
        if truthy (Node.layout_mode n) then Node.layout_direction n else "",
        if truthy (Node.layout_mode n) then Node.layout_flow n else "")
  /\ match find e "parent-relation" with
     | Some parent_rel_elem => Some (el_get_default parent_rel_elem "guid" "")
     | None => None
     end
     = if truthy (Node.parent_relation_guid n)
       then Some (Node.parent_relation_guid n) else None.
Proof.
  destruct n as [i txt p vx vy nts g pal col ico url lm ld lf cs prg].
  destruct prg, url, nts, lm, ld, lf; cbv; repeat split; reflexivity.
Qed.

Lemma read_topic_written (vid vparent : string) (n : SimpleMindNode) :
  read_topic py_float (topic_xml format_2f vid vparent n)
  = Ok (node_read_back vid vparent n).
Proof.
  destruct (topic_xml_attrs vid vparent n)
    as (A1 & A2 & A3 & A4 & A5 & A6 & A7 & A8 & A9).
  destruct (topic_xml_kids vid vparent n) as (K1 & K2 & K3 & K4).
  unfold read_topic. cbv zeta.
  rewrite A1, A2, A3, A4, A5, A6, A7, A8, A9, K1, K2, K3, !reread_eq.
  cbn [bind]. unfold node_read_back.
  destruct (find (topic_xml format_2f vid vparent n) "parent-relation");
    destruct (truthy (Node.parent_relation_guid n)) eqn:E;
    try discriminate.
  - injection K4 as ->. reflexivity.
  - destruct (Node.parent_relation_guid n); [reflexivity|discriminate].
Qed.
(** *** The topics and the relations in the written tree *)

Lemma findall_desc_mindmap_tree (tg : string) (me : Element)
    (tes rels : list Element) :
  String.eqb "mindmap" tg = false -> String.eqb "topics" tg = false ->
  String.eqb "node-groups" tg = false ->
  findall_desc (mindmap_tree me tes rels) tg
  = tagged_below tg me ++ flat_map (tagged_below tg) tes
    ++ flat_map (tagged_below tg) rels.
Proof.
  intros H1 H2 H3. rewrite findall_desc_unfold. unfold mindmap_tree.
  change (el_children (element "simplemind-mindmaps" ?kvs None ?cs)) with cs.
  cbn [flat_map]. rewrite app_nil_r, tagged_below_unfold.
  change (el_children (element "mindmap" [] None ?cs)) with cs.
  unfold is_tag at 1. change (el_tag (element "mindmap" [] None ?cs)) with "mindmap".
  rewrite H1. cbn [app flat_map]. rewrite flat_map_app.
  cbn [flat_map]. rewrite tagged_below_leaf, H3, !app_nil_r.
  f_equal. rewrite (tagged_below_unfold tg (element "topics" [] None tes)).
  change (el_children (element "topics" [] None ?cs)) with cs.
  unfold is_tag at 1. change (el_tag (element "topics" [] None ?cs)) with "topics".
  rewrite H2. reflexivity.
Qed.

Lemma meta_no_tag (tg : string) (m : SimpleMindMap) (sel : list Element) :
  tg = "topic" \/ tg = "relations" ->
  selection_ok sel -> tagged_below tg (meta_xml format_2f m sel) = [].
Proof.
  intros Htg Hsel. rewrite tagged_below_unfold, meta_children.
  assert (Hm : is_tag tg (meta_xml format_2f m sel) = false)
    by (destruct Htg as [->| ->]; reflexivity).
  rewrite Hm, !flat_map_app.
  assert (Hs : flat_map (tagged_below tg) sel = []).
  { destruct Hsel as [->|(root & rid & ->)]; [reflexivity|].
    unfold selection_elements. cbn [flat_map].
    rewrite !tagged_below_leaf. destruct Htg as [->| ->]; reflexivity. }
  rewrite Hs.
  destruct (Map.contains_images m || negb (Nat.eqb (length (Map.images m)) 0));
    cbn [flat_map]; rewrite !tagged_below_leaf;
    destruct Htg as [->| ->]; reflexivity.
Qed.

Lemma topic_tagged_below (tg vid vparent : string) (n : SimpleMindNode) :
  tg = "topic" \/ tg = "relations" ->
  tagged_below tg (topic_xml format_2f vid vparent n)
  = if String.eqb "topic" tg then [topic_xml format_2f vid vparent n] else [].
Proof.
  intros Htg. rewrite tagged_below_unfold. unfold topic_xml at 1 3.
  change (el_children (element "topic" ?kvs None ?cs)) with cs.
  unfold is_tag. change (el_tag (element "topic" ?kvs None ?cs)) with "topic".
  rewrite !flat_map_app.
  rewrite !tagged_opt_child by (destruct Htg as [->| ->]; reflexivity).
  destruct Htg as [->| ->]; reflexivity.
Qed.

Definition is_topic_xml (e : Element) : Prop :=
  exists vid vparent n, e = topic_xml format_2f vid vparent n.

Lemma topics_tagged_below (tg : string) (tes : list Element) :
  tg = "topic" \/ tg = "relations" ->
  Forall is_topic_xml tes ->
  flat_map (tagged_below tg) tes = if String.eqb "topic" tg then tes else [].
Proof.
  intros Htg H. induction H as [|te tes (vid & vp & n & ->) _ IH]; cbn [flat_map].
  - destruct (String.eqb "topic" tg); reflexivity.
  - rewrite IH, (topic_tagged_below tg vid vp n Htg).
    destruct (String.eqb "topic" tg); reflexivity.
Qed.

Lemma relations_tagged_below (m : SimpleMindMap) :
  flat_map (tagged_below "topic") (relations_elements m) = []
  /\ hd_error (flat_map (tagged_below "relations") (relations_elements m))
     = hd_error (relations_elements m).
Proof.
  unfold relations_elements. destruct (Map.relations m) as [|r rs]; [auto|].
  set (rels := r :: rs). cbn [flat_map]. rewrite !app_nil_r.
  rewrite !tagged_below_unfold.
  change (el_children (element "relations" [] None ?cs)) with cs.
  split; [|reflexivity].
  change (is_tag "topic" (element "relations" [] None ?cs)) with false.
  cbn [app]. induction rels as [|x xs IH]; [reflexivity|].
  cbn [map flat_map]. rewrite tagged_below_leaf, IH. reflexivity.
Qed.

Lemma written_topics (m : SimpleMindMap) (sel tes : list Element) :
  selection_ok sel -> Forall is_topic_xml tes ->
  findall_desc (mindmap_tree (meta_xml format_2f m sel) tes (relations_elements m))
    "topic" = tes.
Proof.
  intros Hsel Ht.
  rewrite findall_desc_mindmap_tree by reflexivity.
  rewrite (meta_no_tag "topic" m sel (or_introl eq_refl) Hsel).
  rewrite (topics_tagged_below "topic" tes (or_introl eq_refl) Ht).
  destruct (relations_tagged_below m) as [-> _].
  cbn [app]. rewrite String.eqb_refl. apply app_nil_r.
Qed.

Lemma written_relations (m : SimpleMindMap) (sel tes : list Element)
    (m0 : SimpleMindMap) :
  selection_ok sel -> Forall is_topic_xml tes ->
  read_relations
    (mindmap_tree (meta_xml format_2f m sel) tes (relations_elements m)) m0
  = Map.set_relations (Map.relations m0 ++ Map.relations m) m0.
Proof.
  intros Hsel Ht. unfold read_relations, find_desc.
  rewrite findall_desc_mindmap_tree by reflexivity.
  rewrite (meta_no_tag "relations" m sel (or_intror eq_refl) Hsel).
  rewrite (topics_tagged_below "relations" tes (or_intror eq_refl) Ht).
  change (String.eqb "topic" "relations") with false. cbn [app].
  destruct (relations_tagged_below m) as [_ ->].
  unfold relations_elements. destruct (Map.relations m) as [|r rs].
  - cbn [hd_error]. rewrite app_nil_r. destruct m0; reflexivity.
  - cbn [hd_error]. set (rels := r :: rs). f_equal. f_equal.
    unfold findall.
    change (el_children (element "relations" [] None ?cs)) with cs.
    induction rels as [|x xs IH]; [reflexivity|].
    cbn [map filter].
    change (String.eqb (el_tag (element "relation" ?kvs None [])) "relation")
      with true.
    cbn iota. cbn [map]. rewrite IH. destruct x; reflexivity.
Qed.
Lemma add_topic_element_forms (fuel : nat) (h : heap) :
  forall l rs,
    add_topic_element format_2f fuel h l = Some rs ->
    Forall (fun r => exists n, r = topic_element format_2f n) rs.
Proof.
  induction fuel as [|f IH]; intros l rs; simpl; [discriminate|].
  destruct (deref h l) as [node|]; [|intros [= <-]; constructor].
  destruct (flat_map_opt _ _) as [below|] eqn:E; [|discriminate].
  intros [= <-]. constructor; [eauto|].
  eapply flat_map_opt_Forall; [|exact E]. intros a r _. apply IH.
Qed.

Lemma written_topics_forms (fuel : nat) (h : heap) (ls : list loc)
    (topics : list (result Element)) (tes : list Element) :
  flat_map_opt (add_topic_element format_2f fuel h) ls = Some topics ->
  sequence topics = Ok tes ->
  Forall is_topic_xml tes.
Proof.
  intros Ht Hseq.
  assert (Hf : Forall (fun r => exists n, r = topic_element format_2f n) topics).
  { eapply flat_map_opt_Forall; [|exact Ht].
    intros a r _. apply add_topic_element_forms. }
  apply sequence_Ok in Hseq. clear Ht.
  induction Hseq as [|r te rs tes' Hr _ IH]; constructor.
  - inversion Hf as [|? ? (n & Hn) _]; subst.
    unfold topic_element in Hn.
    destruct (Node.id n) as [vid|]; cbn [attr_value bind] in Hn; [|discriminate].
    destruct (Node.parent_id n) as [vp|]; cbn [attr_value bind] in Hn;
      [|discriminate].
    injection Hn as ->. exists vid, vp, n. reflexivity.
  - apply IH. inversion Hf; subst; assumption.
Qed.

(** ** Map-level data through [write] and [read_meta] *)


End RoundTrip.

(** *** A document built from nothing *)

(** The object with its [children] list emptied. *)
Definition bare (n : SimpleMindNode) : SimpleMindNode := Node.set_children [] n.

Definition is_child_of (h : heap) (n : SimpleMindNode) (j : loc) : bool :=
  pystr_eqb (parent_at h j) (Node.id n).

(** The store and the mapping of a document all of whose objects were
    handed to [add_node] when they were created: the mapping lists the
    objects in the order of creation, ids are not repeated and are not the
    root marker, a parent id is the marker or the id of an object, and the
    children of an object are the objects that name it as their parent, in
    the order of creation. *)
Record in_step (h : heap) (m : SimpleMindMap) : Prop := {
  st_keys : keys (Map.nodes m) = map Node.id h;
  st_values : values (Map.nodes m) = seq 0 (length h);
  st_nodup : NoDup (map Node.id h);
  st_marker : ~ In ROOT_PARENT (map Node.id h);
  st_parents :
    forall n, In n h ->
      Node.parent_id n = ROOT_PARENT \/ In (Node.parent_id n) (map Node.id h);
  st_children :
    forall i n, deref h i = Some n ->
      Node.children n = filter (is_child_of h n) (seq 0 (length h))
}.

Lemma map_mutate_inv {B : Type} (g : SimpleMindNode -> B)
    (f : SimpleMindNode -> SimpleMindNode) (l : loc) (h : heap) :
  (forall n, g (f n) = g n) -> map g (mutate l f h) = map g h.
Proof.
  intros Hg. revert l. induction h as [|n h IH]; intros [|l]; simpl;
    try reflexivity.
  - rewrite Hg. reflexivity.
  - rewrite IH. reflexivity.
Qed.

Lemma dict_get_nth (d : dict loc) (ks : list pystr) (a : nat) (k : pystr) (i : loc) :
  keys d = ks -> values d = seq a (length ks) ->
  dict_get k d = Some i ->
  a <= i /\ nth_error ks (i - a) = Some k.
Proof.
  revert ks a. induction d as [|[k' v] d IH]; intros ks a Hk Hv; simpl;
    [discriminate|].
  destruct ks as [|k0 ks]; [discriminate|]. simpl in Hk, Hv.
  injection Hk as -> Hk. injection Hv as -> Hv.
  destruct (pystr_eqb_spec k k0) as [->|Hne].
  - intros [= <-]. rewrite Nat.sub_diag. auto.
  - intros Hg. destruct (IH ks (S a) Hk Hv Hg) as [Hle Hn].
    split; [lia|]. replace (i - a) with (S (i - S a)) by lia. exact Hn.
Qed.

Lemma in_step_get (h : heap) (m : SimpleMindMap) (k : pystr) (i : loc) :
  in_step h m -> get_node m k = Some i ->
  exists n, deref h i = Some n /\ Node.id n = k.
Proof.
  intros Hst Hg.
  destruct (dict_get_nth (Map.nodes m) (map Node.id h) 0 k i
              (st_keys _ _ Hst)) as [_ Hn].
  - rewrite length_map. apply (st_values _ _ Hst).
  - exact Hg.
  - rewrite Nat.sub_0_r, nth_error_map in Hn. unfold deref.
    destruct (nth_error h i) as [n|]; [|discriminate].
    injection Hn as Hn. eauto.
Qed.

Lemma in_step_empty (m : SimpleMindMap) : Map.nodes m = [] -> in_step [] m.
Proof.
  intros E. constructor; simpl; try rewrite E; try reflexivity.
  - constructor.
  - tauto.
  - tauto.
  - intros [|i] n; discriminate.
Qed.

Lemma parent_at_app_old (h : heap) (n : SimpleMindNode) (j : loc) :
  j < length h -> parent_at (h ++ [n]) j = parent_at h j.
Proof.
  intros Hj. unfold parent_at.
  rewrite (deref_alloc_old h n j Hj : deref (h ++ [n]) j = deref h j).
  reflexivity.
Qed.

Lemma parent_at_mutate_children (h : heap) (lp j : loc)
    (f : SimpleMindNode -> list loc) :
  parent_at (mutate lp (fun p => Node.set_children (f p) p) h) j = parent_at h j.
Proof.
  unfold parent_at. rewrite deref_mutate.
  destruct (deref h j) as [n|]; [|reflexivity].
  destruct (Nat.eqb lp j); reflexivity.
Qed.

Lemma filter_ext_seq (f g : nat -> bool) (a len : nat) :
  (forall j, a <= j < a + len -> f j = g j) ->
  filter f (seq a len) = filter g (seq a len).
Proof.
  intros H. apply filter_ext_in. intros j Hj. apply in_seq in Hj. apply H, Hj.
Qed.

Lemma filter_seq_none (f : nat -> bool) (a len : nat) :
  (forall j, a <= j < a + len -> f j = false) -> filter f (seq a len) = [].
Proof.
  intros H. rewrite (filter_ext_seq f (fun _ => false) a len H).
  induction (seq a len); simpl; auto.
Qed.

Section AddInStep.
Variables (h : heap) (m : SimpleMindMap) (n : SimpleMindNode).
Hypothesis Hst : in_step h m.
Hypothesis Hc : Node.children n = [].
Hypothesis Hfresh : ~ In (Node.id n) (map Node.id h).
Hypothesis Hmark : Node.id n <> ROOT_PARENT.
Hypothesis Hpar :
  Node.parent_id n = ROOT_PARENT \/ In (Node.parent_id n) (map Node.id h).

Let l := length h.
Let h1 := fst (add_node (h ++ [n]) m l).
Let m1 := snd (add_node (h ++ [n]) m l).

Lemma ais_fresh_key : ~ In (Node.id n) (keys (Map.nodes m)).
Proof. rewrite (st_keys _ _ Hst). exact Hfresh. Qed.

Lemma ais_no_child (j : loc) : j < l -> is_child_of h n j = false.
Proof.
  intros Hj. unfold is_child_of, parent_at.
  destruct (deref h j) as [c|] eqn:Hcj;
    [|apply nth_error_None in Hcj; subst l; lia].
  apply pystr_eqb_neq. intros E.
  destruct (st_parents _ _ Hst c) as [Hr|Hin].
  - eapply nth_error_In, Hcj.
  - apply Hmark. congruence.
  - apply Hfresh. congruence.
Qed.

(** What [add_node] does with the new object. *)
Lemma ais_add_node :
  (Node.parent_id n = ROOT_PARENT /\ h1 = h ++ [n])
  \/ (exists lp p,
        Node.parent_id n <> ROOT_PARENT
        /\ deref h lp = Some p /\ Node.id p = Node.parent_id n
        /\ h1 = mutate lp (fun q => Node.set_children (Node.children q ++ [l]) q)
                  (h ++ [n])).
Proof.
  subst h1 l. unfold add_node.
  rewrite (deref_alloc_new h n : deref (h ++ [n]) (length h) = Some n).
  destruct (pystr_eqb_spec (Node.parent_id n) ROOT_PARENT) as [E|Hne];
    [left; auto|].
  right. destruct Hpar as [E|Hin]; [tauto|].
  assert (Hne' : Node.id n <> Node.parent_id n)
    by (intros E; apply Hfresh; rewrite E; exact Hin).
  cbn [Map.nodes Map.set_nodes].
  rewrite (dict_get_set_ne _ _ _ _ _ Hne').
  rewrite <- (st_keys _ _ Hst) in Hin.
  destruct (In_keys_get _ _ _ Hin) as [lp Hg]. rewrite Hg.
  destruct (in_step_get h m _ lp Hst Hg) as (p & Hp & Hid).
  exists lp, p. auto.
Qed.

Lemma ais_nodes :
  Map.nodes m1 = Map.nodes m ++ [(Node.id n, l)].
Proof.
  subst m1 l. unfold add_node.
  rewrite (deref_alloc_new h n : deref (h ++ [n]) (length h) = Some n).
  pose proof (dict_set_fresh _ _ (length h) _ ais_fresh_key) as E.
  destruct (pystr_eqb (Node.parent_id n) ROOT_PARENT); [exact E|].
  destruct (dict_get _ _); exact E.
Qed.

Lemma ais_bare : map bare h1 = map bare h ++ [bare n].
Proof.
  destruct ais_add_node as [[_ ->]|(lp & p & _ & _ & _ & ->)].
  - rewrite map_app. reflexivity.
  - rewrite map_mutate_inv by (intros q; destruct q; reflexivity).
    rewrite map_app. reflexivity.
Qed.

Lemma ais_ids : map Node.id h1 = map Node.id h ++ [Node.id n].
Proof.
  destruct ais_add_node as [[_ ->]|(lp & p & _ & _ & _ & ->)].
  - rewrite map_app. reflexivity.
  - rewrite map_mutate_inv by (intros q; destruct q; reflexivity).
    rewrite map_app. reflexivity.
Qed.

Lemma ais_length : length h1 = S l.
Proof.
  rewrite <- (length_map Node.id), ais_ids, length_app, length_map.
  simpl. subst l. lia.
Qed.

Lemma ais_parent_at (j : loc) : parent_at h1 j = parent_at (h ++ [n]) j.
Proof.
  destruct ais_add_node as [[_ ->]|(lp & p & _ & _ & _ & ->)];
    [reflexivity|].
  apply parent_at_mutate_children.
Qed.

Lemma ais_parent_new : parent_at h1 l = Node.parent_id n.
Proof.
  rewrite ais_parent_at. unfold parent_at. subst l.
  rewrite (deref_alloc_new h n : deref (h ++ [n]) (length h) = Some n).
  reflexivity.
Qed.

Lemma ais_parent_old (j : loc) : j < l -> parent_at h1 j = parent_at h j.
Proof. intros Hj. rewrite ais_parent_at. apply parent_at_app_old, Hj. Qed.

Lemma ais_in_step : in_step h1 m1.
Proof.
  constructor.
  - rewrite ais_nodes, keys_app, ais_ids, (st_keys _ _ Hst). reflexivity.
  - rewrite ais_nodes, values_app, ais_length, (st_values _ _ Hst).
    unfold l in *. rewrite seq_S. reflexivity.
  - rewrite ais_ids. apply NoDup_snoc; [apply (st_nodup _ _ Hst) | exact Hfresh].
  - rewrite ais_ids, in_app_iff. simpl.
    intros [H|[H|[]]]; [apply (st_marker _ _ Hst), H | apply Hmark; auto].
  - intros c Hin.
    assert (Hb : In (bare c) (map bare h ++ [bare n]))
      by (rewrite <- ais_bare; apply in_map, Hin).
    rewrite ais_ids. apply in_app_iff in Hb.
    destruct Hb as [Hb|[Hb|[]]].
    + apply in_map_iff in Hb. destruct Hb as (c0 & E & Hc0).
      assert (Ep : Node.parent_id c = Node.parent_id c0)
        by (change (Node.parent_id (bare c) = Node.parent_id (bare c0));
            congruence).
      rewrite Ep. destruct (st_parents _ _ Hst c0 Hc0); [auto|].
      right. apply in_or_app. auto.
    + assert (Ep : Node.parent_id c = Node.parent_id n)
        by (change (Node.parent_id (bare c) = Node.parent_id (bare n));
            congruence).
      rewrite Ep. destruct Hpar; [auto|]. right. apply in_or_app. auto.
  - intros i c Hi. rewrite ais_length, seq_S, filter_app. cbn [filter Nat.add].
    assert (Hlt : i < S l) by (rewrite <- ais_length; eapply deref_lt, Hi).
    assert (Hold : forall c', Node.id c' = Node.id c ->
              filter (is_child_of h1 c) (seq 0 l)
              = filter (is_child_of h c') (seq 0 l)).
    { intros c' E. apply filter_ext_seq. intros j Hj. unfold is_child_of.
      rewrite ais_parent_old by lia. rewrite E. reflexivity. }
    unfold is_child_of at 2. rewrite ais_parent_new.
    destruct ais_add_node as [[Hr E1]|(lp & p & Hnr & Hp & Hid & E1)].
    + (* a root: no children list changes *)
      rewrite E1 in Hi.
      assert (Hno : pystr_eqb (Node.parent_id n) (Node.id c) = false).
      { apply pystr_eqb_neq. rewrite Hr. intros E.
        apply (st_marker _ _ Hst). rewrite E.
        assert (Hin : In (Node.id c) (map Node.id (h ++ [n])))
          by (apply in_map; eapply nth_error_In, Hi).
        rewrite map_app in Hin. apply in_app_iff in Hin.
        destruct Hin as [Hin|[Hin|[]]]; [exact Hin|].
        exfalso. apply Hmark. congruence. }
      rewrite Hno, app_nil_r.
      destruct (Nat.eq_dec i l) as [->|Hne].
      * unfold l in *. rewrite (deref_alloc_new h n : deref (h ++ [n]) (length h) = Some n) in Hi.
        injection Hi as <-. rewrite Hc. symmetry.
        etransitivity; [exact (Hold n eq_refl)|]. apply filter_seq_none.
        intros j Hj. apply ais_no_child. lia.
      * assert (Hi' : deref h i = Some c).
        { rewrite <- Hi. symmetry. apply (deref_alloc_old h n i). lia. }
        rewrite (st_children _ _ Hst i c Hi'). symmetry. apply (Hold c eq_refl).
    + rewrite E1 in Hi. rewrite deref_mutate in Hi.
      destruct (deref (h ++ [n]) i) as [c0|] eqn:Hc0; [|discriminate].
      injection Hi as Hi.
      assert (Hlp : lp < l) by (eapply deref_lt, Hp).
      destruct (Nat.eq_dec i l) as [->|Hne].
      * (* the new object *)
        unfold l in *. rewrite (deref_alloc_new h n : deref (h ++ [n]) (length h) = Some n) in Hc0.
        injection Hc0 as <-.
        assert (Hneq : Nat.eqb lp (length h) = false) by (apply Nat.eqb_neq; lia).
        rewrite Hneq in Hi. subst c. rewrite Hc.
        assert (Hno : pystr_eqb (Node.parent_id n) (Node.id n) = false).
        { apply pystr_eqb_neq. intros E. apply Hfresh. rewrite <- E.
          rewrite <- Hid. apply in_map. eapply nth_error_In, Hp. }
        rewrite Hno, app_nil_r. symmetry.
        etransitivity; [exact (Hold n eq_refl)|]. apply filter_seq_none.
        intros j Hj. apply ais_no_child. lia.
      * assert (Hi' : deref h i = Some c0).
        { rewrite <- Hc0. symmetry. apply (deref_alloc_old h n i). lia. }
        destruct (Nat.eqb_spec lp i) as [->|Hnlp].
        -- (* the parent *)
           assert (c0 = p) by congruence. subst c0 c.
           cbn [Node.children Node.set_children Node.id].
           rewrite (st_children _ _ Hst i p Hi').
           rewrite <- Hid, pystr_eqb_refl. f_equal.
           symmetry. apply filter_ext_seq. intros j Hj. unfold is_child_of.
           rewrite ais_parent_old by lia. reflexivity.
        -- subst c.
           assert (Hno : pystr_eqb (Node.parent_id n) (Node.id c0) = false).
           { apply pystr_eqb_neq. intros E. apply Hnlp.
             assert (Hd : forall a b x y, nth_error (map Node.id h) a = Some x ->
                            nth_error (map Node.id h) b = Some y -> x = y -> a = b).
             { intros a b x y Ha Hb Exy. subst y.
               apply (proj1 (NoDup_nth_error (map Node.id h)) (st_nodup _ _ Hst));
                 [apply nth_error_Some; congruence | congruence]. }
             apply (Hd lp i (Node.id p) (Node.id c0)).
             - rewrite nth_error_map. unfold deref in Hp. rewrite Hp. reflexivity.
             - rewrite nth_error_map. unfold deref in Hi'. rewrite Hi'. reflexivity.
             - congruence. }
           rewrite Hno, app_nil_r.
           rewrite (st_children _ _ Hst i c0 Hi'). symmetry. apply (Hold c0 eq_refl).
Qed.
End AddInStep.

Lemma ais_root (h : heap) (m : SimpleMindMap) (n : SimpleMindNode) :
  Map.root_node (snd (add_node (h ++ [n]) m (length h)))
  = if pystr_eqb (Node.parent_id n) ROOT_PARENT then Some (length h)
    else Map.root_node m.
Proof.
  unfold add_node.
  rewrite (deref_alloc_new h n : deref (h ++ [n]) (length h) = Some n).
  destruct (pystr_eqb (Node.parent_id n) ROOT_PARENT); [reflexivity|].
  destruct (dict_get _ _); reflexivity.
Qed.

(** The fields of the map other than [nodes] and [root_node]. *)
Definition map_header (m : SimpleMindMap) : SimpleMindMap :=
  Map.set_root_node None (Map.set_nodes [] m).

Lemma add_node_header (h : heap) (m : SimpleMindMap) (l : loc) :
  map_header (snd (add_node h m l)) = map_header m.
Proof.
  unfold add_node. destruct (deref h l) as [node|]; [|reflexivity].
  destruct (pystr_eqb (Node.parent_id node) ROOT_PARENT); [reflexivity|].
  cbn [Map.nodes Map.set_nodes]. destruct (dict_get _ _); reflexivity.
Qed.

Lemma build_header (ns : list SimpleMindNode) :
  forall h m, map_header (snd (build ns h m)) = map_header m.
Proof.
  induction ns as [|n ns IH]; intros h m; [reflexivity|].
  rewrite build_cons, IH. apply add_node_header.
Qed.

Lemma build_root_kept (ns : list SimpleMindNode) :
  Forall (fun n => Node.parent_id n <> ROOT_PARENT) ns ->
  forall h m, Map.root_node (snd (build ns h m)) = Map.root_node m.
Proof.
  induction 1 as [|n ns Hn _ IH]; intros h m; [reflexivity|].
  rewrite build_cons, IH, ais_root.
  apply pystr_eqb_neq in Hn. rewrite Hn. reflexivity.
Qed.

Lemma build_in_step (ns : list SimpleMindNode) :
  forall h m,
    in_step h m -> buildable (map Node.id h) ns ->
    Forall (fun n => Node.id n <> ROOT_PARENT) ns ->
    in_step (fst (build ns h m)) (snd (build ns h m))
    /\ map bare (fst (build ns h m)) = map bare h ++ ns.
Proof.
  induction ns as [|n ns IH]; intros h m Hst Hb Hm.
  - simpl. rewrite app_nil_r. auto.
  - inversion Hb as [|ks n' ns' Hc Hid Hfresh Hpar Hrest]; subst.
    inversion Hm as [|? ? Hmk Hm']; subst.
    rewrite build_cons.
    pose proof (ais_in_step h m n Hst Hc Hfresh Hmk Hpar) as Hst'.
    pose proof (ais_bare h m n Hst Hfresh Hpar) as Hbare.
    pose proof (ais_ids h m n Hst Hfresh Hpar) as Hids.
    destruct (IH _ _ Hst') as [H1 H2]; [rewrite Hids; exact Hrest | exact Hm'|].
    split; [exact H1|]. rewrite H2, Hbare, <- app_assoc.
    assert (E : bare n = n) by (destruct n; simpl in Hc; subst; reflexivity).
    rewrite E. reflexivity.
Qed.

(** *** The children of a node, among the nodes in pre-order *)

Inductive subseq {A : Type} : list A -> list A -> Prop :=
| subseq_nil : subseq [] []
| subseq_skip a l l' : subseq l l' -> subseq l (a :: l')
| subseq_take a l l' : subseq l l' -> subseq (a :: l) (a :: l').

Lemma subseq_refl {A : Type} (l : list A) : subseq l l.
Proof. induction l; [apply subseq_nil | apply subseq_take; assumption]. Qed.

Lemma subseq_nil_l {A : Type} (l : list A) : subseq [] l.
Proof. induction l; [apply subseq_nil | apply subseq_skip; assumption]. Qed.

Lemma subseq_app {A : Type} (a a' b b' : list A) :
  subseq a a' -> subseq b b' -> subseq (a ++ b) (a' ++ b').
Proof.
  induction 1; intros Hb; simpl;
    [exact Hb | apply subseq_skip; auto | apply subseq_take; auto].
Qed.

Lemma subseq_trans {A : Type} (a b c : list A) :
  subseq a b -> subseq b c -> subseq a c.
Proof.
  intros Hab Hbc. revert a Hab.
  induction Hbc as [|x b c Hbc IH|x b c Hbc IH]; intros a Hab.
  - exact Hab.
  - constructor. apply IH, Hab.
  - inversion Hab; subst;
      [apply subseq_skip | apply subseq_take]; apply IH; assumption.
Qed.

Lemma subseq_In {A : Type} (a b : list A) (x : A) :
  subseq a b -> In x a -> In x b.
Proof.
  induction 1; simpl; [tauto | auto | intros [E|H']; auto].
Qed.

Lemma filter_subseq {A : Type} (P : A -> bool) (l' l : list A) :
  subseq l' l -> NoDup l ->
  (forall x, In x l -> (P x = true <-> In x l')) ->
  filter P l = l'.
Proof.
  induction 1 as [|a l' l Hs IH|a l' l Hs IH]; intros Hnd HP.
  - reflexivity.
  - inversion Hnd as [|? ? Hna Hnd']; subst. simpl.
    destruct (P a) eqn:Ea.
    + exfalso. apply Hna. eapply subseq_In; [exact Hs|].
      apply HP; [left; reflexivity | exact Ea].
    + apply IH; [exact Hnd'|]. intros x Hx. apply HP. right. exact Hx.
  - inversion Hnd as [|? ? Hna Hnd']; subst. simpl.
    assert (Ea : P a = true) by (apply HP; left; reflexivity).
    rewrite Ea. f_equal. apply IH; [exact Hnd'|].
    intros x Hx. rewrite (HP x (or_intror Hx)). simpl.
    split; [intros [E|H']; [subst; tauto | exact H'] | auto].
Qed.

Lemma kids_subseq (kids : list tree) :
  subseq (map root_of kids) (flat_map flatten kids).
Proof.
  induction kids as [|[a ks] kids IH]; simpl; [constructor|].
  apply subseq_take. change (subseq ([] ++ map root_of kids)
                         (flat_map flatten ks ++ flat_map flatten kids)).
  apply subseq_app; [apply subseq_nil_l | exact IH].
Qed.

Lemma subtree_subseq (t s : tree) :
  In s (subtrees t) -> subseq (flatten s) (flatten t).
Proof.
  induction t as [l kids IH] using tree_ind'. simpl.
  intros [<-|Hs]; [apply subseq_refl|]. apply subseq_skip.
  induction IH as [|k kids Hk _ IHk]; simpl in *; [tauto|].
  apply in_app_iff in Hs. destruct Hs as [Hs|Hs].
  - rewrite <- (app_nil_r (flatten s)).
    apply subseq_app; [apply Hk, Hs | apply subseq_nil_l].
  - change (subseq ([] ++ flatten s) (flatten k ++ flat_map flatten kids)).
    apply subseq_app; [apply subseq_nil_l | apply IHk, Hs].
Qed.

Lemma children_subseq (t s : tree) :
  In s (subtrees t) -> subseq (map root_of (kids_of s)) (flatten t).
Proof.
  intros Hs. eapply subseq_trans; [|apply subtree_subseq, Hs].
  destruct s as [a kids]. simpl. apply subseq_skip. apply kids_subseq.
Qed.

(** In a conformant document the children of a node are the nodes that
    name it as their parent, in pre-order. *)
Lemma wf_children_filter (h : heap) (m : SimpleMindMap) (t : tree)
    (l : loc) (n : SimpleMindNode) :
  well_formed h m t -> In l (flatten t) -> deref h l = Some n ->
  Node.children n = filter (is_child_of h n) (flatten t).
Proof.
  intros Hw Hl Hn. pose proof (wf_shape _ _ _ Hw) as Hs.
  destruct (In_flatten_subtree t l Hl) as (s & Hsin & Hroot).
  assert (Hsin' : In s (flat_map subtrees [t]))
    by (simpl; rewrite app_nil_r; exact Hsin).
  destruct (shape_subtree_obj h m [t] Hs s Hsin') as (n0 & Hn0 & Hkids).
  rewrite Hroot, Hn in Hn0. injection Hn0 as <-.
  rewrite Hkids. symmetry. apply filter_subseq.
  - apply children_subseq, Hsin.
  - pose proof (ds_nodup _ _ _ Hs) as Hnd. simpl in Hnd.
    rewrite app_nil_r in Hnd. exact Hnd.
  - intros x Hx. unfold is_child_of. rewrite pystr_eqb_eq. split.
    + intros Hpx.
      assert (Hx' : In x (flat_map flatten [t]))
        by (simpl; rewrite app_nil_r; exact Hx).
      assert (Hidn : In (Node.id n) (keys (Map.nodes m))).
      { assert (Hv : In l (values (Map.nodes m)))
          by (apply (shape_value_iff h m [t] Hs); simpl; rewrite app_nil_r; exact Hl).
        destruct (shape_value_entry h m [t] Hs l Hv) as (n1 & Hn1 & He).
        assert (n1 = n) by congruence. subst n1.
        apply (in_map fst) in He. exact He. }
      assert (Hnr : parent_at h x <> ROOT_PARENT).
      { rewrite Hpx. intros E. apply (wf_marker _ _ _ Hw). rewrite <- E. exact Hidn. }
      destruct (shape_parent_subtree h m [t] Hs x Hx' Hnr) as (s' & k & Hs' & Hk & Hkx).
      destruct (shape_subtree_link h m [t] Hs s' Hs' k Hk) as [Hlink _].
      assert (Es : s' = s).
      { apply (fsubtree_unique [t] s' s (ds_nodup _ _ _ Hs) Hs' Hsin').
        apply (shape_id_inj h m [t] Hs).
        - apply (shape_value_iff h m [t] Hs). apply fsubtree_root_in, Hs'.
        - apply (shape_value_iff h m [t] Hs). apply fsubtree_root_in, Hsin'.
        - rewrite <- Hlink, Hkx, Hpx, Hroot. unfold id_at. rewrite Hn. reflexivity. }
      subst s'. rewrite <- Hkx. apply in_map, Hk.
    + intros Hin. apply in_map_iff in Hin. destruct Hin as (k & <- & Hk).
      destruct (shape_subtree_link h m [t] Hs s Hsin' k Hk) as [Hlink _].
      rewrite Hlink, Hroot. unfold id_at. rewrite Hn. reflexivity.
Qed.

(** *** Lists of objects *)

Definition objects (h : heap) (ls : list loc) : list SimpleMindNode :=
  flat_map (fun l => match deref h l with Some n => [n] | None => [] end) ls.

Lemma objects_app (h : heap) (a b : list loc) :
  objects h (a ++ b) = objects h a ++ objects h b.
Proof. apply flat_map_app. Qed.

Lemma objects_deref (h : heap) (ls : list loc) :
  (forall l, In l ls -> deref h l <> None) ->
  map (deref h) ls = map Some (objects h ls).
Proof.
  induction ls as [|l ls IH]; intros H; [reflexivity|].
  unfold objects. cbn [flat_map map].
  destruct (deref h l) as [n|] eqn:E; [|exfalso; apply (H l); simpl; auto].
  cbn [app map]. f_equal. apply IH. intros l' Hl'. apply H. right. exact Hl'.
Qed.

Lemma objects_nth (h : heap) (ls : list loc) (i : nat) (l : loc) (n : SimpleMindNode) :
  (forall l, In l ls -> deref h l <> None) ->
  nth_error ls i = Some l -> deref h l = Some n ->
  nth_error (objects h ls) i = Some n.
Proof.
  intros H Hi Hn. pose proof (objects_deref h ls H) as E.
  apply (f_equal (fun x => nth_error x i)) in E.
  rewrite !nth_error_map, Hi in E. simpl in E. rewrite Hn in E.
  destruct (nth_error (objects h ls) i); simpl in E; congruence.
Qed.

Lemma map_nth_seq_id {A : Type} (l : list A) (d : A) :
  map (fun j => nth j l d) (seq 0 (length l)) = l.
Proof.
  induction l as [|a l IH]; [reflexivity|].
  cbn [length seq map nth]. f_equal.
  rewrite <- seq_shift, map_map. exact IH.
Qed.

Lemma filter_map_comm {A B : Type} (P : B -> bool) (f : A -> B) (l : list A) :
  filter P (map f l) = map f (filter (fun a => P (f a)) l).
Proof.
  induction l as [|a l IH]; simpl; [reflexivity|].
  destruct (P (f a)); simpl; rewrite IH; reflexivity.
Qed.

Lemma nth_error_pair {A B : Type} (d : list (A * B)) (i : nat) (a : A) (b : B) :
  nth_error (map fst d) i = Some a -> nth_error (map snd d) i = Some b ->
  nth_error d i = Some (a, b).
Proof.
  rewrite !nth_error_map. destruct (nth_error d i) as [[a' b']|]; simpl;
    congruence.
Qed.

Lemma in_step_lookup (h : heap) (m : SimpleMindMap) (i : loc) (n : SimpleMindNode) :
  in_step h m -> deref h i = Some n -> get_node m (Node.id n) = Some i.
Proof.
  intros Hst Hn. apply dict_In_get.
  - rewrite (st_keys _ _ Hst). apply (st_nodup _ _ Hst).
  - apply (nth_error_In _ i). apply nth_error_pair.
    + change (nth_error (keys (Map.nodes m)) i = Some (Node.id n)).
      rewrite (st_keys _ _ Hst), nth_error_map. unfold deref in Hn.
      rewrite Hn. reflexivity.
    + change (nth_error (values (Map.nodes m)) i = Some i).
      rewrite (st_values _ _ Hst).
      rewrite nth_error_seq.
      assert (Hlt : i < length h) by (eapply deref_lt, Hn).
      apply Nat.ltb_lt in Hlt. rewrite Hlt. reflexivity.
Qed.

(** *** Nodes listed parents first *)

Inductive parents_first : list pystr -> list SimpleMindNode -> Prop :=
| parents_first_nil ks : parents_first ks []
| parents_first_cons ks n ns :
    Node.parent_id n = ROOT_PARENT \/ In (Node.parent_id n) ks ->
    parents_first (ks ++ [Node.id n]) ns ->
    parents_first ks (n :: ns).

Lemma parents_first_mono (ns : list SimpleMindNode) :
  forall ks ks', parents_first ks ns -> incl ks ks' -> parents_first ks' ns.
Proof.
  induction ns as [|n ns IH]; intros ks ks' H Hi; [constructor|].
  inversion H as [|? ? ? Hp Hr]; subst. constructor.
  - destruct Hp; [auto|right; apply Hi; assumption].
  - apply (IH _ _ Hr). apply incl_app; [apply incl_appl, Hi | apply incl_appr, incl_refl].
Qed.

Lemma parents_first_app (a : list SimpleMindNode) :
  forall ks b,
    parents_first ks a -> parents_first (ks ++ map Node.id a) b ->
    parents_first ks (a ++ b).
Proof.
  induction a as [|n a IH]; intros ks b Ha Hb; simpl in *.
  - rewrite app_nil_r in Hb. exact Hb.
  - inversion Ha as [|? ? ? Hp Hr]; subst. constructor; [exact Hp|].
    apply IH; [exact Hr|]. rewrite <- app_assoc. exact Hb.
Qed.

Lemma parents_first_map (f : SimpleMindNode -> SimpleMindNode)
    (ns : list SimpleMindNode) :
  (forall n, Node.id (f n) = Node.id n /\ Node.parent_id (f n) = Node.parent_id n) ->
  forall ks, parents_first ks ns -> parents_first ks (map f ns).
Proof.
  intros Hf. induction ns as [|n ns IH]; intros ks H; simpl; [constructor|].
  inversion H as [|? ? ? Hp Hr]; subst. destruct (Hf n) as [Ei Ep].
  constructor; rewrite ?Ei, ?Ep; auto.
Qed.

Lemma parents_first_buildable (ns : list SimpleMindNode) :
  forall ks,
    parents_first ks ns ->
    Forall (fun n => Node.children n = [] /\ Node.id n <> None) ns ->
    NoDup (ks ++ map Node.id ns) ->
    buildable ks ns.
Proof.
  induction ns as [|n ns IH]; intros ks Hp Hf Hnd; [constructor|].
  inversion Hp as [|? ? ? Hpar Hr]; subst.
  inversion Hf as [|? ? [Hc Hid] Hf']; subst.
  simpl in Hnd. constructor; auto.
  - apply NoDup_remove_2 in Hnd. intros Hin. apply Hnd.
    apply in_or_app. auto.
  - apply IH; auto. rewrite <- app_assoc. exact Hnd.
Qed.

Lemma tree_parents_first (h : heap) (t : tree) :
  Forall (obj_ok h) (subtrees t) -> Forall (link_ok h) (subtrees t) ->
  forall ks,
    parent_at h (root_of t) = ROOT_PARENT \/ In (parent_at h (root_of t)) ks ->
    parents_first ks (objects h (flatten t)).
Proof.
  induction t as [l kids IH] using tree_ind'. intros Ho Hl ks Hp.
  apply shape_kids in Ho. destruct Ho as [(n & Hn & Hc) Hok].
  apply shape_kids in Hl. destruct Hl as [Hlink Hlk].
  simpl in Hn, Hc, Hp. unfold objects. cbn [flatten flat_map]. rewrite Hn.
  cbn [app]. constructor.
  - unfold parent_at in Hp. rewrite Hn in Hp. exact Hp.
  - fold (objects h (flat_map flatten kids)).
    assert (Hkp : forall k, In k kids ->
              parent_at h (root_of k) = Node.id n).
    { intros k Hk. destruct (Hlink k Hk) as [E _]. rewrite E.
      simpl. unfold id_at. rewrite Hn. reflexivity. }
    set (ks' := ks ++ [Node.id n]).
    assert (Hin : In (Node.id n) ks') by (apply in_or_app; simpl; auto).
    clearbody ks'. clear Hp Hlink Hc.
    revert ks' Hin. induction kids as [|k kids IHk]; intros ks' Hin;
      [constructor|].
    cbn [flat_map]. rewrite objects_app.
    inversion IH as [|? ? IH1 IH2]; subst.
    inversion Hok as [|? ? Ho1 Ho2]; subst.
    inversion Hlk as [|? ? Hl1 Hl2]; subst.
    apply parents_first_app.
    + apply IH1; auto. right. rewrite (Hkp k (or_introl eq_refl)). exact Hin.
    + apply IHk; auto.
      * intros k' Hk'. apply Hkp. right. exact Hk'.
      * apply in_or_app. auto.
Qed.

Lemma read_topics_build (py_float : string -> result float)
    (topics : list Element) :
  forall h m,
    read_topics py_float topics h m
    = let* ns := mapM (read_topic py_float) topics in Ok (build ns h m).
Proof.
  induction topics as [|topic rest IH]; intros h m; [reflexivity|].
  cbn [read_topics mapM].
  destruct (read_topic py_float topic) as [node|e]; cbn [bind]; [|reflexivity].
  unfold alloc. destruct (add_node (h ++ [node]) m (length h)) as [h2 m2] eqn:E.
  rewrite IH. destruct (mapM (read_topic py_float) rest) as [ns|e];
    cbn [bind]; [|reflexivity].
  rewrite build_cons, E. reflexivity.
Qed.

Lemma read_images_header (path_stem : string -> string) (a : Archive)
    (m0 : SimpleMindMap) :
  Map.nodes (read_images path_stem a m0) = Map.nodes m0
  /\ Map.root_node (read_images path_stem a m0) = Map.root_node m0
  /\ Map.relations (read_images path_stem a m0) = Map.relations m0.
Proof.
  unfold read_images. generalize (entries a). intros es. revert m0.
  induction es as [|[filename data] es IH]; intros m0; [auto|].
  cbn [fold_left].
  destruct (String.prefix "images/" filename
            && (endswith filename ".png" || endswith filename ".jpg"
                || endswith filename ".jpeg")).
  - destruct (IH (Map.set_images
                    (assoc_set (path_stem filename) data (Map.images m0)) m0))
      as (H1 & H2 & H3).
    rewrite H1, H2, H3. auto.
  - apply IH.
Qed.

Definition pystr_val (v : pystr) : string :=
  match v with Some s => s | None => "" end.

Section RoundTripDocument.
Variable py_float : string -> result float.
Variable format_2f : float -> string.
Hypothesis Hfloat : forall v, exists v', py_float (format_2f v) = Ok v'.

(** A node as it is read back: the coordinates formatted with two
    decimals and parsed again, the layout direction and flow dropped when
    there is no layout mode, the children list empty. *)
Definition read_back (n : SimpleMindNode) : SimpleMindNode :=
  Node.mk (Node.id n) (Node.text n) (Node.parent_id n)
    (reread py_float format_2f (Node.x n)) (reread py_float format_2f (Node.y n))
    (Node.notes n) (Node.guid n) (Node.palette n) (Node.colorinfo n)
    (Node.icon n) (Node.url_link n) (Node.layout_mode n)
    (if truthy (Node.layout_mode n) then Node.layout_direction n else "")
    (if truthy (Node.layout_mode n) then Node.layout_flow n else "")
    [] (Node.parent_relation_guid n).

Definition written_topic (n : SimpleMindNode) : Element :=
  topic_xml format_2f (pystr_val (Node.id n)) (pystr_val (Node.parent_id n)) n.

Definition has_strings (n : SimpleMindNode) : Prop :=
  Node.id n <> None /\ Node.parent_id n <> None.

Lemma topic_element_strings (n : SimpleMindNode) :
  has_strings n -> topic_element format_2f n = Ok (written_topic n).
Proof.
  intros [Hi Hp]. unfold topic_element, written_topic.
  destruct (Node.id n); [|tauto]. destruct (Node.parent_id n); [|tauto].
  reflexivity.
Qed.

Lemma read_written_topic (n : SimpleMindNode) :
  has_strings n ->
  read_topic py_float (written_topic n) = Ok (read_back n).
Proof.
  intros [Hi Hp]. unfold written_topic.
  rewrite (read_topic_written py_float format_2f Hfloat).
  unfold node_read_back, read_back.
  destruct (Node.id n); [|tauto]. destruct (Node.parent_id n); [|tauto].
  reflexivity.
Qed.

Lemma read_written_topics (ns : list SimpleMindNode) :
  Forall has_strings ns ->
  mapM (read_topic py_float) (map written_topic ns) = Ok (map read_back ns).
Proof.
  induction 1 as [|n ns Hn _ IH]; [reflexivity|].
  cbn [map mapM]. rewrite (read_written_topic n Hn), IH. reflexivity.
Qed.

Lemma topics_at_objects (h : heap) (ls : list loc) :
  (forall l, In l ls -> exists n, deref h l = Some n /\ has_strings n) ->
  map (topic_at format_2f h) ls = map Ok (map written_topic (objects h ls))
  /\ Forall has_strings (objects h ls).
Proof.
  induction ls as [|l ls IH]; intros H; [split; [reflexivity|constructor]|].
  destruct (H l (or_introl eq_refl)) as (n & Hn & Hstr).
  destruct IH as [IH1 IH2]; [intros l' Hl'; apply H; right; exact Hl'|].
  unfold objects. cbn [flat_map map]. unfold topic_at at 1. rewrite Hn.
  cbn [app map]. fold (objects h ls). split.
  - rewrite (topic_element_strings n Hstr), IH1. reflexivity.
  - constructor; assumption.
Qed.

Lemma written_topics_xml (ns : list SimpleMindNode) :
  Forall (is_topic_xml format_2f) (map written_topic ns).
Proof.
  apply Forall_forall. intros e He. apply in_map_iff in He.
  destruct He as (n & <- & _). unfold written_topic. eexists _, _, _. reflexivity.
Qed.

Lemma wf_has_strings (h : heap) (m : SimpleMindMap) (t : tree) (l : loc) :
  well_formed h m t -> ~ In None (keys (Map.nodes m)) ->
  In l (flatten t) ->
  exists n, deref h l = Some n /\ has_strings n.
Proof.
  intros Hw Hnone Hl. pose proof (wf_shape _ _ _ Hw) as Hs.
  assert (Hid : forall x, In x (flatten t) ->
            exists nx, deref h x = Some nx /\ Node.id nx <> None).
  { intros x Hx.
    assert (Hv : In x (values (Map.nodes m)))
      by (apply (shape_value_iff h m [t] Hs); simpl; rewrite app_nil_r; exact Hx).
    destruct (shape_value_entry h m [t] Hs x Hv) as (nx & Hnx & He).
    exists nx. split; [exact Hnx|]. intros E. apply Hnone. rewrite <- E.
    apply (in_map fst) in He. exact He. }
  destruct (Hid l Hl) as (n & Hn & Hidn). exists n. split; [exact Hn|].
  split; [exact Hidn|].
  destruct (pystr_eqb_spec (Node.parent_id n) ROOT_PARENT) as [E|Hne];
    [rewrite E; discriminate|].
  assert (Hl' : In l (flat_map flatten [t]))
    by (simpl; rewrite app_nil_r; exact Hl).
  assert (Hpl : parent_at h l <> ROOT_PARENT)
    by (unfold parent_at; rewrite Hn; exact Hne).
  destruct (shape_parent_subtree h m [t] Hs l Hl' Hpl) as (s & k & Hsin & Hk & Hkl).
  destruct (shape_subtree_link h m [t] Hs s Hsin k Hk) as [Hlink _].
  rewrite Hkl in Hlink. unfold parent_at in Hlink. rewrite Hn in Hlink.
  rewrite Hlink.
  assert (Hr : In (root_of s) (flatten t)).
  { pose proof (fsubtree_root_in [t] s Hsin) as H. simpl in H.
    rewrite app_nil_r in H. exact H. }
  destruct (Hid _ Hr) as (ns & Hns & Hidns). unfold id_at. rewrite Hns.
  exact Hidns.
Qed.
Lemma ids_objects (h : heap) (ls : list loc) :
  (forall l, In l ls -> deref h l <> None) ->
  map Node.id (objects h ls) = map (id_at h) ls.
Proof.
  induction ls as [|l ls IH]; intros H; [reflexivity|].
  unfold objects, id_at. cbn [flat_map map].
  destruct (deref h l) as [n|] eqn:E; [|exfalso; apply (H l); simpl; auto].
  cbn [app map]. f_equal. apply IH. intros l' Hl'. apply H. right. exact Hl'.
Qed.

Lemma wf_keys_ids (h : heap) (m : SimpleMindMap) (t : tree) :
  well_formed h m t ->
  Permutation (keys (Map.nodes m)) (map (id_at h) (flatten t)).
Proof.
  intros Hw. pose proof (wf_shape _ _ _ Hw) as Hs.
  assert (E : keys (Map.nodes m) = map (id_at h) (values (Map.nodes m))).
  { pose proof (ds_entries _ _ _ Hs) as He. unfold keys, values.
    induction (Map.nodes m) as [|[k l] d IH]; [reflexivity|].
    cbn [map fst snd]. f_equal.
    - destruct (He k l (or_introl eq_refl)) as (n & Hn & Hid).
      unfold id_at. rewrite Hn. auto.
    - apply IH. intros k' l' Hin. apply He. right. exact Hin. }
  rewrite E. apply Permutation_map, (wf_flatten h m t Hw).
Qed.

Lemma bare_read_back (a b : SimpleMindNode) :
  bare a = read_back b ->
  Node.id a = Node.id b /\ Node.parent_id a = Node.parent_id b.
Proof.
  intros E. split.
  - apply (f_equal Node.id) in E. exact E.
  - apply (f_equal Node.parent_id) in E. exact E.
Qed.

Variable path_stem : string -> string.

(** The archive written for a conformant document whose ids are strings,
    and what [read] makes of it: the document that [add_node] builds from
    the nodes in pre-order of the tree, each as [read_back] gives it. *)
Lemma write_read_built (h : heap) (m : SimpleMindMap) (t : tree)
    (fuel : nat) :
  well_formed h m t ->
  ~ In None (keys (Map.nodes m)) ->
  height t <= fuel ->
  exists a m2,
    write format_2f fuel h m = Some (Ok a)
    /\ read py_float path_stem a
       = Ok (fst (build (map read_back (objects h (flatten t))) [] m2),
             Map.set_relations
               (Map.relations
                  (snd (build (map read_back (objects h (flatten t))) [] m2))
                ++ Map.relations m)
               (snd (build (map read_back (objects h (flatten t))) [] m2)))
    /\ Map.nodes m2 = []
    /\ Map.relations m2 = []
    /\ Map.title m2 = Map.title m
    /\ Map.style m2 = Map.style m
    /\ Map.zoom m2 = Map.zoom m
    /\ buildable [] (map read_back (objects h (flatten t)))
    /\ in_step (fst (build (map read_back (objects h (flatten t))) [] m2))
               (snd (build (map read_back (objects h (flatten t))) [] m2))
    /\ map bare (fst (build (map read_back (objects h (flatten t))) [] m2))
       = map read_back (objects h (flatten t)).
Proof.
  intros Hw Hnone Hf. pose proof (wf_shape _ _ _ Hw) as Hs.
  assert (Hdef : forall l, In l (flatten t) -> deref h l <> None).
  { intros l Hl. destruct (wf_has_strings h m t l Hw Hnone Hl) as (n & Hn & _).
    congruence. }
  destruct (topics_at_objects h (flatten t)) as [Htop Hstr].
  { intros l Hl. apply (wf_has_strings h m t l Hw Hnone Hl). }
  set (orig := objects h (flatten t)) in *.
  set (ns := map read_back orig).
  set (tes := map written_topic orig) in *.
  destruct (wf_has_strings h m t (root_of t) Hw Hnone (flatten_root t))
    as (root & Hroot & [Hrid _]).
  destruct (Node.id root) as [rid|] eqn:Erid; [|tauto].
  set (sel := selection_elements root rid).
  assert (Hsel : selection_ok sel) by (right; exists root, rid; reflexivity).
  set (tree := mindmap_tree (meta_xml format_2f m sel) tes (relations_elements m)).
  set (a := mkArchive (Some tree)
              (map (fun img : string * string =>
                      (String.append "images/" (String.append (fst img) ".png"),
                       snd img))
                   (Map.images m))).
  assert (Hwrite : write format_2f fuel h m = Some (Ok a)).
  { unfold write. rewrite (write_topics_shape format_2f h m [t] Hs fuel).
    - cbn [flat_map]. rewrite app_nil_r, Htop. unfold meta_element.
      rewrite (wf_root _ _ _ Hw), Hroot, Erid. cbn [attr_value bind].
      rewrite sequence_map_Ok. cbn [bind]. reflexivity.
    - unfold forest_height. simpl. lia. }
  set (m1 := read_images path_stem a (Map.init "New Mind Map")).
  set (m2 := meta_read_back py_float format_2f m m1).
  destruct (read_images_header path_stem a (Map.init "New Mind Map"))
    as (Hn1 & Hr1 & Hrel1). fold m1 in Hn1, Hr1, Hrel1.
  set (B := build ns [] m2).
  set (m' := Map.set_relations (Map.relations (snd B) ++ Map.relations m) (snd B)).
  assert (Hread : read py_float path_stem a = Ok (fst B, m')).
  { unfold read. unfold a at 1. cbn [payload]. fold m1. unfold tree.
    rewrite (read_meta_written py_float format_2f Hfloat m sel tes _ m1 Hsel).
    cbn [bind]. fold m2.
    rewrite (written_topics format_2f m sel tes Hsel (written_topics_xml orig)).
    rewrite read_topics_build. unfold tes.
    rewrite (read_written_topics orig Hstr). cbn [bind]. fold ns. fold B.
    subst m'. destruct B as [hB mB]. cbn [bind fst snd]. f_equal. f_equal.
    apply (written_relations format_2f m sel (map written_topic orig) mB Hsel
             (written_topics_xml orig)). }
  (* the document built by the reader *)
  assert (Hids : map Node.id ns = map (id_at h) (flatten t)).
  { unfold ns. rewrite map_map.
    rewrite <- (ids_objects h (flatten t) Hdef). fold orig.
    apply map_ext. intros n. reflexivity. }
  assert (Hperm := wf_keys_ids h m t Hw).
  assert (Hst0 : in_step [] m2) by (apply in_step_empty; exact Hn1).
  assert (Hbuildable : buildable (map Node.id []) ns).
  { apply parents_first_buildable.
    - apply parents_first_map; [intros n; split; reflexivity|].
      apply (tree_parents_first h t).
      + apply (shape_subtree_objs h m [t] Hs). simpl. rewrite app_nil_r.
        apply subtrees_self.
      + apply Forall_forall. intros s Hsin.
        apply (shape_subtree_link h m [t] Hs). simpl. rewrite app_nil_r.
        exact Hsin.
      + left. apply (wf_root_parent h m t Hw).
    - apply Forall_forall. intros n Hn. split; [|].
      + apply in_map_iff in Hn. destruct Hn as (n0 & <- & _). reflexivity.
      + assert (Hin : In (Node.id n) (map Node.id ns)) by (apply in_map, Hn).
        rewrite Hids in Hin. intros E. apply Hnone. rewrite <- E.
        eapply Permutation_in; [apply Permutation_sym, Hperm | exact Hin].
    - simpl. rewrite Hids.
      eapply Permutation_NoDup; [exact Hperm | apply (ds_keys _ _ _ Hs)]. }
  assert (Hmarks : Forall (fun n => Node.id n <> ROOT_PARENT) ns).
  { apply Forall_forall. intros n Hn E.
    assert (Hin : In (Node.id n) (map Node.id ns)) by (apply in_map, Hn).
    rewrite Hids in Hin. apply (wf_marker _ _ _ Hw). rewrite <- E.
    eapply Permutation_in; [apply Permutation_sym, Hperm | exact Hin]. }
  destruct (build_in_step ns [] m2 Hst0 Hbuildable Hmarks) as [Hst Hbare].
  fold B in Hst, Hbare. cbn [map app] in Hbare.
  exists a, m2. split; [exact Hwrite|]. split; [exact Hread|].
  split; [exact Hn1|]. split; [exact Hrel1|].
  split; [reflexivity|]. split; [reflexivity|]. split; [reflexivity|].
  split; [exact Hbuildable|]. split; [exact Hst | exact Hbare].
Qed.

Lemma write_read_nodes (h : heap) (m : SimpleMindMap) (t : tree)
    (fuel : nat) :
  well_formed h m t ->
  ~ In None (keys (Map.nodes m)) ->
  height t <= fuel ->
  exists a h' m',
    write format_2f fuel h m = Some (Ok a)
    /\ read py_float path_stem a = Ok (h', m')
    /\ keys (Map.nodes m') = map (id_at h) (flatten t)
    /\ Permutation (keys (Map.nodes m')) (keys (Map.nodes m))
    /\ (forall k l n,
          get_node m k = Some l -> deref h l = Some n ->
          exists l' n',
            get_node m' k = Some l' /\ deref h' l' = Some n'
            /\ bare n' = read_back n
            /\ map (id_at h') (Node.children n')
               = map (id_at h) (Node.children n))
    /\ option_map (id_at h') (Map.root_node m')
       = option_map (id_at h) (Map.root_node m)
    /\ Map.title m' = Map.title m
    /\ Map.style m' = Map.style m
    /\ Map.zoom m' = Map.zoom m
    /\ Map.relations m' = Map.relations m.
Proof.
  intros Hw Hnone Hf. pose proof (wf_shape _ _ _ Hw) as Hs.
  assert (Hdef : forall l, In l (flatten t) -> deref h l <> None).
  { intros l Hl. destruct (wf_has_strings h m t l Hw Hnone Hl) as (n & Hn & _).
    congruence. }
  destruct (wf_has_strings h m t (root_of t) Hw Hnone (flatten_root t))
    as (root & Hroot & _).
  destruct (write_read_built h m t fuel Hw Hnone Hf)
    as (a & m2 & Hwrite & Hread & Hn2 & Hrel2 & Htitle & Hstyle & Hzoom
        & Hbuildable & Hst & Hbare).
  set (orig := objects h (flatten t)) in *.
  set (ns := map read_back orig) in *.
  set (B := build ns [] m2) in *.
  set (m' := Map.set_relations (Map.relations (snd B) ++ Map.relations m) (snd B))
    in *.
  assert (Hids : map Node.id ns = map (id_at h) (flatten t)).
  { unfold ns. rewrite map_map.
    rewrite <- (ids_objects h (flatten t) Hdef). fold orig.
    apply map_ext. intros n. reflexivity. }
  assert (Hperm := wf_keys_ids h m t Hw).
  assert (Hlen : length (fst B) = length (flatten t)).
  { rewrite <- (length_map bare), Hbare, <- (length_map Node.id), Hids.
    apply length_map. }
  (* position by position *)
  assert (Hpos : forall j l nj,
            nth_error (flatten t) j = Some l -> deref h l = Some nj ->
            exists n', deref (fst B) j = Some n' /\ bare n' = read_back nj).
  { intros j l nj Hj Hl.
    pose proof (objects_nth h (flatten t) j l nj Hdef Hj Hl) as Ho. fold orig in Ho.
    assert (Hnsj : nth_error ns j = Some (read_back nj))
      by (unfold ns; rewrite nth_error_map, Ho; reflexivity).
    rewrite <- Hbare, nth_error_map in Hnsj. unfold deref.
    destruct (nth_error (fst B) j) as [n'|]; [|discriminate].
    cbn [option_map] in Hnsj.
    exists n'. split; [reflexivity | congruence]. }
  set (phi := fun j => nth j (flatten t) 0).
  assert (Hphi : forall j, j < length (flatten t) ->
            nth_error (flatten t) j = Some (phi j)).
  { intros j Hj. apply nth_error_nth'. exact Hj. }
  assert (Hcor : forall j, j < length (flatten t) ->
            id_at (fst B) j = id_at h (phi j)
            /\ parent_at (fst B) j = parent_at h (phi j)).
  { intros j Hj. pose proof (Hphi j Hj) as Hnj.
    destruct (deref h (phi j)) as [nj|] eqn:Ej;
      [|exfalso; eapply Hdef; [eapply nth_error_In, Hnj | exact Ej]].
    destruct (Hpos j (phi j) nj Hnj Ej) as (n' & Hn' & Hb).
    destruct (bare_read_back n' nj Hb) as [Ei Ep].
    unfold id_at, parent_at. rewrite Hn', Ej. auto. }
  exists a, (fst B), m'. split; [exact Hwrite|]. split; [exact Hread|].
  assert (Hkeys : keys (Map.nodes m') = map (id_at h) (flatten t)).
  { subst m'. cbn [Map.nodes Map.set_relations].
    rewrite (st_keys _ _ Hst), <- Hids, <- Hbare, map_map.
    apply map_ext. intros n. destruct n; reflexivity. }
  split; [exact Hkeys|]. split; [rewrite Hkeys; apply Permutation_sym, Hperm|].
  split; [|split; [|repeat split]].
  - intros k l n Hg Hn.
    destruct (wf_mapped_deref h m t k l Hw Hg) as (n0 & Hn0 & Hidk & Hl).
    assert (n0 = n) by congruence. subst n0.
    destruct (In_nth_error _ _ Hl) as [i Hi].
    assert (Hilt : i < length (flatten t))
      by (apply nth_error_Some; congruence).
    destruct (Hpos i l n Hi Hn) as (n' & Hn' & Hb).
    destruct (bare_read_back n' n Hb) as [Ei Ep].
    exists i, n'. split; [|split; [exact Hn'|split; [exact Hb|]]].
    + subst m'. unfold get_node. cbn [Map.nodes Map.set_relations].
      rewrite <- Hidk, <- Ei. apply (in_step_lookup (fst B) (snd B) i n' Hst Hn').
    + rewrite (st_children _ _ Hst i n' Hn'), Hlen.
      rewrite (wf_children_filter h m t l n Hw Hl Hn).
      rewrite <- (map_nth_seq_id (flatten t) 0) at 2. fold phi.
      rewrite filter_map_comm, map_map.
      assert (Hf' : filter (fun j => is_child_of h n (phi j)) (seq 0 (length (flatten t)))
                    = filter (is_child_of (fst B) n') (seq 0 (length (flatten t)))).
      { apply filter_ext_seq. intros j Hj. unfold is_child_of.
        destruct (Hcor j) as [_ Hp]; [lia|]. rewrite Hp, Ei. reflexivity. }
      rewrite Hf'. apply map_ext_in. intros j Hj.
      apply filter_In in Hj. destruct Hj as [Hj _]. apply in_seq in Hj.
      destruct (Hcor j) as [Hi' _]; [lia|]. exact Hi'.
  - (* the root *)
    rewrite (wf_root _ _ _ Hw). cbn [option_map].
    assert (Hroot' : Map.root_node m' = Some 0).
    { subst m'. cbn [Map.root_node Map.set_relations].
      destruct t as [r kids]. cbn [flatten root_of] in *.
      unfold B, ns, orig, objects. cbn [flat_map]. rewrite Hroot.
      cbn [app map]. rewrite build_cons.
      rewrite build_root_kept.
      - rewrite (ais_root [] m2 (read_back root)). cbn [Node.parent_id read_back].
        pose proof (wf_root_parent h m (T r kids) Hw) as Hrp.
        unfold parent_at in Hrp. cbn [root_of] in Hrp. rewrite Hroot in Hrp.
        rewrite Hrp. reflexivity.
      - apply Forall_forall. intros n Hn.
        apply in_map_iff in Hn. destruct Hn as (n0 & <- & Hn0).
        cbn [Node.parent_id read_back].
        apply in_flat_map in Hn0. destruct Hn0 as (l & Hl & Hn0).
        destruct (deref h l) as [nl|] eqn:El; [|contradiction].
        destruct Hn0 as [<-|[]]. intros E.
        assert (l = r).
        { apply (wf_is_root h m (T r kids) l Hw).
          - apply (shape_value_iff h m [T r kids] Hs). simpl.
            rewrite app_nil_r. right. exact Hl.
          - unfold parent_at. rewrite El. exact E. }
        subst l. pose proof (ds_nodup _ _ _ Hs) as Hnd. simpl in Hnd.
        rewrite app_nil_r in Hnd. inversion Hnd; subst. contradiction. }
    rewrite Hroot'. cbn [option_map]. f_equal.
    destruct (Hcor 0) as [Hi0 _].
    { destruct t; simpl; lia. }
    rewrite Hi0. unfold phi. destruct t; reflexivity.
  - subst m'. cbn [Map.title Map.set_relations]. rewrite <- Htitle.
    pose proof (build_header ns [] m2) as Hh. fold B in Hh.
    apply (f_equal Map.title) in Hh. exact Hh.
  - subst m'. cbn [Map.style Map.set_relations]. rewrite <- Hstyle.
    pose proof (build_header ns [] m2) as Hh. fold B in Hh.
    apply (f_equal Map.style) in Hh. exact Hh.
  - subst m'. cbn [Map.zoom Map.set_relations]. rewrite <- Hzoom.
    pose proof (build_header ns [] m2) as Hh. fold B in Hh.
    apply (f_equal Map.zoom) in Hh. exact Hh.
  - subst m'. cbn [Map.relations Map.set_relations].
    pose proof (build_header ns [] m2) as Hh. fold B in Hh.
    apply (f_equal Map.relations) in Hh.
    change (Map.relations (snd B) = Map.relations m2) in Hh.
    rewrite Hh, Hrel2. reflexivity.
Qed.

End RoundTripDocument.

(** *** Instances of the library functions for the sample documents *)

(** [f"{v:.2f}"] and [float(s)], right on the coordinates of the sample
    documents (0, 100 and 200); any other number is formatted as 0.00. *)
Definition sample_format_2f (v : float) : string :=
  if (v =? 100)%float then "100.00"
  else if (v =? 200)%float then "200.00"
  else "0.00".

Definition sample_py_float (s : string) : result float :=
  if String.eqb s "100.00" then Ok 100%float
  else if String.eqb s "200.00" then Ok 200%float
  else if String.eqb s "0.00" || String.eqb s "0" then Ok 0%float
  else Raise ValueError.

(** [Path(name).stem] for a name of the form [images/<stem>.png]: what
    stands between the directory and the extension. *)
Definition sample_path_stem (name : string) : string :=
  String.substring 7 (String.length name - 11) name.

Lemma sample_float_total (v : float) :
  exists v', sample_py_float (sample_format_2f v) = Ok v'.
Proof.
  unfold sample_format_2f.
  destruct (v =? 100)%float; [eexists; reflexivity|].
  destruct (v =? 200)%float; eexists; reflexivity.
Qed.



(** The chain document with one cross-link. *)
Definition linked_sample : heap * SimpleMindMap :=
  (fst chain_sample,
   Map.set_relations [mkRelation "REL" "1" "2"] (snd chain_sample)).


(** ** One topic through [write] and [read] *)

(** X4.  Whatever node the writer makes a [topic] element of, the reader makes
    of that element a node with the same id, parent id, text, notes, guid,
    palette, colorinfo, icon, link, layout mode and parent relation; its
    coordinates are the written two-decimal strings parsed again; the
    layout direction and flow are kept when there is a layout mode and
    empty otherwise; its children list is empty. *)
Theorem written_topic_reads_back
    (py_float : string -> result float) (format_2f : float -> string)
    (n : SimpleMindNode) (e : Element) (x' y' : float) :
  topic_element format_2f n = Ok e ->
  py_float (format_2f (Node.x n)) = Ok x' ->
  py_float (format_2f (Node.y n)) = Ok y' ->
  read_topic py_float e
  = Ok (Node.mk (Node.id n) (Node.text n) (Node.parent_id n) x' y'
          (Node.notes n) (Node.guid n) (Node.palette n) (Node.colorinfo n)
          (Node.icon n) (Node.url_link n) (Node.layout_mode n)
          (if truthy (Node.layout_mode n) then Node.layout_direction n else "")
          (if truthy (Node.layout_mode n) then Node.layout_flow n else "")
          [] (Node.parent_relation_guid n)).
Proof.
  intros He Hx Hy. unfold topic_element in He.
  destruct (Node.id n) as [vid|] eqn:Ei; cbn [attr_value bind] in He;
    [|discriminate].
  destruct (Node.parent_id n) as [vp|] eqn:Ep; cbn [attr_value bind] in He;
    [|discriminate].
  injection He as <-.
  destruct (topic_xml_attrs format_2f vid vp n)
    as (A1 & A2 & A3 & A4 & A5 & A6 & A7 & A8 & A9).
  destruct (topic_xml_kids format_2f vid vp n) as (K1 & K2 & K3 & K4).
  unfold read_topic. cbv zeta.
  rewrite A1, A2, A3, A4, A5, A6, A7, A8, A9, K1, K2, K3, Hx, Hy.
  cbn [bind].
  destruct (find (topic_xml format_2f vid vp n) "parent-relation");
    destruct (truthy (Node.parent_relation_guid n)) eqn:E;
    try discriminate.
  - injection K4 as ->. reflexivity.
  - destruct (Node.parent_relation_guid n); [reflexivity|discriminate].
Qed.

Lemma written_topic_reads_back_witness :
  exists e,
    topic_element sample_format_2f (sample_child "1" "0" "A" "note" 100 0) = Ok e
    /\ read_topic sample_py_float e = Ok (sample_child "1" "0" "A" "note" 100 0).
Proof.
  eexists. split; [reflexivity|].
  apply (written_topic_reads_back sample_py_float sample_format_2f
           (sample_child "1" "0" "A" "note" 100 0) _ 100%float 0%float
           eq_refl eq_refl eq_refl).
Defined.

(** ** The topics [write] emits *)

Lemma attrs_fresh_get (k v : string) (a : list (string * string)) :
  assoc_get k (assoc_set k v a) = Some v.
Proof.
  induction a as [|[k' v'] a IH]; simpl.
  - rewrite String.eqb_refl. reflexivity.
  - destruct (String.eqb k k') eqn:E; simpl; rewrite E; auto.
Qed.

Lemma written_topic_id (format_2f : float -> string) (n : SimpleMindNode) :
  Node.id n <> None -> el_get (written_topic format_2f n) "id" = Node.id n.
Proof.
  intros Hid. unfold written_topic.
  destruct (topic_xml_attrs format_2f (pystr_val (Node.id n))
              (pystr_val (Node.parent_id n)) n) as (A1 & _).
  rewrite A1. destruct (Node.id n); [reflexivity|tauto].
Qed.



(** ** Nodes that cannot be written *)

Lemma flat_map_opt_In {A B : Type} (f : A -> option (list B)) (l : list A)
    (bs : list B) (a : A) (r : list B) (b : B) :
  flat_map_opt f l = Some bs -> In a l -> f a = Some r -> In b r -> In b bs.
Proof.
  revert bs. induction l as [|a' l IH]; simpl; intros bs Hf Ha Hr Hb; [tauto|].
  destruct (f a') as [r'|] eqn:Ea; [|discriminate].
  destruct (flat_map_opt f l) as [rest|] eqn:El; [|discriminate].
  injection Hf as <-. apply in_or_app. destruct Ha as [->|Ha].
  - left. congruence.
  - right. eapply IH; eauto.
Qed.

Lemma flat_map_opt_Some_each {A B : Type} (f : A -> option (list B))
    (l : list A) (bs : list B) (a : A) :
  flat_map_opt f l = Some bs -> In a l -> exists r, f a = Some r.
Proof.
  revert bs. induction l as [|a' l IH]; simpl; intros bs Hf Ha; [tauto|].
  destruct (f a') as [r'|] eqn:Ea; [|discriminate].
  destruct (flat_map_opt f l) as [rest|] eqn:El; [|discriminate].
  destruct Ha as [->|Ha]; [eauto|]. eapply IH; eauto.
Qed.

Lemma add_topic_element_reach (format_2f : float -> string) (h : heap)
    (fuel : nat) :
  forall r l n rs,
    add_topic_element format_2f fuel h r = Some rs ->
    reach h r l -> deref h l = Some n ->
    In (topic_element format_2f n) rs.
Proof.
  induction fuel as [|f IH]; intros r l n rs Hrun Hreach Hn; [discriminate|].
  simpl in Hrun. inversion Hreach as [|? nr c ? Hr Hc Hcl]; subst.
  - rewrite Hn in Hrun.
    destruct (flat_map_opt _ _); [|discriminate].
    injection Hrun as <-. left. reflexivity.
  - rewrite Hr in Hrun.
    destruct (flat_map_opt _ _) as [below|] eqn:E; [|discriminate].
    injection Hrun as <-. right.
    destruct (flat_map_opt_Some_each _ _ _ c E Hc) as [rc Hrc].
    eapply flat_map_opt_In; [exact E | exact Hc | exact Hrc|].
    eapply IH; eauto.
Qed.

Lemma sequence_Raise {A : Type} (rs : list (result A)) (e : exn) :
  sequence rs = Raise e -> In (Raise e) rs.
Proof.
  induction rs as [|r rs IH]; simpl; [discriminate|].
  destruct r as [a|e']; cbn [bind]; [|intros [= ->]; auto].
  destruct (sequence rs) as [rest|e'']; cbn [bind]; [discriminate|].
  intros [= ->]. right. apply IH. reflexivity.
Qed.

Lemma topic_element_Raise (format_2f : float -> string) (n : SimpleMindNode)
    (e : exn) :
  topic_element format_2f n = Raise e -> e = TypeError.
Proof.
  unfold topic_element.
  destruct (Node.id n); cbn [attr_value bind]; [|congruence].
  destruct (Node.parent_id n); cbn [attr_value bind]; congruence.
Qed.


(** A document whose only node was decoded from a topic without an [id]
    attribute. *)
Definition anonymous_sample : heap * SimpleMindMap :=
  build_map [Node.init None "Root" ROOT_PARENT 0 0 "" ""].


(** ** to_markdown *)

Lemma process_children_step (f : nat) (h : heap) (max_depth : Z) (depth : Z)
    (kids : list loc) :
  forall acc,
    (forall c ls, exists ls', process_children f h max_depth c (depth + 1) ls = Some ls') ->
    (exists ls, acc = Some ls) ->
    exists ls',
      fold_left
        (fun acc child =>
           match acc with
           | None => None
           | Some ls =>
               match deref h child with
               | None => Some ls
               | Some c =>
                   let ls1 := ls ++ [header_line depth (Node.text c)] in
                   let ls2 :=
                     if truthy (Node.notes c)
                     then ls1 ++ [notes_line (Node.notes c)] else ls1 in
                   process_children f h max_depth child (depth + 1) ls2
               end
           end)
        kids acc = Some ls'.
Proof.
  induction kids as [|k kids IH]; intros acc Hrec [ls ->]; simpl; [eauto|].
  apply IH; [exact Hrec|].
  destruct (deref h k) as [c|]; [|eauto].
  apply Hrec.
Qed.

Lemma process_children_ends (fuel : nat) (h : heap) (max_depth : Z) :
  forall l depth lines,
    (Z.to_nat (max_depth + 1 - depth) < fuel)%nat ->
    exists ls, process_children fuel h max_depth l depth lines = Some ls.
Proof.
  induction fuel as [|f IH]; intros l depth lines Hf; [lia|].
  cbn [process_children].
  destruct (Z.ltb_spec max_depth depth) as [Hlt|Hge]; [eauto|].
  destruct (deref h l) as [node|]; [|eauto].
  apply process_children_step; [|eauto].
  intros c ls. apply IH. lia.
Qed.



(** A document whose root is its own child. *)
Definition looping_sample : heap * SimpleMindMap :=
  ([Node.mk (Some "0") "Root" ROOT_PARENT 0 0 "" "" "" "" "" "" "" "" "" [0] ""],
   Map.set_root_node (Some 0) (Map.set_nodes [(Some "0", 0)] (Map.init "Loop"))).

(** The nodes of a tree in pre-order, each with its distance from the
    root of the document when the root of the tree is at distance [d]. *)
Fixpoint levels (d : nat) (t : tree) : list (nat * loc) :=
  match t with
  | T l kids => (d, l) :: flat_map (levels (S d)) kids
  end.

(** The lines of a node at distance [fst e] from the root: its header,
    with one more [#] than its distance, and its notes when it has some. *)
Definition entry_lines (h : heap) (e : nat * loc) : list string :=
  match deref h (snd e) with
  | Some n =>
      header_line (Z.of_nat (fst e)) (Node.text n)
      :: (if truthy (Node.notes n) then [notes_line (Node.notes n)] else [])
  | None => []
  end.

Definition shown (max_depth : Z) (e : nat * loc) : bool :=
  Nat.eqb (fst e) 0 || (Z.of_nat (fst e) <=? max_depth)%Z.

Lemma levels_ge (t : tree) :
  forall d e, In e (levels d t) -> d <= fst e.
Proof.
  induction t as [l kids IH] using tree_ind'. intros d e. simpl.
  intros [<-|Hin]; [simpl; lia|].
  apply in_flat_map in Hin. destruct Hin as (k & Hk & He).
  rewrite Forall_forall in IH. specialize (IH k Hk (S d) e He). lia.
Qed.

Lemma levels_nodes (t : tree) : forall d, map snd (levels d t) = flatten t.
Proof.
  induction t as [l kids IH] using tree_ind'. intros d. simpl. f_equal.
  induction IH as [|k kids Hk _ IHk]; simpl; [reflexivity|].
  rewrite map_app, Hk, IHk. reflexivity.
Qed.

Lemma process_children_outline (h : heap) (max_depth : Z) (u : tree) :
  Forall (obj_ok h) (subtrees u) ->
  forall fuel d depth lines,
    height u <= fuel -> 1 <= d -> depth = Z.of_nat d ->
    process_children fuel h max_depth (root_of u) depth lines
    = Some (lines ++ flat_map (entry_lines h)
                       (filter (shown max_depth)
                          (flat_map (levels d) (kids_of u)))).
Proof.
  induction u as [l kids IH] using tree_ind'.
  intros Ho fuel d depth lines Hf Hd Hdep.
  apply shape_kids in Ho. destruct Ho as [(n & Hn & Hc) Hok].
  simpl in Hn, Hc. cbn [root_of kids_of].
  destruct fuel as [|f]; [simpl in Hf; lia|].
  cbn [process_children].
  destruct (Z.ltb_spec max_depth depth) as [Hlt|Hge].
  - assert (E : filter (shown max_depth) (flat_map (levels d) kids) = []).
    { apply filter_none. intros e He. apply in_flat_map in He.
      destruct He as (k & _ & He). apply levels_ge in He.
      unfold shown. apply orb_false_iff. split.
      - apply Nat.eqb_neq. lia.
      - apply Z.leb_gt. lia. }
    rewrite E. simpl. rewrite app_nil_r. reflexivity.
  - rewrite Hn, Hc.
    assert (Hh : forall k, In k kids -> height k <= f).
    { intros k Hk. pose proof (height_kid (T l kids) k Hk). simpl in *. lia. }
    clear Hn Hc Hf n. revert lines.
    induction kids as [|k kids IHk]; intros lines.
    + simpl. rewrite app_nil_r. reflexivity.
    + inversion IH as [|? ? IH1 IH2]; subst.
      inversion Hok as [|? ? Ho1 Ho2]; subst.
      cbn [map fold_left flat_map].
      destruct (proj1 (Forall_forall _ _) Ho1 k (subtrees_self k))
        as (c & Hcd & _). rewrite Hcd.
      rewrite (IH1 Ho1 f (S d) (Z.of_nat d + 1)%Z);
        [|apply Hh; left; reflexivity | lia | lia].
      rewrite IHk; [|exact IH2 | exact Ho2 | intros k' Hk'; apply Hh; right; exact Hk'].
      f_equal. destruct k as [a ks]. cbn [root_of kids_of levels] in *.
      rewrite filter_app. cbn [filter].
      assert (Es : shown max_depth (d, a) = true).
      { unfold shown. apply orb_true_iff. right. apply Z.leb_le. simpl. lia. }
      rewrite Es, flat_map_app. cbn [flat_map].
      unfold entry_lines at 3. cbn [fst snd]. rewrite Hcd.
      destruct (truthy (Node.notes c)); cbn [app];
        rewrite <- ?app_assoc; reflexivity.
Qed.

(** X8.  In a conformant document [to_markdown] returns within as many levels
    as the tree is high; its lines are, for the nodes in pre-order of the
    tree that are at most [max_depth] levels below the root (and the root
    itself), the header of the node, with one [#] more than its level,
    followed by its notes when it has some.  Nodes further down are left
    out. *)
Theorem to_markdown_outline (h : heap) (m : SimpleMindMap) (t : tree)
    (max_depth : Z) (fuel : nat) :
  well_formed h m t -> height t <= fuel ->
  to_markdown fuel h m max_depth
  = Some (String.concat newline
            (flat_map (entry_lines h) (filter (shown max_depth) (levels 0 t)))).
Proof.
  intros Hw Hf. pose proof (wf_shape _ _ _ Hw) as Hs.
  unfold to_markdown, markdown_lines. rewrite (wf_root _ _ _ Hw).
  assert (Ho : Forall (obj_ok h) (subtrees t)).
  { apply (shape_subtree_objs h m [t] Hs). simpl. rewrite app_nil_r.
    apply subtrees_self. }
  destruct (proj1 (Forall_forall _ _) Ho t (subtrees_self t))
    as (root & Hroot & _).
  destruct t as [r kids]. cbn [root_of] in *. rewrite Hroot.
  rewrite (process_children_outline h max_depth (T r kids) Ho fuel 1 1%Z _ Hf (le_n 1) eq_refl).
  cbn [levels filter kids_of]. unfold shown at 2. cbn [fst Nat.eqb orb flat_map].
  unfold entry_lines at 2. cbn [fst snd]. rewrite Hroot.
  destruct (truthy (Node.notes root)); reflexivity.
Qed.

Lemma to_markdown_outline_witness :
  to_markdown 3 (fst chain_sample) (snd chain_sample) 1
  = Some (String.concat newline [header_line 0 "Root"; header_line 1 "A"]).
Proof.
  rewrite (to_markdown_outline (fst chain_sample) (snd chain_sample) chain_tree
             1 3 chain_sample_well_formed).
  - reflexivity.
  - simpl. lia.
Defined.

(** The document of [test_to_markdown]. *)
Example test_to_markdown :
  let (h, m) :=
    build_map [Node.init (Some "0") "Root" ROOT_PARENT 0 0 "Root notes" "";
               sample_child "1" "0" "Child" "Child notes" 0 0] in
  to_markdown 11 h m 10
  = Some (String.concat newline
            ["# Root" ++ newline; "Root notes" ++ newline;
             "## Child" ++ newline; "Child notes" ++ newline])%string.
Proof. vm_compute. reflexivity. Qed.

Example to_markdown_looping :
  to_markdown 3 (fst looping_sample) (snd looping_sample) 2
  = Some (String.concat newline
            ["# Root" ++ newline; "## Root" ++ newline; "### Root" ++ newline])%string.
Proof. vm_compute. reflexivity. Qed.

(** ** to_dict *)

(** The values under the key [id] in a dictionary made by [to_dict] and,
    in order, in the dictionaries under its key [children]. *)
Fixpoint dict_ids (v : pyval) : list pyval :=
  match v with
  | VDict d =>
      (fix fields (d : list (string * pyval)) : list pyval :=
         match d with
         | [] => []
         | (k, x) :: r =>
             (if String.eqb k "id" then [x]
              else if String.eqb k "children" then
                match x with
                | VList cs =>
                    (fix each (cs : list pyval) : list pyval :=
                       match cs with
                       | [] => []
                       | c :: cr => dict_ids c ++ each cr
                       end) cs
                | _ => []
                end
              else [])
             ++ fields r
         end) d
  | _ => []
  end.

Lemma dict_ids_node (i : pyval) (fields1 : list (string * pyval))
    (cs : list pyval) (fields2 : list (string * pyval)) :
  (forall k x, In (k, x) (fields1 ++ fields2) ->
      String.eqb k "id" = false /\ String.eqb k "children" = false) ->
  dict_ids (VDict ([("id", i)] ++ fields1 ++ [("children", VList cs)] ++ fields2))
  = i :: flat_map dict_ids cs.
Proof.
  intros H. cbn [dict_ids app String.eqb Ascii.eqb Bool.eqb]. f_equal.
  assert (Hskip : forall fs,
            (forall k x, In (k, x) fs ->
                String.eqb k "id" = false /\ String.eqb k "children" = false) ->
            forall rest,
            (fix fields (d : list (string * pyval)) : list pyval :=
               match d with
               | [] => []
               | (k, x) :: r =>
                   (if String.eqb k "id" then [x]
                    else if String.eqb k "children" then
                      match x with
                      | VList cs =>
                          (fix each (cs : list pyval) : list pyval :=
                             match cs with
                             | [] => []
                             | c :: cr => dict_ids c ++ each cr
                             end) cs
                      | _ => []
                      end
                    else [])
                   ++ fields r
               end) (fs ++ rest)
            = (fix fields (d : list (string * pyval)) : list pyval :=
               match d with
               | [] => []
               | (k, x) :: r =>
                   (if String.eqb k "id" then [x]
                    else if String.eqb k "children" then
                      match x with
                      | VList cs =>
                          (fix each (cs : list pyval) : list pyval :=
                             match cs with
                             | [] => []
                             | c :: cr => dict_ids c ++ each cr
                             end) cs
                      | _ => []
                      end
                    else [])
                   ++ fields r
               end) rest).
  { induction fs as [|[k x] fs IH]; intros Hfs rest; [reflexivity|].
    cbn [app]. destruct (Hfs k x (or_introl eq_refl)) as [E1 E2].
    rewrite E1, E2. cbn [app]. apply IH. intros k' x' Hin. apply (Hfs k' x'). right. exact Hin. }
  rewrite Hskip by (intros k x Hin; apply (H k x), in_or_app; auto).
  cbn [app String.eqb Ascii.eqb Bool.eqb].
  rewrite <- (app_nil_r fields2), Hskip
    by (intros k x Hin; apply (H k x), in_or_app; auto).
  rewrite app_nil_r. reflexivity.
Qed.

Definition id_value (h : heap) (l : loc) : pyval := of_pystr (id_at h l).

Lemma node_to_dict_shape (h : heap) (t : tree) :
  Forall (obj_ok h) (subtrees t) ->
  forall fuel, height t <= fuel ->
    exists v,
      node_to_dict fuel h (root_of t) = Some [v]
      /\ dict_ids v = map (id_value h) (flatten t).
Proof.
  induction t as [l kids IH] using tree_ind'. intros Ho fuel Hf.
  apply shape_kids in Ho. destruct Ho as [(n & Hn & Hc) Hok].
  simpl in Hn, Hc. destruct fuel as [|f]; [simpl in Hf; lia|].
  cbn [node_to_dict root_of]. rewrite Hn, Hc.
  assert (Hh : forall k, In k kids -> height k <= f).
  { intros k Hk. pose proof (height_kid (T l kids) k Hk). simpl in *. lia. }
  assert (Hkids : exists vs,
            flat_map_opt (node_to_dict f h) (map root_of kids) = Some vs
            /\ flat_map dict_ids vs = map (id_value h) (flat_map flatten kids)).
  { clear Hn Hc Hf. induction kids as [|k kids IHk].
    - exists []. auto.
    - inversion IH as [|? ? IH1 IH2]; subst.
      inversion Hok as [|? ? Ho1 Ho2]; subst.
      destruct (IH1 Ho1 f (Hh k (or_introl eq_refl))) as (v & Hv & Hids).
      destruct (IHk IH2 Ho2) as (vs & Hvs & Hidss).
      { intros k' Hk'. apply Hh. right. exact Hk'. }
      exists (v :: vs). cbn [map flat_map_opt flat_map].
      rewrite Hv, Hvs. split; [reflexivity|].
      rewrite map_app, Hids, Hidss. reflexivity. }
  destruct Hkids as (vs & -> & Hids). eexists. split; [reflexivity|].
  cbn [flatten map]. rewrite <- Hids.
  replace (id_value h l) with (of_pystr (Node.id n))
    by (unfold id_value, id_at; rewrite Hn; reflexivity).
  apply (dict_ids_node (of_pystr (Node.id n))
           [("text", VStr (Node.text n));
            ("parent_id", of_pystr (Node.parent_id n));
            ("x", VFloat (Node.x n)); ("y", VFloat (Node.y n));
            ("notes", VStr (Node.notes n)); ("guid", VStr (Node.guid n));
            ("palette", VStr (Node.palette n));
            ("colorinfo", VStr (Node.colorinfo n))]
           vs).
  intros k x Hin.
  destruct (truthy (Node.icon n)), (truthy (Node.url_link n)),
    (truthy (Node.layout_mode n)); simpl in Hin;
    repeat (destruct Hin as [[= <- <-]|Hin]; [split; reflexivity|]);
    destruct Hin.
Qed.

(** X9.  In a conformant document [to_dict] returns within as many levels as
    the tree is high; the node dictionaries nested under its key [root]
    carry, in pre-order of the tree, the ids of the nodes of the mapping,
    each once, so that [total_nodes] is their number. *)
Theorem to_dict_lists_mapping (h : heap) (m : SimpleMindMap) (t : tree)
    (fuel : nat) :
  well_formed h m t -> height t <= fuel ->
  exists v,
    to_dict fuel h m
    = Some (VDict [("title", VStr (Map.title m)); ("root", v);
                   ("total_nodes", VInt (Z.of_nat (length (Map.nodes m))))])
    /\ dict_ids v = map (id_value h) (flatten t)
    /\ Permutation (dict_ids v) (map of_pystr (keys (Map.nodes m)))
    /\ length (dict_ids v) = length (Map.nodes m).
Proof.
  intros Hw Hf. pose proof (wf_shape _ _ _ Hw) as Hs.
  assert (Ho : Forall (obj_ok h) (subtrees t)).
  { apply (shape_subtree_objs h m [t] Hs). simpl. rewrite app_nil_r.
    apply subtrees_self. }
  destruct (node_to_dict_shape h t Ho fuel Hf) as (v & Hv & Hids).
  exists v. unfold to_dict. rewrite (wf_root _ _ _ Hw), Hv.
  split; [reflexivity|]. split; [exact Hids|]. split.
  - rewrite Hids. unfold id_value. rewrite <- (map_map (id_at h) of_pystr).
    apply Permutation_map, Permutation_sym, (wf_keys_ids h m t Hw).
  - rewrite Hids, length_map. symmetry. apply (wf_length h m t Hw).
Qed.

Lemma to_dict_lists_mapping_witness :
  exists v,
    to_dict 3 (fst chain_sample) (snd chain_sample)
    = Some (VDict [("title", VStr "Test Map"); ("root", v);
                   ("total_nodes", VInt 3)])
    /\ dict_ids v = [VStr "0"; VStr "1"; VStr "2"].
Proof.
  destruct (to_dict_lists_mapping (fst chain_sample) (snd chain_sample)
              chain_tree 3 chain_sample_well_formed) as (v & Hv & Hids & _).
  - simpl. lia.
  - exists v. split; [exact Hv | exact Hids].
Defined.

(** The documents of [test_to_dict] and [test_pro_features]. *)
Example test_to_dict :
  let (h, m) := build_map [Node.init (Some "0") "Root" ROOT_PARENT 0 0 "" ""] in
  exists fields,
    to_dict 2 h m
    = Some (VDict [("title", VStr "Test Map");
                   ("root", VDict (("id", VStr "0") :: ("text", VStr "Root") :: fields));
                   ("total_nodes", VInt 1)]).
Proof. vm_compute. eexists. reflexivity. Qed.

Example test_pro_features :
  let root :=
    Node.mk (Some "0") "Root" ROOT_PARENT 0 0 "" "" "" "" "star"
      "https://example.com" "horizontal" "right" "linear" [] "" in
  let (h, m) := build [root] [] (Map.init "Pro Test") in
  exists fields,
    node_to_dict 1 h 0
    = Some [VDict (fields ++
                   [("icon", VStr "star");
                    ("url_link", VStr "https://example.com");
                    ("layout", VDict [("mode", VStr "horizontal");
                                      ("direction", VStr "right");
                                      ("flow", VStr "linear")])])].
Proof. vm_compute. eexists (_ :: _ :: _ :: _ :: _ :: _ :: _ :: _ :: _ :: [_]). reflexivity. Qed.

(** ** get_node_path in a conformant document *)

(** Each object of the list has the next one among its children. *)
Inductive descending (h : heap) : list loc -> Prop :=
| descending_nil : descending h []
| descending_one l : descending h [l]
| descending_cons p np c rest :
    deref h p = Some np -> In c (Node.children np) ->
    descending h (c :: rest) -> descending h (p :: c :: rest).

Lemma descending_snoc (h : heap) (ls : list loc) (p c : loc) (np : SimpleMindNode) :
  descending h (ls ++ [p]) -> deref h p = Some np -> In c (Node.children np) ->
  descending h ((ls ++ [p]) ++ [c]).
Proof.
  intros H Hp Hc. induction ls as [|a ls IH]; cbn [app] in *.
  - eapply descending_cons; [exact Hp | exact Hc | apply descending_one].
  - remember (a :: ls ++ [p]) as L eqn:EL.
    destruct H as [|l0|p0 np0 c0 rest Hp0 Hin0 Hrest]; [discriminate| |].
    + injection EL as _ E. destruct ls; discriminate.
    + injection EL as -> E. rewrite E in Hrest. specialize (IH Hrest).
      rewrite <- E in IH |- *. cbn [app].
      eapply descending_cons; [exact Hp0 | exact Hin0 | exact IH].
Qed.

Lemma wf_child_walk (h : heap) (m : SimpleMindMap) (t s k : tree) :
  well_formed h m t -> In s (subtrees t) -> In k (kids_of s) ->
  exists nk,
    deref h (root_of k) = Some nk
    /\ Node.parent_id nk <> ROOT_PARENT
    /\ get_node m (Node.parent_id nk) = Some (root_of s)
    /\ exists ns, deref h (root_of s) = Some ns /\ In (root_of k) (Node.children ns).
Proof.
  intros Hw Hs Hk. pose proof (wf_shape _ _ _ Hw) as Hsh.
  assert (Hs' : In s (flat_map subtrees [t]))
    by (simpl; rewrite app_nil_r; exact Hs).
  assert (Hk' : In k (flat_map subtrees [t])).
  { eapply fsubtree_trans; [exact Hs' | apply subtrees_kid, Hk]. }
  destruct (shape_subtree_obj h m [t] Hsh k Hk') as (nk & Hnk & _).
  destruct (shape_subtree_obj h m [t] Hsh s Hs') as (ns & Hns & Hcs).
  destruct (shape_subtree_link h m [t] Hsh s Hs' k Hk) as [Hlink Hnr].
  unfold parent_at in Hlink, Hnr. rewrite Hnk in Hlink, Hnr.
  exists nk. split; [exact Hnk|]. split; [exact Hnr|]. split.
  - rewrite Hlink. unfold id_at. rewrite Hns.
    apply (shape_get_value h m [t] Hsh (root_of s) ns); [|exact Hns].
    apply (shape_value_iff h m [t] Hsh). apply fsubtree_root_in, Hs'.
  - exists ns. split; [exact Hns|]. rewrite Hcs. apply in_map, Hk.
Qed.

Lemma wf_walk_subtree (h : heap) (m : SimpleMindMap) (t : tree) :
  well_formed h m t ->
  forall u, In u (subtrees t) ->
    forall up,
      walk h m (root_of u) (root_of u :: up) ->
      descending h (rev (root_of u :: up)) ->
      forall x, In x (flatten u) ->
        exists ls,
          walk h m x (x :: ls)
          /\ descending h (rev (x :: ls))
          /\ last (x :: ls) x = last (root_of u :: up) x.
Proof.
  intros Hw. induction u as [a kids IH] using tree_ind'.
  intros Hu up Wa Da x Hx. cbn [root_of] in *.
  simpl in Hx. destruct Hx as [<-|Hx].
  - exists up. split; [exact Wa|]. split; [exact Da | reflexivity].
  - apply in_flat_map in Hx. destruct Hx as (k & Hk & Hxk).
    rewrite Forall_forall in IH.
    destruct (wf_child_walk h m t (T a kids) k Hw Hu Hk)
      as (nk & Hnk & Hnr & Hg & ns & Hns & Hin).
    cbn [root_of] in *.
    destruct (IH k Hk) with (up := a :: up) (x := x) as (ls & W & D & L).
    + eapply subtrees_trans; [exact Hu | apply (subtrees_kid (T a kids)), Hk].
    + eapply walk_step; eauto.
    + change (rev (root_of k :: a :: up)) with (rev (a :: up) ++ [root_of k]).
      cbn [rev] in Da |- *.
      eapply descending_snoc; eauto.
    + exact Hxk.
    + exists ls. split; [exact W|]. split; [exact D|].
      rewrite L. reflexivity.
Qed.

Lemma hd_error_rev {A : Type} (l : list A) (d : A) :
  l <> [] -> hd_error (rev l) = Some (last l d).
Proof.
  induction l as [|a l IH]; [tauto|]. intros _.
  destruct l as [|b l]; [reflexivity|].
  cbn [rev] in *. specialize (IH ltac:(discriminate)).
  destruct (rev l ++ [b]) as [|c r] eqn:E; [discriminate|].
  simpl in *. exact IH.
Qed.

Lemma wf_get_node_path (h : heap) (m : SimpleMindMap) (t : tree)
    (node_id : string) (l : loc) :
  well_formed h m t ->
  get_node m (Some node_id) = Some l ->
  exists ls,
    (forall fuel, length (Map.nodes m) <= fuel ->
       tool_get_node_path fuel h m node_id
       = Some (NodePath node_id (map (path_entry h) ls)))
    /\ hd_error ls = Some (root_of t)
    /\ last ls l = l
    /\ descending h ls.
Proof.
  intros Hw Hg.
  destruct (wf_mapped_deref h m t (Some node_id) l Hw Hg) as (n & Hn & _ & Hl).
  assert (Hroot : exists nr, deref h (root_of t) = Some nr
                             /\ Node.parent_id nr = ROOT_PARENT).
  { pose proof (wf_root_parent h m t Hw) as Hp. unfold parent_at in Hp.
    destruct (deref h (root_of t)) as [nr|]; [eauto|discriminate]. }
  destruct Hroot as (nr & Hnr & Hpr).
  destruct (wf_walk_subtree h m t Hw t (subtrees_self t) [])
    with (x := l) as (ls & W & D & L).
  - eapply walk_root; eauto.
  - constructor.
  - exact Hl.
  - exists (rev (l :: ls)). split; [|split; [|split]].
    + intros fuel Hf.
      rewrite (tool_get_node_path_found fuel h m node_id l Hg).
      assert (Hlen : length (l :: ls) <= length (Map.nodes m)).
      { eapply walk_length; [eapply get_node_In_values, Hg | exact W]. }
      rewrite (path_loop_walk h m l (l :: ls) W fuel []) by lia.
      rewrite app_nil_r. reflexivity.
    + rewrite (hd_error_rev (l :: ls) l) by discriminate.
      rewrite L. reflexivity.
    + cbn [rev]. apply last_last.
    + exact D.
Qed.

(** X10.  In a conformant document [get_node_path], asked for an id of the
    mapping, returns within as many iterations as the mapping has entries;
    the path starts at the root, ends at the queried node, and each of its
    nodes has the next one among its children. *)
Theorem get_node_path_conformant (h : heap) (m : SimpleMindMap) (t : tree)
    (node_id : string) (l : loc) :
  well_formed h m t ->
  get_node m (Some node_id) = Some l ->
  exists ls,
    (forall fuel, length (Map.nodes m) <= fuel ->
       tool_get_node_path fuel h m node_id
       = Some (NodePath node_id (map (path_entry h) ls)))
    /\ hd_error ls = Some (root_of t)
    /\ last ls l = l
    /\ descending h ls.
Proof. exact (wf_get_node_path h m t node_id l). Qed.

Lemma get_node_path_conformant_witness :
  exists ls,
    tool_get_node_path 3 (fst chain_sample) (snd chain_sample) "2"
    = Some (NodePath "2" (map (path_entry (fst chain_sample)) ls))
    /\ hd_error ls = Some 0.
Proof.
  destruct (get_node_path_conformant (fst chain_sample) (snd chain_sample)
              chain_tree "2" 2 chain_sample_well_formed eq_refl)
    as (ls & Hrun & Hhd & _).
  exists ls. split; [apply Hrun; simpl; lia | exact Hhd].
Defined.

(** ** update_node changes one node only *)

(** X11.  When [update_node] saves, the map is the one it read and every object
    but the one mapped under [node_id] is as it was; that one has the new
    text when a non-empty text was given, the new notes when notes were
    given (the empty string included), and all its other fields,
    children included, unchanged. *)
Theorem update_node_frame (h : heap) (m : SimpleMindMap) (node_id : string)
    (new_text new_notes : option string)
    (h' : heap) (m' : SimpleMindMap) (r : Response) :
  tool_update_node h m node_id new_text new_notes = Written h' m' r ->
  exists l,
    get_node m (Some node_id) = Some l
    /\ m' = m
    /\ length h' = length h
    /\ (forall l', l' <> l -> deref h' l' = deref h l')
    /\ (forall n, deref h l = Some n ->
          deref h' l
          = Some (Node.mk (Node.id n)
                    (match new_text with
                     | Some t => if truthy t then t else Node.text n
                     | None => Node.text n
                     end)
                    (Node.parent_id n) (Node.x n) (Node.y n)
                    (match new_notes with
                     | Some s => s
                     | None => Node.notes n
                     end)
                    (Node.guid n) (Node.palette n) (Node.colorinfo n)
                    (Node.icon n) (Node.url_link n) (Node.layout_mode n)
                    (Node.layout_direction n) (Node.layout_flow n)
                    (Node.children n) (Node.parent_relation_guid n))).
Proof.
  unfold tool_update_node.
  destruct (negb (truthy_arg new_text) && negb (truthy_arg new_notes));
    [discriminate|].
  destruct (get_node m (Some node_id)) as [l|]; [|discriminate].
  intros Hrun. exists l. split; [reflexivity|].
  destruct new_text as [t|]; [destruct (truthy t)|];
    destruct new_notes as [s|]; injection Hrun as <- <- _;
    (split; [reflexivity|]);
    (split; [rewrite ?length_mutate; reflexivity|]);
    (split; [intros l' Hne; rewrite ?deref_mutate_ne by congruence; reflexivity|]);
    intros n Hn;
    rewrite ?deref_mutate; rewrite ?Hn; rewrite ?Nat.eqb_refl;
    destruct n; reflexivity.
Qed.

Lemma update_node_frame_witness :
  exists h',
    tool_update_node (fst chain_sample) (snd chain_sample) "1" (Some "A2") None
    = Written h' (snd chain_sample) (Updated "1" [TextChange "A2"])
    /\ deref h' 0 = deref (fst chain_sample) 0
    /\ option_map Node.text (deref h' 1) = Some "A2".
Proof.
  assert (E : exists h', tool_update_node (fst chain_sample) (snd chain_sample)
                           "1" (Some "A2") None
                         = Written h' (snd chain_sample)
                             (Updated "1" [TextChange "A2"]))
    by (eexists; reflexivity).
  destruct E as [h' E]. exists h'. split; [exact E|].
  destruct (update_node_frame _ _ _ _ _ _ _ _ E) as (l & Hg & _ & _ & Hother & Hl).
  vm_compute in Hg. injection Hg as <-.
  split; [apply Hother; discriminate|].
  rewrite (Hl _ eq_refl). reflexivity.
Defined.

(** ** add_node extends the document by one leaf *)

Lemma generate_id_not_key (m : SimpleMindMap) (new_id : string) :
  generate_id m = Ok new_id -> ~ In (Some new_id) (keys (Map.nodes m)).
Proof.
  intros Hid.
  destruct (generate_id_Ok m new_id Hid) as (top & [_ Hall] & ->).
  intros Hin. destruct (Hall _ Hin) as (z & Hz & Hle).
  rewrite py_int_py_str in Hz. injection Hz as <-. lia.
Qed.

Lemma tool_add_node_effect (h : heap) (m : SimpleMindMap)
    (parent_id text : string) (notes : option string) (lp : loc)
    (parent : SimpleMindNode) (new_id : string) :
  get_node m (Some parent_id) = Some lp ->
  deref h lp = Some parent ->
  parent_id <> "-1" ->
  generate_id m = Ok new_id ->
  exists h' m' vx vy,
    tool_add_node h m parent_id text notes
    = Written h' m' (Added text new_id parent_id)
    /\ ~ In (Some new_id) (keys (Map.nodes m))
    /\ m' = Map.set_nodes (Map.nodes m ++ [(Some new_id, length h)]) m
    /\ length h' = S (length h)
    /\ deref h' (length h)
       = Some (Node.init (Some new_id) text (Some parent_id) vx vy
                 (match notes with Some s => s | None => "" end)
                 (String.append "GENERATED_" new_id))
    /\ deref h' lp
       = Some (Node.set_children (Node.children parent ++ [length h]) parent)
    /\ (forall l', l' < length h -> l' <> lp -> deref h' l' = deref h l').
Proof.
  intros Hg Hd Hne Hid.
  pose proof (generate_id_not_key m new_id Hid) as Hfresh.
  rewrite (tool_add_node_written h m parent_id text notes lp parent new_id
             Hg Hd Hid).
  set (pos := new_position (grandparent_of h m parent) parent).
  set (n := Node.init (Some new_id) text (Some parent_id) (fst pos) (snd pos) _ _).
  assert (Hlp : lp < length h) by (eapply deref_lt, Hd).
  assert (Hadd : add_node (h ++ [n]) m (length h)
                 = (mutate lp (fun p => Node.set_children
                                          (Node.children p ++ [length h]) p)
                      (h ++ [n]),
                    Map.set_nodes (Map.nodes m ++ [(Some new_id, length h)]) m)).
  { unfold add_node.
    rewrite (deref_alloc_new h n : deref (h ++ [n]) (length h) = Some n).
    unfold n. cbn [Node.parent_id Node.id Node.init].
    assert (Hnr : pystr_eqb (Some parent_id) ROOT_PARENT = false).
    { apply pystr_eqb_neq. unfold ROOT_PARENT. congruence. }
    rewrite Hnr. cbn [Map.nodes Map.set_nodes].
    rewrite dict_get_set_ne.
    - unfold get_node in Hg. rewrite Hg.
      rewrite !dict_set_fresh by exact Hfresh. reflexivity.
    - intros E. apply Hfresh. rewrite E. eapply dict_get_Some_key, Hg. }
  rewrite Hadd. cbn [fst snd].
  exists (mutate lp (fun p => Node.set_children (Node.children p ++ [length h]) p)
            (h ++ [n])),
         (Map.set_nodes (Map.nodes m ++ [(Some new_id, length h)]) m),
         (fst pos), (snd pos).
  split; [reflexivity|]. split; [exact Hfresh|]. split; [reflexivity|].
  split; [|split; [|split]].
  - rewrite length_mutate, length_app. simpl. lia.
  - rewrite deref_mutate_ne by lia.
    apply (deref_alloc_new h n).
  - rewrite deref_mutate.
    rewrite (deref_alloc_old h n lp Hlp : deref (h ++ [n]) lp = deref h lp), Hd.
    rewrite Nat.eqb_refl. reflexivity.
  - intros l' Hl' Hne'. rewrite deref_mutate_ne by congruence.
    apply (deref_alloc_old h n l' Hl').
Qed.



(** ** Adding a node and deleting it again *)

Lemma dict_get_app_new (d : dict loc) (k : pystr) (v : loc) :
  ~ In k (keys d) -> dict_get k (d ++ [(k, v)]) = Some v.
Proof.
  intros Hf. induction d as [|[k' v'] d IH]; simpl.
  - rewrite pystr_eqb_refl. reflexivity.
  - destruct (pystr_eqb_spec k k') as [->|_]; [exfalso; apply Hf; left; reflexivity|].
    apply IH. intros Hin. apply Hf. right. exact Hin.
Qed.

Lemma dict_get_app_old (d e : dict loc) (k : pystr) (v : loc) :
  dict_get k d = Some v -> dict_get k (d ++ e) = Some v.
Proof.
  induction d as [|[k' v'] d IH]; simpl; [discriminate|].
  destruct (pystr_eqb k k'); auto.
Qed.

Lemma dict_del_app_new (d : dict loc) (k : pystr) (v : loc) :
  ~ In k (keys d) -> dict_del k (d ++ [(k, v)]) = d.
Proof.
  intros Hf. induction d as [|[k' v'] d IH]; simpl.
  - rewrite pystr_eqb_refl. reflexivity.
  - destruct (pystr_eqb_spec k k') as [->|_]; [exfalso; apply Hf; left; reflexivity|].
    f_equal. apply IH. intros Hin. apply Hf. right. exact Hin.
Qed.

Lemma wf_children_keys (h : heap) (m : SimpleMindMap) (t : tree)
    (lp : loc) (parent : SimpleMindNode) (c : loc) :
  well_formed h m t -> In lp (flatten t) -> deref h lp = Some parent ->
  In c (Node.children parent) ->
  c < length h /\ In (id_at h c) (keys (Map.nodes m)).
Proof.
  intros Hw Hlp Hp Hc. pose proof (wf_shape _ _ _ Hw) as Hs.
  destruct (In_flatten_subtree t lp Hlp) as (s & Hsin & Hroot).
  assert (Hsin' : In s (flat_map subtrees [t]))
    by (simpl; rewrite app_nil_r; exact Hsin).
  destruct (shape_subtree_obj h m [t] Hs s Hsin') as (n0 & Hn0 & Hkids).
  rewrite Hroot, Hp in Hn0. injection Hn0 as <-.
  rewrite Hkids in Hc. apply in_map_iff in Hc. destruct Hc as (k & <- & Hk).
  assert (Hkin : In (root_of k) (flat_map flatten [t])).
  { apply fsubtree_root_in. eapply fsubtree_trans; [exact Hsin'|].
    apply subtrees_kid, Hk. }
  split; [apply (shape_valid h m [t] Hs), Hkin|].
  apply (shape_value_iff h m [t] Hs) in Hkin.
  destruct (shape_value_entry h m [t] Hs _ Hkin) as (nk & Hnk & He).
  unfold id_at. rewrite Hnk. apply (in_map fst) in He. exact He.
Qed.



(** ** add_node and get_node *)

(** X14.  After [add_node(node)], [get_node] finds the node under its id and
    answers for every other id as before; the keys of the mapping keep
    their order, the id being entered last when it is new. *)
Theorem add_node_lookup (h : heap) (m : SimpleMindMap) (l : loc)
    (node : SimpleMindNode) :
  deref h l = Some node ->
  get_node (snd (add_node h m l)) (Node.id node) = Some l
  /\ (forall k, k <> Node.id node ->
        get_node (snd (add_node h m l)) k = get_node m k)
  /\ keys (Map.nodes (snd (add_node h m l)))
     = (if dict_mem (Node.id node) (Map.nodes m) then keys (Map.nodes m)
        else keys (Map.nodes m) ++ [Node.id node]).
Proof.
  intros Hn.
  assert (E : Map.nodes (snd (add_node h m l))
              = dict_set (Node.id node) l (Map.nodes m)).
  { unfold add_node. rewrite Hn.
    destruct (pystr_eqb (Node.parent_id node) ROOT_PARENT); [reflexivity|].
    cbn [Map.nodes Map.set_nodes]. destruct (dict_get _ _); reflexivity. }
  unfold get_node. rewrite E. split; [apply dict_get_set_eq|]. split.
  - intros k Hk. apply dict_get_set_ne. congruence.
  - unfold dict_mem. destruct (dict_get (Node.id node) (Map.nodes m)) eqn:Eg.
    + apply keys_dict_set_mem. eapply dict_get_Some_key, Eg.
    + apply dict_get_None in Eg. rewrite (dict_set_fresh _ _ _ _ Eg).
      apply keys_app.
Qed.

Lemma add_node_lookup_witness :
  get_node (snd (add_node [sample_root] (Map.init "Test Map") 0)) (Some "0")
  = Some 0.
Proof.
  destruct (add_node_lookup [sample_root] (Map.init "Test Map") 0 sample_root
              eq_refl) as [H _].
  exact H.
Defined.

(** ** The exceptions of read *)

Lemma py_int_str_raises (s : string) (e : exn) :
  py_int (Some s) = Raise e -> e = ValueError.
Proof.
  intros H. destruct (py_int_raises (Some s) e H) as [E|E]; [exact E|].
  subst e. exfalso. unfold py_int in H.
  assert (B : forall t, match int_digits t 0 false with
                        | Some z => Ok z
                        | None => Raise ValueError
                        end <> Raise TypeError).
  { intros t. destruct (int_digits t 0 false); congruence. }
  destruct (strip s) as [|c r]; [eapply B, H|].
  destruct (Ascii.eqb_spec c "-") as [->|].
  - unfold bind in H. destruct (int_digits r 0 false); discriminate.
  - destruct (Ascii.eqb_spec c "+") as [->|].
    + eapply B, H.
    + apply (B (String c r)).
      destruct c as [[] [] [] [] [] [] [] []]; try exact H; congruence.
Qed.

Lemma read_topic_raises (py_float : string -> result float) (topic : Element)
    (e : exn) :
  (forall s e', py_float s = Raise e' -> e' = ValueError) ->
  read_topic py_float topic = Raise e -> e = ValueError.
Proof.
  intros Hpf. unfold read_topic. cbv zeta.
  destruct (py_float (el_get_default topic "x" "0")) as [vx|e1] eqn:Ex;
    cbn [bind]; [|intros [= <-]; eapply Hpf, Ex].
  destruct (py_float (el_get_default topic "y" "0")) as [vy|e1] eqn:Ey;
    cbn [bind]; [|intros [= <-]; eapply Hpf, Ey].
  destruct (find topic "layout"); destruct (find topic "parent-relation");
    discriminate.
Qed.

Lemma read_topics_raises (py_float : string -> result float)
    (topics : list Element) (e : exn) :
  (forall s e', py_float s = Raise e' -> e' = ValueError) ->
  forall h m, read_topics py_float topics h m = Raise e -> e = ValueError.
Proof.
  intros Hpf. induction topics as [|topic rest IH]; intros h m; [discriminate|].
  cbn [read_topics].
  destruct (read_topic py_float topic) as [node|e1] eqn:Et; cbn [bind].
  - unfold alloc. destruct (add_node _ _ _) as [h2 m2]. apply IH.
  - intros [= <-]. eapply read_topic_raises; eauto.
Qed.

Lemma read_meta_raises (py_float : string -> result float) (tree : Element)
    (m : SimpleMindMap) (e : exn) :
  (forall s e', py_float s = Raise e' -> e' = ValueError) ->
  read_meta py_float tree m = Raise e -> e = ValueError.
Proof.
  intros Hpf. unfold read_meta.
  destruct (find_desc tree "meta") as [meta|]; [|discriminate].
  cbv zeta.
  destruct (find meta "scrollstate") as [sc|]; cbn [bind].
  - destruct (py_int (Some (el_get_default sc "zoom" "100"))) as [z|e1] eqn:Ez;
      cbn [bind]; [|intros [= <-]; eapply py_int_str_raises, Ez].
    destruct (py_float (el_get_default sc "x" "0")) as [vx|e1] eqn:Ex;
      cbn [bind]; [|intros [= <-]; eapply Hpf, Ex].
    destruct (py_float (el_get_default sc "y" "0")) as [vy|e1] eqn:Ey;
      cbn [bind]; [|intros [= <-]; eapply Hpf, Ey].
    destruct (find meta "images"); discriminate.
  - destruct (find meta "images"); discriminate.
Qed.


Lemma sample_py_float_raises (s : string) (e : exn) :
  sample_py_float s = Raise e -> e = ValueError.
Proof.
  unfold sample_py_float.
  destruct (String.eqb s "100.00"); [discriminate|].
  destruct (String.eqb s "200.00"); [discriminate|].
  destruct (String.eqb s "0.00" || String.eqb s "0"); [discriminate|].
  congruence.
Qed.

(** An archive whose only topic has a coordinate that is not a number. *)
Definition bad_coordinate_archive : Archive :=
  mkArchive
    (Some (payload_of_topics
             [element "topic" [("id", "0"); ("parent", "-1"); ("x", "left")]
                None []]))
    [].


(** ** The images through write and read *)

Lemma substring_all (s : string) : String.substring 0 (String.length s) s = s.
Proof. induction s as [|c s IH]; simpl; [reflexivity|]. rewrite IH. reflexivity. Qed.

Lemma substring_append_r (a b : string) :
  String.substring (String.length a) (String.length b) (String.append a b) = b.
Proof.
  induction a as [|c a IH]; simpl; [apply substring_all | exact IH].
Qed.

Lemma length_append (a b : string) :
  String.length (String.append a b) = String.length a + String.length b.
Proof. induction a as [|c a IH]; simpl; [reflexivity|]. rewrite IH. reflexivity. Qed.

Lemma endswith_append (a b : string) : endswith (String.append a b) b = true.
Proof.
  unfold endswith. rewrite length_append.
  replace (String.length a + String.length b - String.length b)
    with (String.length a) by lia.
  rewrite substring_append_r, String.eqb_refl.
  replace (Nat.leb (String.length b) (String.length a + String.length b))
    with true by (symmetry; apply Nat.leb_le; lia).
  reflexivity.
Qed.

Definition image_entry (img : string * string) : string * string :=
  (String.append "images/" (String.append (fst img) ".png"), snd img).

Lemma image_entry_kept (k : string) :
  String.prefix "images/" (String.append "images/" (String.append k ".png"))
  && (endswith (String.append "images/" (String.append k ".png")) ".png"
      || endswith (String.append "images/" (String.append k ".png")) ".jpg"
      || endswith (String.append "images/" (String.append k ".png")) ".jpeg")
  = true.
Proof.
  assert (E : endswith (String.append "images/" (String.append k ".png")) ".png"
              = true).
  { change (String.append "images/" (String.append k ".png"))
      with (String.append (String.append "images/" k) ".png").
    apply endswith_append. }
  assert (P : String.prefix "images/"
                (String.append "images/" (String.append k ".png")) = true)
    by (apply prefix_spec; eexists; reflexivity).
  rewrite E, P. reflexivity.
Qed.

Lemma assoc_set_fresh (k v : string) (a : list (string * string)) :
  ~ In k (map fst a) -> assoc_set k v a = a ++ [(k, v)].
Proof.
  induction a as [|[k' v'] a IH]; simpl; intros H; [reflexivity|].
  destruct (String.eqb_spec k k') as [->|_]; [exfalso; apply H; auto|].
  rewrite IH by tauto. reflexivity.
Qed.

Lemma read_images_entries (path_stem : string -> string)
    (imgs : list (string * string)) :
  (forall k v, In (k, v) imgs ->
     path_stem (String.append "images/" (String.append k ".png")) = k) ->
  forall m0,
    NoDup (map fst (Map.images m0) ++ map fst imgs) ->
    Map.images
      (fold_left
         (fun m (entry : string * string) =>
            let (filename, data) := entry in
            if String.prefix "images/" filename
               && (endswith filename ".png" || endswith filename ".jpg"
                   || endswith filename ".jpeg")
            then Map.set_images
                   (assoc_set (path_stem filename) data (Map.images m)) m
            else m)
         (map image_entry imgs) m0)
    = Map.images m0 ++ imgs.
Proof.
  induction imgs as [|[k v] imgs IH]; intros Hstem m0 Hnd.
  - simpl. rewrite app_nil_r. reflexivity.
  - cbn [map fold_left image_entry fst snd].
    rewrite image_entry_kept, (Hstem k v (or_introl eq_refl)).
    rewrite IH.
    + cbn [Map.images Map.set_images]. rewrite assoc_set_fresh.
      * rewrite <- app_assoc. reflexivity.
      * cbn [map fst] in Hnd. apply NoDup_remove_2 in Hnd.
        intros Hin. apply Hnd. apply in_or_app. auto.
    + intros k' v' Hin. apply (Hstem k' v'). right. exact Hin.
    + cbn [Map.images Map.set_images]. rewrite assoc_set_fresh.
      * rewrite map_app. cbn [map fst] in *. rewrite <- app_assoc. exact Hnd.
      * cbn [map fst] in Hnd. apply NoDup_remove_2 in Hnd.
        intros Hin. apply Hnd. apply in_or_app. auto.
Qed.

(** X16.  When [write] returns an archive it holds one entry
    [images/<hash>.png] for each image of the map; when the hashes are
    distinct and [Path(...).stem] gives each hash back from its entry
    name, [read] finds in the archive the images of the map, in order. *)
Theorem write_read_images (format_2f : float -> string)
    (path_stem : string -> string) (fuel : nat) (h : heap)
    (m : SimpleMindMap) (a : Archive) :
  write format_2f fuel h m = Some (Ok a) ->
  NoDup (map fst (Map.images m)) ->
  (forall k v, In (k, v) (Map.images m) ->
     path_stem (String.append "images/" (String.append k ".png")) = k) ->
  entries a = map image_entry (Map.images m)
  /\ Map.images (read_images path_stem a (Map.init "New Mind Map"))
     = Map.images m.
Proof.
  intros Hw Hnd Hstem.
  destruct (write_inv format_2f fuel h m a Hw)
    as (sel & topics & tes & _ & _ & _ & _ & He).
  split; [exact He|]. unfold read_images. rewrite He.
  change (map (fun img : string * string =>
                 (String.append "images/" (String.append (fst img) ".png"),
                  snd img)) (Map.images m))
    with (map image_entry (Map.images m)).
  rewrite (read_images_entries path_stem (Map.images m) Hstem).
  - reflexivity.
  - exact Hnd.
Qed.

(** The chain document with two images. *)
Definition illustrated_sample : heap * SimpleMindMap :=
  (fst chain_sample,
   Map.set_images [("abc", "PNG-DATA-1"); ("f00", "PNG-DATA-2")]
     (snd chain_sample)).

Lemma write_read_images_witness :
  exists a,
    write sample_format_2f 3 (fst illustrated_sample) (snd illustrated_sample)
    = Some (Ok a)
    /\ Map.images (read_images sample_path_stem a (Map.init "New Mind Map"))
       = [("abc", "PNG-DATA-1"); ("f00", "PNG-DATA-2")].
Proof.
  assert (E : exists a, write sample_format_2f 3 (fst illustrated_sample)
                          (snd illustrated_sample) = Some (Ok a))
    by (vm_compute; eexists; reflexivity).
  destruct E as [a E]. exists a. split; [exact E|].
  destruct (write_read_images sample_format_2f sample_path_stem 3
              (fst illustrated_sample) (snd illustrated_sample) a E) as [_ H].
  - simpl. repeat constructor; simpl; intuition discriminate.
  - intros k v Hin. simpl in Hin.
    destruct Hin as [[= <- <-]|[[= <- <-]|[]]]; reflexivity.
  - exact H.
Defined.

(** ** The document read back is conformant *)

Lemma doc_shape_same_nodes (h : heap) (m m' : SimpleMindMap) (F : list tree) :
  Map.nodes m' = Map.nodes m -> doc_shape h m F -> doc_shape h m' F.
Proof.
  intros E [H1 H2 H3 H4 H5 H6 H7 H8].
  constructor; try assumption; try (rewrite E; assumption).
  unfold root_nodes in *. rewrite E. exact H4.
Qed.

Lemma wf_objects_root (h : heap) (m : SimpleMindMap) (t : tree) :
  well_formed h m t ->
  exists root rest,
    objects h (flatten t) = root :: rest
    /\ deref h (root_of t) = Some root
    /\ Node.parent_id root = ROOT_PARENT
    /\ Forall (fun n => Node.parent_id n <> ROOT_PARENT) rest.
Proof.
  intros Hw. pose proof (wf_shape _ _ _ Hw) as Hs.
  pose proof (wf_root_parent h m t Hw) as Hrp. unfold parent_at in Hrp.
  destruct (deref h (root_of t)) as [root|] eqn:Hroot; [|discriminate].
  destruct t as [r kids]. cbn [flatten root_of] in *.
  exists root, (objects h (flat_map flatten kids)).
  split; [unfold objects; cbn [flat_map]; rewrite Hroot; reflexivity|].
  split; [reflexivity|]. split; [exact Hrp|].
  apply Forall_forall. intros n Hn.
  apply in_flat_map in Hn. destruct Hn as (l & Hl & Hn).
  destruct (deref h l) as [nl|] eqn:El; [|contradiction].
  destruct Hn as [<-|[]]. intros E.
  assert (l = r).
  { apply (wf_is_root h m (T r kids) l Hw).
    - apply (shape_value_iff h m [T r kids] Hs). simpl.
      rewrite app_nil_r. right. exact Hl.
    - unfold parent_at. rewrite El. exact E. }
  subst l. pose proof (ds_nodup _ _ _ Hs) as Hnd. simpl in Hnd.
  rewrite app_nil_r in Hnd. inversion Hnd; subst. contradiction.
Qed.

Lemma in_step_root_nodes (h : heap) (m : SimpleMindMap)
    (n0 : SimpleMindNode) (rest : list SimpleMindNode) :
  in_step h m -> map bare h = n0 :: rest ->
  Node.parent_id n0 = ROOT_PARENT ->
  Forall (fun n => Node.parent_id n <> ROOT_PARENT) rest ->
  root_nodes h m = [0].
Proof.
  intros Hst Hb Hp Hrest. rewrite root_nodes_alt, (st_values _ _ Hst).
  destruct h as [|x0 xs]; [discriminate|]. cbn [map] in Hb.
  injection Hb as Hb0 Hbs. cbn [length seq filter].
  assert (E0 : pystr_eqb (parent_at (x0 :: xs) 0) ROOT_PARENT = true).
  { apply pystr_eqb_eq. unfold parent_at. cbn [deref nth_error].
    rewrite <- Hp, <- Hb0. reflexivity. }
  rewrite E0. f_equal. apply filter_none. intros j Hj.
  apply in_seq in Hj. apply pystr_eqb_neq. unfold parent_at, deref.
  destruct j as [|j]; [lia|]. cbn [nth_error].
  destruct (nth_error xs j) as [xj|] eqn:Ej; [|discriminate].
  assert (Hin : In (bare xj) rest).
  { rewrite <- Hbs. apply in_map. eapply nth_error_In, Ej. }
  rewrite Forall_forall in Hrest. apply (Hrest _ Hin).
Qed.

Lemma write_read_wf
    (py_float : string -> result float) (format_2f : float -> string)
    (path_stem : string -> string)
    (h : heap) (m : SimpleMindMap) (t : tree) (fuel : nat) :
  (forall v, exists v', py_float (format_2f v) = Ok v') ->
  well_formed h m t ->
  ~ In None (keys (Map.nodes m)) ->
  height t <= fuel ->
  exists a h' m' t',
    write format_2f fuel h m = Some (Ok a)
    /\ read py_float path_stem a = Ok (h', m')
    /\ well_formed h' m' t'
    /\ ~ In None (keys (Map.nodes m'))
    /\ length (Map.nodes m') = length (Map.nodes m)
    /\ id_at h' (root_of t') = id_at h (root_of t).
Proof.
  intros Hfloat Hw Hnone Hf.
  destruct (write_read_built py_float format_2f Hfloat path_stem h m t fuel
              Hw Hnone Hf)
    as (a & m2 & Hwrite & Hread & Hn2 & Hrel2 & _ & _ & _ & Hbuildable & Hst & Hbare).
  set (ns := map (read_back py_float format_2f) (objects h (flatten t))) in *.
  set (B := build ns [] m2) in *.
  set (m' := Map.set_relations (Map.relations (snd B) ++ Map.relations m) (snd B))
    in *.
  destruct (wf_objects_root h m t Hw) as (root & rest & Eo & Hroot & Hrp & Hrest).
  assert (Ens : ns = read_back py_float format_2f root
                     :: map (read_back py_float format_2f) rest).
  { unfold ns. rewrite Eo. reflexivity. }
  assert (Hrest' : Forall (fun n => Node.parent_id n <> ROOT_PARENT)
                     (map (read_back py_float format_2f) rest)).
  { apply Forall_forall. intros n Hn. apply in_map_iff in Hn.
    destruct Hn as (n0 & <- & Hn0). rewrite Forall_forall in Hrest.
    apply (Hrest n0 Hn0). }
  destruct (build_shape ns [] m2 [] (empty_shape m2 Hn2)) as (F' & Hs' & Hkeys).
  { rewrite Hn2. exact Hbuildable. }
  fold B in Hs', Hkeys. rewrite Hn2 in Hkeys. cbn [keys map app] in Hkeys.
  assert (Hroots : root_nodes (fst B) (snd B) = [0]).
  { apply (in_step_root_nodes (fst B) (snd B)
             (read_back py_float format_2f root)
             (map (read_back py_float format_2f) rest) Hst);
      [rewrite Hbare; exact Ens | exact Hrp | exact Hrest']. }
  rewrite (ds_root_nodes _ _ _ Hs') in Hroots.
  destruct F' as [|t' [|t'' F'']]; try discriminate.
  cbn [map] in Hroots. injection Hroots as Hroot0.
  assert (Hdef : forall l, In l (flatten t) -> deref h l <> None).
  { intros l Hl. destruct (wf_has_strings h m t l Hw Hnone Hl) as (n & Hn & _).
    congruence. }
  assert (Hids : map Node.id ns = map (id_at h) (flatten t)).
  { unfold ns. rewrite map_map.
    rewrite <- (ids_objects h (flatten t) Hdef).
    apply map_ext. intros n. reflexivity. }
  assert (Hperm := wf_keys_ids h m t Hw).
  assert (Hk' : keys (Map.nodes m') = map (id_at h) (flatten t)).
  { subst m'. cbn [Map.nodes Map.set_relations].
    etransitivity; [exact Hkeys | exact Hids]. }
  exists a, (fst B), m', t'. split; [exact Hwrite|]. split; [exact Hread|].
  split; [|split; [|split]].
  - constructor.
    + apply (doc_shape_same_nodes (fst B) (snd B) m' [t'] eq_refl Hs').
    + subst m'. cbn [Map.root_node Map.set_relations]. rewrite Hroot0.
      unfold B. rewrite Ens, build_cons, (build_root_kept _ Hrest').
      rewrite (ais_root [] m2). cbn [Node.parent_id read_back]. rewrite Hrp.
      reflexivity.
    + rewrite Hk'. intros Hin. apply (wf_marker _ _ _ Hw).
      eapply Permutation_in; [apply Permutation_sym, Hperm | exact Hin].
  - rewrite Hk'. intros Hin. apply Hnone.
    eapply Permutation_in; [apply Permutation_sym, Hperm | exact Hin].
  - rewrite <- (length_map fst (Map.nodes m')).
    change (map fst (Map.nodes m')) with (keys (Map.nodes m')).
    rewrite Hk', length_map. symmetry. apply (wf_length h m t Hw).
  - rewrite Hroot0. unfold id_at. rewrite Hroot.
    assert (H0 : nth_error (map bare (fst B)) 0
                 = Some (read_back py_float format_2f root))
      by (rewrite Hbare, Ens; reflexivity).
    rewrite nth_error_map in H0. unfold deref.
    destruct (nth_error (fst B) 0) as [x0|]; [|discriminate].
    cbn [option_map] in H0.
    assert (E : Node.id (bare x0) = Node.id (read_back py_float format_2f root))
      by congruence.
    exact E.
Qed.



(** ** Sessions of tool calls on a file *)

Lemma tool_add_node_inv (h : heap) (m : SimpleMindMap)
    (parent_id text : string) (notes : option string)
    (h' : heap) (m' : SimpleMindMap) (r : Response) :
  tool_add_node h m parent_id text notes = Written h' m' r ->
  exists lp parent new_id,
    get_node m (Some parent_id) = Some lp
    /\ deref h lp = Some parent
    /\ generate_id m = Ok new_id
    /\ r = Added text new_id parent_id.
Proof.
  intros Hrun.
  destruct (get_node m (Some parent_id)) as [lp|] eqn:Hg;
    [|unfold tool_add_node in Hrun; rewrite Hg in Hrun; discriminate].
  destruct (deref h lp) as [parent|] eqn:Hd;
    [|unfold tool_add_node in Hrun; rewrite Hg, Hd in Hrun; discriminate].
  destruct (generate_id m) as [nid|e] eqn:Hid;
    [|unfold tool_add_node in Hrun; rewrite Hg, Hd, Hid in Hrun; discriminate].
  rewrite (tool_add_node_written h m parent_id text notes lp parent nid
             Hg Hd Hid) in Hrun.
  injection Hrun as _ _ <-. exists lp, parent, nid. auto.
Qed.

Lemma dict_del_sub (d : dict loc) (k : pystr) :
  incl (keys (dict_del k d)) (keys d) /\ length (dict_del k d) <= length d.
Proof.
  induction d as [|[k' v'] d [IH1 IH2]]; simpl; [split; [apply incl_refl|lia]|].
  destruct (pystr_eqb k k'); simpl.
  - split; [apply incl_tl, incl_refl | lia].
  - split; [|lia]. intros x [<-|Hx]; [left; reflexivity|right; apply IH1, Hx].
Qed.

Lemma remove_node_and_children_sub (fuel : nat) (h : heap) :
  forall l d d',
    remove_node_and_children fuel h l d = Some d' ->
    incl (keys d') (keys d) /\ length d' <= length d.
Proof.
  induction fuel as [|f IH]; intros l d d'; [discriminate|].
  cbn [remove_node_and_children].
  destruct (deref h l) as [n|]; [|intros [= <-]; split; [apply incl_refl|lia]].
  assert (Hfold : forall cs d0 d1,
            fold_left
              (fun acc child =>
                 match acc with
                 | Some d => remove_node_and_children f h child d
                 | None => None
                 end) cs (Some d0) = Some d1 ->
            incl (keys d1) (keys d0) /\ length d1 <= length d0).
  { induction cs as [|c cs IHc]; intros d0 d1; simpl.
    - intros [= <-]. split; [apply incl_refl|lia].
    - destruct (remove_node_and_children f h c d0) as [dc|] eqn:Ec.
      + intros H. destruct (IHc dc d1 H) as [A1 A2].
        destruct (IH c d0 dc Ec) as [B1 B2].
        split; [eapply incl_tran; eauto | lia].
      + intros H. exfalso. clear -H.
        induction cs as [|c' cs IHc']; simpl in H; [discriminate|auto]. }
  destruct (fold_left _ _ _) as [d1|] eqn:Ef; [|discriminate].
  destruct (Hfold _ _ _ Ef) as [A1 A2].
  destruct (dict_mem (Node.id n) d1); intros [= <-]; [|auto].
  destruct (dict_del_sub d1 (Node.id n)) as [B1 B2].
  split; [eapply incl_tran; eauto | lia].
Qed.

Lemma tool_delete_node_sub (fuel : nat) (h : heap) (m : SimpleMindMap)
    (node_id : string) (h' : heap) (m' : SimpleMindMap) (r : Response) :
  tool_delete_node fuel h m node_id = Some (Written h' m' r) ->
  incl (keys (Map.nodes m')) (keys (Map.nodes m))
  /\ length (Map.nodes m') <= length (Map.nodes m).
Proof.
  unfold tool_delete_node.
  destruct (get_node m (Some node_id)) as [l|]; [|discriminate].
  destruct (deref h l) as [node|]; [|discriminate].
  destruct (pystr_eqb (Node.parent_id node) ROOT_PARENT); [discriminate|].
  destruct (count_descendants fuel h l); [|discriminate].
  destruct (remove_node_and_children fuel _ l (Map.nodes m)) as [d'|] eqn:E;
    [|discriminate].
  intros [= _ <- _]. cbn [Map.nodes Map.set_nodes].
  eapply remove_node_and_children_sub, E.
Qed.

(** What the editing tools keep of a conformant document with string ids
    and a root id that is not negative. *)
Record sound (h : heap) (m : SimpleMindMap) (t : tree) : Prop := {
  sd_wf : well_formed h m t;
  sd_strings : ~ In None (keys (Map.nodes m));
  sd_root : root_id_ok h t
}.

Lemma sound_add (h : heap) (m : SimpleMindMap) (t : tree)
    (parent_id text : string) (notes : option string)
    (h' : heap) (m' : SimpleMindMap) (r : Response) :
  sound h m t ->
  tool_add_node h m parent_id text notes = Written h' m' r ->
  exists t', sound h' m' t' /\ length (Map.nodes m') <= S (length (Map.nodes m)).
Proof.
  intros [Hw Hstr Hroot] Hrun.
  destruct (wf_tool_add_node h m t parent_id text notes h' m' r Hw Hroot Hrun)
    as (lp0 & Hw' & Hid).
  destruct (tool_add_node_inv h m parent_id text notes h' m' r Hrun)
    as (lp & parent & nid & Hg & Hd & Hgen & ->).
  assert (Hne : parent_id <> "-1").
  { intros ->. apply (wf_marker _ _ _ Hw). eapply dict_get_Some_key, Hg. }
  destruct (tool_add_node_effect h m parent_id text notes lp parent nid
              Hg Hd Hne Hgen)
    as (h2 & m2 & vx & vy & Hrun' & Hfresh & Hm2 & _).
  rewrite Hrun' in Hrun. injection Hrun as <- <-.
  exists (tinsert lp0 (length h) t). split.
  - constructor; [exact Hw'| |].
    + rewrite Hm2. cbn [Map.nodes Map.set_nodes]. rewrite keys_app, in_app_iff.
      simpl. intros [H|[H|[]]]; [exact (Hstr H) | discriminate].
    + intros z. rewrite root_of_tinsert, Hid. apply Hroot.
  - rewrite Hm2. cbn [Map.nodes Map.set_nodes]. rewrite length_app. simpl. lia.
Qed.

Lemma sound_update (h : heap) (m : SimpleMindMap) (t : tree)
    (node_id : string) (new_text new_notes : option string)
    (h' : heap) (m' : SimpleMindMap) (r : Response) :
  sound h m t ->
  tool_update_node h m node_id new_text new_notes = Written h' m' r ->
  sound h' m' t /\ m' = m.
Proof.
  intros [Hw Hstr Hroot] Hrun.
  destruct (wf_tool_update_node h m t node_id new_text new_notes h' m' r Hw Hrun)
    as [Hw' Hid].
  destruct (tool_update_node_skel h m node_id new_text new_notes h' m' r Hrun)
    as [-> _].
  split; [|reflexivity]. constructor; [exact Hw' | exact Hstr|].
  intros z. rewrite Hid. apply Hroot.
Qed.

Lemma sound_delete (h : heap) (m : SimpleMindMap) (t : tree)
    (node_id : string) (fuel : nat) :
  sound h m t -> length (Map.nodes m) <= fuel ->
  exists o,
    tool_delete_node fuel h m node_id = Some o
    /\ match o with
       | Written h' m' _ =>
           exists t', sound h' m' t'
                      /\ length (Map.nodes m') <= length (Map.nodes m)
       | Reply _ => True
       end.
Proof.
  intros [Hw Hstr Hroot] Hf.
  destruct (wf_tool_delete_node h m t node_id Hw) as (o & Hrun & Ho).
  exists o. split; [apply Hrun, Hf|].
  destruct o as [h' m' r|r]; [|exact I].
  destruct Ho as [Hw' Hid].
  destruct (tool_delete_node_sub fuel h m node_id h' m' r (Hrun fuel Hf))
    as [Hincl Hlen].
  eexists. split; [|exact Hlen].
  constructor; [exact Hw'| |].
  - intros Hin. apply Hstr, Hincl, Hin.
  - intros z. rewrite root_of_tremove, Hid. apply Hroot.
Qed.

Section Sessions.
Variable py_float : string -> result float.
Variable format_2f : float -> string.
Variable path_stem : string -> string.
Hypothesis Hfloat : forall v, exists v', py_float (format_2f v) = Ok v'.

(** The archive [a] was written for a sound document of at most [N]
    nodes. *)
Definition file_of (a : Archive) (N : nat) : Prop :=
  exists h m t f0,
    sound h m t /\ length (Map.nodes m) <= N /\ height t <= f0
    /\ write format_2f f0 h m = Some (Ok a).

Lemma file_of_mono (a : Archive) (N N' : nat) :
  file_of a N -> N <= N' -> file_of a N'.
Proof.
  intros (h & m & t & f0 & Hs & Hl & Hh & Hw) Hle.
  exists h, m, t, f0. split; [exact Hs|]. split; [lia|]. split; assumption.
Qed.

Lemma file_read (a : Archive) (N : nat) :
  file_of a N ->
  exists h1 m1 t1,
    read py_float path_stem a = Ok (h1, m1)
    /\ sound h1 m1 t1 /\ length (Map.nodes m1) <= N.
Proof.
  intros (h & m & t & f0 & [Hw Hstr Hroot] & Hl & Hh & Hwrite).
  destruct (write_read_wf py_float format_2f path_stem h m t f0 Hfloat Hw Hstr Hh)
    as (a2 & h1 & m1 & t1 & Hwrite2 & Hread & Hw1 & Hstr1 & Hlen & Hid).
  rewrite Hwrite in Hwrite2. injection Hwrite2 as <-.
  exists h1, m1, t1. split; [exact Hread|]. split; [|lia].
  constructor; [exact Hw1 | exact Hstr1|].
  intros z. rewrite Hid. apply Hroot.
Qed.

Lemma sound_write (h : heap) (m : SimpleMindMap) (t : tree) (fuel : nat) :
  sound h m t -> length (Map.nodes m) <= fuel ->
  exists a,
    write format_2f fuel h m = Some (Ok a)
    /\ file_of a (length (Map.nodes m)).
Proof.
  intros Hs Hf. pose proof Hs as [Hw Hstr Hroot].
  assert (Hh : height t <= fuel).
  { pose proof (height_le_length t). rewrite <- (wf_length h m t Hw) in H. lia. }
  destruct (write_read_wf py_float format_2f path_stem h m t fuel Hfloat Hw Hstr Hh)
    as (a & _ & _ & _ & Hwrite & _).
  exists a. split; [exact Hwrite|].
  exists h, m, t, fuel. auto.
Qed.

Lemma save_sound (h : heap) (m : SimpleMindMap) (t : tree) (r : Response)
    (fuel : nat) :
  sound h m t -> length (Map.nodes m) <= fuel ->
  exists a,
    save format_2f fuel (Written h m r) = Some (r, Some a)
    /\ file_of a (length (Map.nodes m)).
Proof.
  intros Hs Hf. destruct (sound_write h m t fuel Hs Hf) as (a & Hw & Hfile).
  exists a. split; [|exact Hfile]. unfold save. rewrite Hw. reflexivity.
Qed.

Lemma handle_call_tool_sound (a : Archive) (N fuel : nat) (c : Call) :
  file_of a N -> N < fuel ->
  exists r oa,
    handle_call_tool py_float format_2f path_stem fuel a c = Some (r, oa)
    /\ match oa with
       | Some a' => file_of a' (S N)
       | None => True
       end.
Proof.
  intros Hfile Hf.
  destruct (file_read a N Hfile) as (h1 & m1 & t1 & Hread & Hs1 & Hl1).
  destruct c as [pid txt nts | nid txt nts | nid | nid];
    cbn [handle_call_tool]; rewrite ?Hread.
  - destruct (tool_add_node h1 m1 pid txt nts) as [h2 m2 r|r] eqn:E.
    + destruct (sound_add h1 m1 t1 pid txt nts h2 m2 r Hs1 E) as (t2 & Hs2 & Hl2).
      destruct (save_sound h2 m2 t2 r fuel Hs2) as (a' & Hsave & Hfile');
        [lia|].
      exists r, (Some a'). split; [exact Hsave|].
      eapply file_of_mono; [exact Hfile'|lia].
    + exists r, None. split; [reflexivity | exact I].
  - destruct (negb (truthy_arg txt) && negb (truthy_arg nts)).
    + exists MustProvideTextOrNotes, None. split; [reflexivity | exact I].
    + rewrite ?Hread.
      destruct (tool_update_node h1 m1 nid txt nts) as [h2 m2 r|r] eqn:E.
      * destruct (sound_update h1 m1 t1 nid txt nts h2 m2 r Hs1 E) as [Hs2 ->].
        destruct (save_sound h2 m1 t1 r fuel Hs2) as (a' & Hsave & Hfile');
          [lia|].
        exists r, (Some a'). split; [exact Hsave|].
        eapply file_of_mono; [exact Hfile'|lia].
      * exists r, None. split; [reflexivity | exact I].
  - destruct (sound_delete h1 m1 t1 nid fuel Hs1) as (o & Hrun & Ho); [lia|].
    rewrite Hrun. destruct o as [h2 m2 r|r].
    + destruct Ho as (t2 & Hs2 & Hl2).
      destruct (save_sound h2 m2 t2 r fuel Hs2) as (a' & Hsave & Hfile');
        [lia|].
      exists r, (Some a'). split; [exact Hsave|].
      eapply file_of_mono; [exact Hfile'|lia].
    + exists r, None. split; [reflexivity | exact I].
  - destruct (get_node m1 (Some nid)) as [l|] eqn:Hg.
    + destruct (wf_get_node_path h1 m1 t1 nid l (sd_wf _ _ _ Hs1) Hg)
        as (ls & Hrun & _).
      rewrite (Hrun fuel) by lia. eexists _, None. split; [reflexivity | exact I].
    + unfold tool_get_node_path. rewrite Hg.
      eexists _, None. split; [reflexivity | exact I].
Qed.

Lemma handle_calls_sound (cs : list Call) :
  forall a N fuel,
    file_of a N -> N + length cs <= fuel ->
    exists a',
      handle_calls py_float format_2f path_stem fuel a cs = Some a'
      /\ file_of a' (N + length cs).
Proof.
  induction cs as [|c cs IH]; intros a N fuel Hfile Hf.
  - exists a. split; [reflexivity|]. rewrite Nat.add_0_r. exact Hfile.
  - cbn [length] in Hf. cbn [handle_calls].
    destruct (handle_call_tool_sound a N fuel c Hfile) as (r & oa & Hrun & Hoa);
      [lia|].
    rewrite Hrun. destruct oa as [a1|].
    + destruct (IH a1 (S N) fuel Hoa) as (a' & Hrun' & Hfile'); [lia|].
      exists a'. split; [exact Hrun'|].
      cbn [length]. replace (N + S (length cs)) with (S N + length cs) by lia.
      exact Hfile'.
    + destruct (IH a (S N) fuel) as (a' & Hrun' & Hfile');
        [eapply file_of_mono; [exact Hfile|lia] | lia|].
      exists a'. split; [exact Hrun'|].
      cbn [length]. replace (N + S (length cs)) with (S N + length cs) by lia.
      exact Hfile'.
Qed.

End Sessions.


(** ** Edits land in the file *)

(** What [update_node] assigns to the node it finds. *)
Definition updated (new_text new_notes : option string) (n : SimpleMindNode)
    : SimpleMindNode :=
  let n1 := match new_text with
            | Some t => if truthy t then Node.set_text t n else n
            | None => n
            end in
  match new_notes with
  | Some s => Node.set_notes s n1
  | None => n1
  end.

Lemma tool_update_node_updated (h : heap) (m : SimpleMindMap) (node_id : string)
    (new_text new_notes : option string) (l : loc) :
  get_node m (Some node_id) = Some l ->
  negb (truthy_arg new_text) && negb (truthy_arg new_notes) = false ->
  exists h' r,
    tool_update_node h m node_id new_text new_notes = Written h' m r
    /\ forall x,
         deref h' x
         = option_map (fun n => if Nat.eqb l x then updated new_text new_notes n
                                else n)
             (deref h x).
Proof.
  intros Hg Hguard. unfold tool_update_node. rewrite Hguard, Hg.
  unfold updated.
  destruct new_text as [t|]; [destruct (truthy t)|];
    destruct new_notes as [s|]; eexists _, _; (split; [reflexivity|]);
    intros x; rewrite ?deref_mutate;
    destruct (deref h x) as [n|]; cbn [option_map]; try reflexivity;
    destruct (Nat.eqb l x); reflexivity.
Qed.

Lemma wf_child_of (h : heap) (m : SimpleMindMap) (t : tree)
    (lk : loc) (nk : SimpleMindNode) (c : loc) :
  well_formed h m t -> In lk (flatten t) -> deref h lk = Some nk ->
  In c (Node.children nk) ->
  In c (flatten t)
  /\ exists nc, deref h c = Some nc /\ get_node m (Node.parent_id nc) = Some lk.
Proof.
  intros Hw Hlk Hnk Hc. pose proof (wf_shape _ _ _ Hw) as Hs.
  destruct (In_flatten_subtree t lk Hlk) as (s & Hsin & Hroot).
  assert (Hsin' : In s (flat_map subtrees [t]))
    by (simpl; rewrite app_nil_r; exact Hsin).
  destruct (shape_subtree_obj h m [t] Hs s Hsin') as (n0 & Hn0 & Hkids).
  rewrite Hroot, Hnk in Hn0. injection Hn0 as <-.
  rewrite Hkids in Hc. apply in_map_iff in Hc. destruct Hc as (k & <- & Hk).
  split.
  - apply (subtrees_flatten_incl t k); [|apply flatten_root].
    eapply subtrees_trans; [exact Hsin | apply subtrees_kid, Hk].
  - destruct (wf_child_walk h m t s k Hw Hsin Hk) as (nc & Hnc & _ & Hg & _).
    exists nc. rewrite <- Hroot. auto.
Qed.

Lemma keys_dict_drop (ks : list pystr) (d : dict loc) (k : pystr) :
  In k (keys (dict_drop ks d)) -> In k (keys d).
Proof.
  unfold keys, dict_drop. intros H. apply in_map_iff in H.
  destruct H as (e & <- & He). apply filter_In in He. apply in_map, He.
Qed.

Lemma existsb_id_at (h : heap) (key : pystr) (ls : list loc) :
  existsb (pystr_eqb key) (map (id_at h) ls) = true ->
  exists d, In d ls /\ id_at h d = key.
Proof.
  intros H. apply existsb_exists in H. destruct H as (i & Hi & E).
  apply in_map_iff in Hi. destruct Hi as (d & <- & Hd).
  exists d. split; [exact Hd|]. symmetry. apply pystr_eqb_eq, E.
Qed.

Section Persistence.
Variable py_float : string -> result float.
Variable format_2f : float -> string.
Variable path_stem : string -> string.
Hypothesis Hfloat : forall v, exists v', py_float (format_2f v) = Ok v'.


End Persistence.

(** The file written for the chain of three nodes, and the document it
    reads as. *)
Definition chain_file : Archive :=
  Eval vm_compute in
    match write sample_format_2f 3 (fst chain_sample) (snd chain_sample) with
    | Some (Ok a) => a
    | _ => mkArchive None []
    end.

Definition chain_read : heap * SimpleMindMap :=
  Eval vm_compute in
    match read sample_py_float sample_path_stem chain_file with
    | Ok d => d
    | Raise _ => ([], Map.init "")
    end.

Lemma chain_file_read :
  read sample_py_float sample_path_stem chain_file
  = Ok (fst chain_read, snd chain_read).
Proof. vm_compute. reflexivity. Qed.

Lemma chain_read_well_formed :
  well_formed (fst chain_read) (snd chain_read) chain_tree.
Proof.
  constructor; [constructor| |].
  - repeat (constructor; [eexists; split; reflexivity|]). constructor.
  - repeat (constructor; [solve_link_ok|]). constructor.
  - repeat constructor.
  - reflexivity.
  - solve_NoDup.
  - apply Permutation_refl.
  - solve_NoDup.
  - intros k l H. simpl in H.
    repeat (destruct H as [[= <- <-]|H]; [eexists; split; reflexivity|]).
    destruct H.
  - reflexivity.
  - simpl. intuition discriminate.
Qed.

Lemma chain_read_strings : ~ In None (keys (Map.nodes (snd chain_read))).
Proof. simpl. intuition discriminate. Qed.



